(** * Community portal: slugs, authentication, tickets and staff applications

    A shallow embedding of the logic of the portal:
    - [slugify] of [src/lib/constants.ts];
    - the local login of [setupAuth] ([src/server/routes.ts]);
    - the storage methods of [DatabaseStorage] and the ticket and
      application handlers of [registerRoutes] ([src/server/routes.ts]).

    Strings of the program are JavaScript strings.  Where only equality on
    them matters (roles, statuses, messages) they are [string]; [slugify]
    inspects characters, so there a string is its list of UTF-16 code
    units.  The relational store is a record of tables, each a list of rows
    in insertion order; handlers run in a state monad over the store in
    which a failed query throws and nothing is rolled back.

    The storage methods that create a row read the key of the new row as
    [result.insertId].  With drizzle's mysql2 driver an insert resolves to
    the driver's pair [[ResultSetHeader, FieldPacket[]]], which has no such
    property: the key read is [NaN], the query that reads the row back
    fails, and the method throws after its insert. *)

From Stdlib Require Import ZArith NArith List String Ascii Bool Lia.
Import ListNotations.

(* ===================================================================== *)
(** * Slugs ([src/lib/constants.ts], [slugify]) *)
(* ===================================================================== *)

Module Slug.

Local Open Scope N_scope.

(** A JavaScript string: its UTF-16 code units. *)
Definition jsstring := list N.

Definition of_ascii (a : ascii) : N := N_of_ascii a.

Fixpoint of_string (s : string) : jsstring :=
  match s with
  | EmptyString => []
  | String a r => of_ascii a :: of_string r
  end.

Definition hyphen : N := 45.
Definition underscore : N := 95.

Definition is_upper (c : N) : bool := (65 <=? c) && (c <=? 90).
Definition is_lower (c : N) : bool := (97 <=? c) && (c <=? 122).
Definition is_digit (c : N) : bool := (48 <=? c) && (c <=? 57).

(** [\w]: [A-Za-z0-9_]. *)
Definition is_word (c : N) : bool :=
  is_upper c || is_lower c || is_digit c || (c =? underscore).

(** [\s], and what [trim] removes: WhiteSpace and LineTerminator. *)
Definition is_space (c : N) : bool :=
  ((9 <=? c) && (c <=? 13)) || (c =? 32) || (c =? 160) || (c =? 5760)
  || ((8192 <=? c) && (c <=? 8202)) || (c =? 8232) || (c =? 8233)
  || (c =? 8239) || (c =? 8287) || (c =? 12288) || (c =? 65279).

Definition is_hyphen (c : N) : bool := c =? hyphen.

(** The class [[^\w\s-]] of the first [replace], negated: what is kept. *)
Definition kept (c : N) : bool := is_word c || is_space c || is_hyphen c.

(** The class [[\s_-]] of the second [replace]. *)
Definition is_sep (c : N) : bool :=
  is_space c || (c =? underscore) || is_hyphen c.

(** The characters a slug is made of: [[a-z0-9-]]. *)
Definition is_slug_char (c : N) : bool :=
  is_lower c || is_digit c || is_hyphen c.

(** The characters of a word of a slug: [[a-z0-9]]. *)
Definition is_alnum (c : N) : bool := is_lower c || is_digit c.

Fixpoint dropWhile (p : N -> bool) (s : jsstring) : jsstring :=
  match s with
  | [] => []
  | c :: r => if p c then dropWhile p r else s
  end.

Definition dropWhileEnd (p : N -> bool) (s : jsstring) : jsstring :=
  rev (dropWhile p (rev s)).

(** [String.prototype.trim]. *)
Definition trim (s : jsstring) : jsstring :=
  dropWhileEnd is_space (dropWhile is_space s).

(** [.replace(/[^\w\s-]/g, '')]. *)
Definition removeSpecial (s : jsstring) : jsstring := filter kept s.

(** [.replace(/[\s_-]+/g, '-')]: every maximal run of the class becomes one
    hyphen.  [inrun] says that the previous character belonged to the run
    being replaced. *)
Fixpoint collapseFrom (inrun : bool) (s : jsstring) : jsstring :=
  match s with
  | [] => []
  | c :: r =>
      if is_sep c
      then (if inrun then collapseFrom true r else hyphen :: collapseFrom true r)
      else c :: collapseFrom false r
  end.

Definition collapse (s : jsstring) : jsstring := collapseFrom false s.

(** [.replace(/^-+|-+$/g, '')]. *)
Definition stripHyphens (s : jsstring) : jsstring :=
  dropWhileEnd is_hyphen (dropWhile is_hyphen s).

(** The part of [slugify] after [toLowerCase]. *)
Definition slugifyLowered (s : jsstring) : jsstring :=
  stripHyphens (collapse (removeSpecial (trim s))).

Section WithLowerCase.

(** [String.prototype.toLowerCase] follows the Unicode case tables, which
    are not part of the program; [slugify] is defined over any such
    function. *)
Variable toLowerCase : jsstring -> jsstring.

Definition slugify (text : jsstring) : jsstring :=
  slugifyLowered (toLowerCase text).

End WithLowerCase.

(** [toLowerCase] on ASCII text: [A-Z] to [a-z], the rest unchanged. *)
Definition asciiLowerCase (s : jsstring) : jsstring :=
  map (fun c => if is_upper c then c + 32 else c) s.

(** A lowered string holds no [A-Z]. *)
Definition lowered (s : jsstring) : bool :=
  forallb (fun c => negb (is_upper c)) s.

(** No two hyphens in a row. *)
Fixpoint single_hyphens (s : jsstring) : bool :=
  match s with
  | [] => true
  | c :: r =>
      match r with
      | [] => true
      | d :: _ => negb (is_hyphen c && is_hyphen d) && single_hyphens r
      end
  end.

(** ASCII punctuation. *)
Definition is_punct (c : N) : bool :=
  ((33 <=? c) && (c <=? 47)) || ((58 <=? c) && (c <=? 64))
  || ((91 <=? c) && (c <=? 96)) || ((123 <=? c) && (c <=? 126)).

(** The slug as the specification words it: lowercased, every run of
    whitespace and punctuation collapsed to one hyphen, characters outside
    [[a-z0-9-]] stripped, no hyphen at either end. *)
Definition is_spec_sep (c : N) : bool := is_space c || is_punct c.

Fixpoint specCollapseFrom (inrun : bool) (s : jsstring) : jsstring :=
  match s with
  | [] => []
  | c :: r =>
      if is_spec_sep c
      then (if inrun then specCollapseFrom true r
            else hyphen :: specCollapseFrom true r)
      else c :: specCollapseFrom false r
  end.

Definition slugify_spec (toLowerCase : jsstring -> jsstring) (text : jsstring)
  : jsstring :=
  stripHyphens (filter is_slug_char (specCollapseFrom false (toLowerCase text))).

(** The slug in words, to compare [slugify] with.  Of the lowered text
    every character outside [[a-z0-9]] and outside [[\s_-]] is deleted;
    what is left is cut at each character of [[\s_-]]; the pieces that are
    not empty are the words, and the slug is the words with one hyphen
    between two of them. *)
Fixpoint pieces (s : jsstring) : list jsstring :=
  match s with
  | [] => [[]]
  | c :: r =>
      if is_sep c then [] :: pieces r
      else
        match pieces r with
        | [] => [[c]]
        | w :: ws => (c :: w) :: ws
        end
  end.

Definition nonempty (w : jsstring) : bool :=
  match w with
  | [] => false
  | _ :: _ => true
  end.

Definition slugWords (s : jsstring) : list jsstring :=
  filter nonempty (pieces (filter (fun c => is_alnum c || is_sep c) s)).

Fixpoint joinHyphen (ws : list jsstring) : jsstring :=
  match ws with
  | [] => []
  | w :: r =>
      match r with
      | [] => w
      | _ :: _ => w ++ hyphen :: joinHyphen r
      end
  end.

Definition slug_of_words (s : jsstring) : jsstring := joinHyphen (slugWords s).

(** The same slug in one pass, for the proofs: [started] says that a word
    has been written, [pending] that a character of [[\s_-]] was met since
    the last character written. *)
Fixpoint scanFrom (started pending : bool) (s : jsstring) : jsstring :=
  match s with
  | [] => []
  | c :: r =>
      if is_alnum c
      then (if started && pending
            then hyphen :: c :: scanFrom true false r
            else c :: scanFrom true false r)
      else if is_sep c then scanFrom started true r
      else scanFrom started pending r
  end.

End Slug.


(* ===================================================================== *)
(** * The store ([DatabaseStorage], [src/server/routes.ts]) *)
(* ===================================================================== *)

Module Store.

Local Open Scope string_scope.
Local Open Scope Z_scope.

(** ** Rows

    Only the columns the handlers below read or write are kept; free-text
    columns that are carried along untouched are represented by [position],
    [experience] and [reason] for applications and by [subject] and
    [message] for tickets.  [None] is SQL [NULL]. *)

Record User := {
  u_id : Z;
  u_username : string;
  u_password : option string;
  u_role : string;
  u_avatar : option string;
  u_lastLogin : option Z
}.

Record StaffApplication := {
  a_id : Z;
  a_userId : option Z;
  a_position : string;
  a_experience : string;
  a_reason : string;
  a_status : string;
  a_adminNotes : option string;
  a_reviewedBy : option Z;
  a_updatedAt : Z
}.

Record StaffMember := {
  m_id : Z;
  m_userId : option Z;
  m_name : string;
  m_position : string;
  m_role : string;
  m_avatar : option string;
  m_bio : option string;
  m_isActive : bool;
  m_displayOrder : Z
}.

Record Ticket := {
  t_id : Z;
  t_userId : Z;
  t_subject : string;
  t_message : string;
  t_department : string;
  t_priority : string;
  t_status : string;
  t_assignedTo : option Z;
  t_closedAt : option Z;
  t_closedBy : option Z;
  t_updatedAt : Z
}.

(** [createTicketReply] writes [ticket_id], [user_id] and [message] only;
    the other columns of a reply take their defaults. *)
Record TicketReply := {
  r_id : Z;
  r_ticketId : Z;
  r_userId : Z;
  r_message : string
}.

(** ** Values handed to the storage methods *)

Record InsertStaffApplication := {
  ia_userId : option Z;
  ia_position : string;
  ia_experience : string;
  ia_reason : string;
  ia_status : option string;
  ia_adminNotes : option string;
  ia_reviewedBy : option Z
}.

Record InsertStaffMember := {
  im_userId : option Z;
  im_name : string;
  im_position : string;
  im_role : string;
  im_avatar : option string;
  im_bio : option string;
  im_isActive : bool;
  im_displayOrder : Z
}.

Record InsertTicket := {
  it_userId : Z;
  it_subject : string;
  it_message : string;
  it_department : string;
  it_priority : string
}.

Record InsertTicketReply := {
  ir_ticketId : Z;
  ir_userId : Z;
  ir_message : string;
  ir_isStaff : bool;
  ir_isSystemMessage : bool
}.

(** [Partial<...>]: a field that is [None] is absent and left as it is. *)
Record PartialUser := {
  pu_username : option string;
  pu_password : option string;
  pu_role : option string
}.

Record PartialStaffApplication := {
  pa_status : option string;
  pa_adminNotes : option string;
  pa_reviewedBy : option Z
}.

Record PartialTicket := {
  pt_status : option string;
  pt_assignedTo : option Z
}.

(** ** The database

    [online] is whether the MySQL server can be reached; [now] is what
    [new Date()] and [NOW()] give. *)
Record Db := {
  online : bool;
  now : Z;
  users : list User;
  staffApplications : list StaffApplication;
  staffMembers : list StaffMember;
  tickets : list Ticket;
  ticketReplies : list TicketReply
}.

Definition with_users (f : list User -> list User) (db : Db) : Db :=
  {| online := online db; now := now db; users := f (users db);
     staffApplications := staffApplications db;
     staffMembers := staffMembers db; tickets := tickets db;
     ticketReplies := ticketReplies db |}.

Definition with_staffApplications
  (f : list StaffApplication -> list StaffApplication) (db : Db) : Db :=
  {| online := online db; now := now db; users := users db;
     staffApplications := f (staffApplications db);
     staffMembers := staffMembers db; tickets := tickets db;
     ticketReplies := ticketReplies db |}.

Definition with_staffMembers
  (f : list StaffMember -> list StaffMember) (db : Db) : Db :=
  {| online := online db; now := now db; users := users db;
     staffApplications := staffApplications db;
     staffMembers := f (staffMembers db); tickets := tickets db;
     ticketReplies := ticketReplies db |}.

Definition with_tickets (f : list Ticket -> list Ticket) (db : Db) : Db :=
  {| online := online db; now := now db; users := users db;
     staffApplications := staffApplications db;
     staffMembers := staffMembers db; tickets := f (tickets db);
     ticketReplies := ticketReplies db |}.

Definition with_ticketReplies
  (f : list TicketReply -> list TicketReply) (db : Db) : Db :=
  {| online := online db; now := now db; users := users db;
     staffApplications := staffApplications db;
     staffMembers := staffMembers db; tickets := tickets db;
     ticketReplies := f (ticketReplies db) |}.

(** ** Effects: state over the database, with exceptions

    A rejected promise is [Thrown].  The state reached before the throw is
    kept: no method or handler opens a transaction. *)
Inductive Outcome (A : Type) : Type :=
| Ok (a : A)
| Thrown.
Arguments Ok {A} a.
Arguments Thrown {A}.

Definition M (A : Type) : Type := Db -> Outcome A * Db.

Definition ret {A} (a : A) : M A := fun db => (Ok a, db).

Definition bind {A B} (m : M A) (k : A -> M B) : M B :=
  fun db =>
    match m db with
    | (Ok a, db') => k a db'
    | (Thrown, db') => (Thrown, db')
    end.

Definition throw {A} : M A := fun db => (Thrown, db).

(** [try { m } catch { h }]. *)
Definition try_catch {A} (m : M A) (h : M A) : M A :=
  fun db =>
    match m db with
    | (Ok a, db') => (Ok a, db')
    | (Thrown, db') => h db'
    end.

Declare Scope portal_scope.
Delimit Scope portal_scope with portal.
Notation "x <- m ;; k" := (bind m (fun x => k))
  (at level 61, m at next level, right associativity) : portal_scope.
Notation "m ;; k" := (bind m (fun _ => k))
  (at level 61, right associativity) : portal_scope.
Local Open Scope portal_scope.

(** A query, and a statement that writes: both fail when the server cannot
    be reached. *)
Definition select {A} (q : Db -> A) : M A :=
  fun db => if online db then (Ok (q db), db) else (Thrown, db).

Definition execute (w : Db -> Db) : M unit :=
  fun db => if online db then (Ok tt, w db) else (Thrown, db).

(** The key the AUTO_INCREMENT column gives the new row: one past the
    largest key of the table. *)
Definition insertId {R} (key : R -> Z) (rows : list R) : Z :=
  fold_right (fun r acc => Z.max (key r) acc) 0 rows + 1.

Definition byId {R} (key : R -> Z) (id : Z) (rows : list R) : option R :=
  find (fun r => key r =? id) rows.

(** What an [INSERT] resolves to.  [db.insert(...).values(...)] and
    [db.execute(sql`INSERT ...`)] of drizzle's mysql2 driver give the
    driver's pair [[ResultSetHeader, FieldPacket[]]]; the key of the new
    row is in the header, [result[0].insertId]. *)
Record QueryResult := {
  header_insertId : Z
}.

(** [result.insertId], as the methods read it: a property of the pair
    itself, which it does not have; the value is [undefined]. *)
Definition result_insertId (result : QueryResult) : option Z := None.

(** A JavaScript number. *)
Inductive JsNumber : Type :=
| NaN
| Int (z : Z).

(** [Number(x)]: [Number(undefined)] is [NaN]. *)
Definition Number (x : option Z) : JsNumber :=
  match x with
  | Some z => Int z
  | None => NaN
  end.

(** An [INSERT] into a table: the row gets the next key. *)
Definition insertRow {R} (key : R -> Z) (table : Db -> list R)
  (put : (list R -> list R) -> Db -> Db) (row : Z -> Z -> R)
  : M QueryResult :=
  fun db =>
    let id := insertId key (table db) in
    (execute (put (fun rows => (rows ++ [row id (now db)])%list)) ;;
     ret {| header_insertId := id |}) db.

(** [select().from(table).where(eq(table.id, id))], first row.  For
    [NaN] the statement sent is [... where id = NaN], which MySQL
    refuses. *)
Definition selectById {R} (key : R -> Z) (table : Db -> list R)
  (id : JsNumber) : M (option R) :=
  match id with
  | Int z => select (fun db => byId key z (table db))
  | NaN => throw
  end.

Definition updateWhere {R} (key : R -> Z) (id : Z) (f : R -> R) (rows : list R)
  : list R :=
  map (fun r => if key r =? id then f r else r) rows.

Definition orElse {A} (o : option A) (d : A) : A :=
  match o with Some a => a | None => d end.

Definition keep {A} (o : option A) (old : option A) : option A :=
  match o with Some a => Some a | None => old end.

(** [eq(column, userId)] on a nullable column. *)
Definition isUser (userId : Z) (c : option Z) : bool :=
  match c with Some u => u =? userId | None => false end.

(** ** Users *)

Definition getUser (id : Z) : M (option User) :=
  select (fun db => byId u_id id (users db)).

Definition setUser (data : PartialUser) (u : User) : User :=
  {| u_id := u_id u;
     u_username := orElse (pu_username data) (u_username u);
     u_password := keep (pu_password data) (u_password u);
     u_role := orElse (pu_role data) (u_role u);
     u_avatar := u_avatar u;
     u_lastLogin := u_lastLogin u |}.

(** Is there a field to set. *)
Definition noValues (data : PartialUser) : bool :=
  match pu_username data, pu_password data, pu_role data with
  | None, None, None => true
  | _, _, _ => false
  end.

(** [update(users).set(data)] throws [No values to set], before any
    query, when every field of [data] is absent. *)
Definition updateUser (id : Z) (data : PartialUser) : M (option User) :=
  if noValues data
  then throw
  else
    execute (with_users (updateWhere u_id id (setUser data))) ;;
    select (fun db => byId u_id id (users db)).

(** ** Staff applications *)

Definition getStaffApplication (id : Z) : M (option StaffApplication) :=
  select (fun db => byId a_id id (staffApplications db)).

(** The rows come back newest first in the source; the one caller only
    asks whether some row is pending, so the order of the table is kept. *)
Definition getStaffApplicationsByUserId (userId : Z)
  : M (list StaffApplication) :=
  select (fun db =>
            filter (fun a => isUser userId (a_userId a)) (staffApplications db)).

(** Modelled from the spec: the column default of an application's status,
    declared in the schema ([@shared/schema]) that is not among the
    sources; an application is created [pending]. *)
Definition defaultApplicationStatus : string := "pending".

Definition newStaffApplication (id : Z) (at_ : Z) (a : InsertStaffApplication)
  : StaffApplication :=
  {| a_id := id;
     a_userId := ia_userId a;
     a_position := ia_position a;
     a_experience := ia_experience a;
     a_reason := ia_reason a;
     a_status := orElse (ia_status a) defaultApplicationStatus;
     a_adminNotes := ia_adminNotes a;
     a_reviewedBy := ia_reviewedBy a;
     a_updatedAt := at_ |}.

Definition createStaffApplication (application : InsertStaffApplication)
  : M (option StaffApplication) :=
  result <-
    insertRow a_id staffApplications with_staffApplications
      (fun id at_ => newStaffApplication id at_ application) ;;
  let id := Number (result_insertId result) in
  selectById a_id staffApplications id.

Definition setStaffApplication (data : PartialStaffApplication) (at_ : Z)
  (a : StaffApplication) : StaffApplication :=
  {| a_id := a_id a;
     a_userId := a_userId a;
     a_position := a_position a;
     a_experience := a_experience a;
     a_reason := a_reason a;
     a_status := orElse (pa_status data) (a_status a);
     a_adminNotes := keep (pa_adminNotes data) (a_adminNotes a);
     a_reviewedBy := keep (pa_reviewedBy data) (a_reviewedBy a);
     a_updatedAt := at_ |}.

Definition updateStaffApplication (id : Z) (data : PartialStaffApplication)
  : M (option StaffApplication) :=
  execute (fun db =>
             with_staffApplications
               (updateWhere a_id id (setStaffApplication data (now db))) db) ;;
  select (fun db => byId a_id id (staffApplications db)).

(** ** Staff roster *)

Definition getStaffMemberByUserId (userId : Z) : M (option StaffMember) :=
  select (fun db =>
            find (fun m => isUser userId (m_userId m)) (staffMembers db)).

Definition newStaffMember (id : Z) (m : InsertStaffMember) : StaffMember :=
  {| m_id := id;
     m_userId := im_userId m;
     m_name := im_name m;
     m_position := im_position m;
     m_role := im_role m;
     m_avatar := im_avatar m;
     m_bio := im_bio m;
     m_isActive := im_isActive m;
     m_displayOrder := im_displayOrder m |}.

Definition createStaffMember (member : InsertStaffMember)
  : M (option StaffMember) :=
  result <-
    insertRow m_id staffMembers with_staffMembers
      (fun id _ => newStaffMember id member) ;;
  let id := Number (result_insertId result) in
  selectById m_id staffMembers id.

(** ** Tickets *)

Definition getTicket (id : Z) : M (option Ticket) :=
  select (fun db => byId t_id id (tickets db)).

(** Modelled from the spec: the column default of a ticket's status,
    declared in the schema ([@shared/schema]) that is not among the
    sources; a ticket is created [open]. *)
Definition defaultTicketStatus : string := "open".

Definition newTicket (id : Z) (at_ : Z) (t : InsertTicket) : Ticket :=
  {| t_id := id;
     t_userId := it_userId t;
     t_subject := it_subject t;
     t_message := it_message t;
     t_department := it_department t;
     t_priority := if String.eqb (it_priority t) "" then "normal"
                   else it_priority t;
     t_status := defaultTicketStatus;
     t_assignedTo := None;
     t_closedAt := None;
     t_closedBy := None;
     t_updatedAt := at_ |}.

Definition createTicket (ticket : InsertTicket) : M (option Ticket) :=
  result <-
    insertRow t_id tickets with_tickets
      (fun id at_ => newTicket id at_ ticket) ;;
  let id := Number (result_insertId result) in
  selectById t_id tickets id.

Definition setTicket (data : PartialTicket) (at_ : Z) (t : Ticket) : Ticket :=
  {| t_id := t_id t;
     t_userId := t_userId t;
     t_subject := t_subject t;
     t_message := t_message t;
     t_department := t_department t;
     t_priority := t_priority t;
     t_status := orElse (pt_status data) (t_status t);
     t_assignedTo := keep (pt_assignedTo data) (t_assignedTo t);
     t_closedAt := t_closedAt t;
     t_closedBy := t_closedBy t;
     t_updatedAt := at_ |}.

Definition updateTicket (id : Z) (data : PartialTicket) : M (option Ticket) :=
  execute (fun db =>
             with_tickets (updateWhere t_id id (setTicket data (now db))) db) ;;
  select (fun db => byId t_id id (tickets db)).

Definition setClosed (userId : Z) (at_ : Z) (t : Ticket) : Ticket :=
  {| t_id := t_id t;
     t_userId := t_userId t;
     t_subject := t_subject t;
     t_message := t_message t;
     t_department := t_department t;
     t_priority := t_priority t;
     t_status := "closed";
     t_assignedTo := t_assignedTo t;
     t_closedAt := Some at_;
     t_closedBy := Some userId;
     t_updatedAt := at_ |}.

Definition closeTicket (id : Z) (userId : Z) : M (option Ticket) :=
  execute (fun db =>
             with_tickets (updateWhere t_id id (setClosed userId (now db))) db) ;;
  updatedTicket <- select (fun db => byId t_id id (tickets db)) ;;
  match updatedTicket with
  | Some t => if String.eqb (t_status t) "closed" then ret (Some t) else ret None
  | None => ret None
  end.

Definition getTicketReplies (ticketId : Z) : M (list TicketReply) :=
  select (fun db => filter (fun r => r_ticketId r =? ticketId) (ticketReplies db)).

(** [['admin', 'moderator', 'support'].includes(role)]. *)
Definition isStaffRole (role : string) : bool :=
  existsb (String.eqb role) ["admin"; "moderator"; "support"].

Definition newTicketReply (id : Z) (r : InsertTicketReply) : TicketReply :=
  {| r_id := id;
     r_ticketId := ir_ticketId r;
     r_userId := ir_userId r;
     r_message := ir_message r |}.

Definition createTicketReply (reply : InsertTicketReply)
  : M (option TicketReply) :=
  result <-
    insertRow r_id ticketReplies with_ticketReplies
      (fun id _ => newTicketReply id reply) ;;
  let id := Number (result_insertId result) in
  createdReply <- selectById r_id ticketReplies id ;;
  user <- getUser (ir_userId reply) ;;
  match user with
  | Some u =>
      if isStaffRole (u_role u)
      then
        ticket <- getTicket (ir_ticketId reply) ;;
        match ticket with
        | Some t =>
            if String.eqb (t_status t) "open"
            then
              updateTicket (ir_ticketId reply)
                {| pt_status := Some "in_progress";
                   pt_assignedTo := Some (ir_userId reply) |} ;;
              ret createdReply
            else ret createdReply
        | None => ret createdReply
        end
      else ret createdReply
  | None => ret createdReply
  end.

End Store.

(* ===================================================================== *)
(** * Principals and responses *)
(* ===================================================================== *)

Module Http.

Import Store.
Local Open Scope string_scope.
Local Open Scope Z_scope.

(** [req.user] ([Express.User]): what the handlers read of it. *)
Record Principal := {
  p_id : Z;
  p_username : string;
  p_role : string
}.

Definition principalOf (u : User) : Principal :=
  {| p_id := u_id u; p_username := u_username u; p_role := u_role u |}.

(** The JSON bodies the handlers answer with. *)
Inductive Json : Type :=
| JMessage (message : string)
| JPrincipal (user : Principal)
| JApplication (application : option StaffApplication)
| JUpdatedApplication (application : option StaffApplication)
| JTicket (ticket : option Ticket)
| JAssigned (ticket : option Ticket)
| JReply (reply : option TicketReply) (user : option User).

Record Response := {
  status : Z;
  body : Json
}.

Definition json (code : Z) (b : Json) : M Response :=
  ret {| status := code; body := b |}.

(** The status code of an answer, when the handler gave one. *)
Definition statusOf (o : Outcome Response) : option Z :=
  match o with
  | Ok r => Some (status r)
  | Thrown => None
  end.


(** A string in a condition: empty is falsy. *)
Definition truthy (o : option string) : option string :=
  match o with
  | Some s => if String.eqb s "" then None else Some s
  | None => None
  end.

End Http.

(* ===================================================================== *)
(** * Local authentication ([setupAuth], [src/server/routes.ts]) *)
(* ===================================================================== *)

Module Auth.

Import Store Http.
Local Open Scope string_scope.
Local Open Scope Z_scope.
Local Open Scope portal_scope.

(** The principal of the special administrative login. *)
Definition adminUser : Principal :=
  {| p_id := 1; p_username := "thuglife"; p_role := "admin" |}.

Definition isSpecialLogin (username password : string) : bool :=
  String.eqb username "thuglife" && String.eqb password "thuglife".

(** What the verify callback hands to [done]. *)
Inductive Verdict : Type :=
| Authenticated (user : Principal)
| Refused (message : string).

Definition setLastLogin (at_ : Z) (u : User) : User :=
  {| u_id := u_id u;
     u_username := u_username u;
     u_password := u_password u;
     u_role := u_role u;
     u_avatar := u_avatar u;
     u_lastLogin := Some at_ |}.

(** The user name and the password of a request, as passport-local looks
    them up.  A field that is missing is the empty string here: both are
    falsy, and neither is the special pair. *)
Record Credentials := {
  c_username : string;
  c_password : string
}.

(** [!username || !password], the test passport-local makes before it
    calls the verify callback. *)
Definition missingCredentials (credentials : Credentials) : bool :=
  String.eqb (c_username credentials) ""
  || String.eqb (c_password credentials) "".

Section WithBcrypt.

(** [compare] of bcrypt: does the password match the stored hash. *)
Variable compare : string -> string -> bool.

(** The verify callback of the [LocalStrategy]. *)
Definition localVerify (username password : string) : M Verdict :=
  if isSpecialLogin username password
  then ret (Authenticated adminUser)
  else
    try_catch
      (found <- select (fun db =>
                 find (fun u => String.eqb (u_username u) username) (users db)) ;;
       match found with
       | None => ret (Refused "Usuário não encontrado ou senha incorreta")
       | Some user =>
           match truthy (u_password user) with
           | None => ret (Refused "Usuário não encontrado ou senha incorreta")
           | Some hash =>
               if compare password hash
               then
                 execute (fun db =>
                            with_users
                              (updateWhere u_id (u_id user)
                                 (setLastLogin (now db))) db) ;;
                 ret (Authenticated (principalOf user))
               else ret (Refused "Usuário não encontrado ou senha incorreta")
           end
       end)
      (if isSpecialLogin username password
       then ret (Authenticated adminUser)
       else ret (Refused "Erro de conexão com banco de dados")).

(** [POST /api/auth/login].  The second component is what [req.login]
    leaves in the session: the id [serializeUser] gives for the user.
    Past the special pair the strategy of passport-local runs: it fails
    with [Missing credentials] by itself when the user name or the
    password is missing or empty, and calls the verify callback
    otherwise. *)
Definition login (credentials : Credentials) : M (Response * option Z) :=
  if isSpecialLogin (c_username credentials) (c_password credentials)
  then ret ({| status := 200; body := JPrincipal adminUser |},
            Some (p_id adminUser))
  else if missingCredentials credentials
  then ret ({| status := 401; body := JMessage "Missing credentials" |},
            None)
  else
    try_catch
      (verdict <- localVerify (c_username credentials)
                    (c_password credentials) ;;
       match verdict with
       | Refused message =>
           ret ({| status := 401; body := JMessage message |}, None)
       | Authenticated user =>
           ret ({| status := 200; body := JPrincipal user |},
                Some (p_id user))
       end)
      (ret ({| status := 500; body := JMessage "Internal Server Error" |},
            None)).

End WithBcrypt.

(** [deserializeUser]: the principal of a request, from the id kept in
    its session. *)
Definition deserializeUser (id : Z) : M (option Principal) :=
  if id =? 1
  then ret (Some adminUser)
  else
    try_catch
      (found <- select (fun db => byId u_id id (users db)) ;;
       ret (option_map principalOf found))
      (if id =? 1 then ret (Some adminUser) else ret None).

End Auth.

(* ===================================================================== *)
(** * Handlers ([registerRoutes], [src/server/routes.ts]) *)
(* ===================================================================== *)

Module Routes.

Import Store Http.
Local Open Scope string_scope.
Local Open Scope Z_scope.
Local Open Scope portal_scope.

(** ** Middleware *)

Definition isAuthenticated (next : Principal -> M Response)
  (actor : option Principal) : M Response :=
  match actor with
  | None => json 401 (JMessage "Não autenticado")
  | Some user => next user
  end.

Definition isAdmin (next : Principal -> M Response)
  (actor : option Principal) : M Response :=
  match actor with
  | None => json 401 (JMessage "Não autenticado")
  | Some user =>
      if negb (String.eqb (p_role user) "admin")
      then json 403 (JMessage "Acesso negado")
      else next user
  end.

(** ** Request bodies *)

Record ApplicationBody := {
  b_position : string;
  b_experience : string;
  b_reason : string
}.

Record TicketBody := {
  b_title : string;
  b_message : string;
  b_category : string
}.

(** A query on a nullable key: [NULL] matches no row. *)
Definition forUser {A} (userId : option Z) (q : Z -> M (option A))
  : M (option A) :=
  match userId with
  | Some u => q u
  | None => select (fun _ => None)
  end.

Section WithSchemas.

(** The zod schemas of [@shared/schema] are not among the sources: each
    is taken as the predicate of the values its [parse] accepts, and an
    accepted value is passed on as the handler built it. *)
Variable insertStaffApplicationSchema : InsertStaffApplication -> bool.
Variable insertTicketSchema : InsertTicket -> bool.
Variable insertTicketReplySchema : InsertTicketReply -> bool.

(** ** Staff applications *)

(** [POST /api/applications], as registered first. *)
Definition postApplicationsFirst (body : ApplicationBody)
  (actor : option Principal) : M Response :=
  let data :=
    {| ia_userId := option_map p_id actor;
       ia_position := b_position body;
       ia_experience := b_experience body;
       ia_reason := b_reason body;
       ia_status := None;
       ia_adminNotes := None;
       ia_reviewedBy := None |} in
  try_catch
    (if insertStaffApplicationSchema data
     then
       application <- createStaffApplication data ;;
       json 200 (JApplication application)
     else json 400 (JMessage "Dados de aplicação inválidos"))
    (json 500 (JMessage "Erro ao criar aplicação")).

Definition pendingMessage : string :=
  "Você já possui uma candidatura pendente. Aguarde a análise da atual antes de enviar outra.".

(** [POST /api/applications], as registered second, with the check
    for a pending application. *)
Definition postApplications (body : ApplicationBody)
  : option Principal -> M Response :=
  isAuthenticated (fun user =>
    try_catch
      (existingApplications <- getStaffApplicationsByUserId (p_id user) ;;
       let hasPendingApplication :=
         existsb (fun a => String.eqb (a_status a) "pending")
           existingApplications in
       if hasPendingApplication
       then
         json 400 (JMessage pendingMessage)
       else
         application <-
           createStaffApplication
             {| ia_userId := Some (p_id user);
                ia_position := b_position body;
                ia_experience := b_experience body;
                ia_reason := b_reason body;
                ia_status := Some "pending";
                ia_adminNotes := Some "";
                ia_reviewedBy := None |} ;;
         json 201 (JApplication application))
      (json 500 (JMessage "Erro ao criar candidatura"))).

Definition answerApplication (application : option StaffApplication)
  (notFound : string) : M Response :=
  match application with
  | None => json 404 (JMessage notFound)
  | Some a => json 200 (JApplication (Some a))
  end.

(** [PATCH /api/admin/applications/:id/notes]. *)
Definition patchApplicationNotes (id : Z) (notes : option string)
  : option Principal -> M Response :=
  isAdmin (fun _ =>
    try_catch
      (application <-
         updateStaffApplication id
           {| pa_status := None; pa_adminNotes := notes;
              pa_reviewedBy := None |} ;;
       answerApplication application "Candidatura não encontrada")
      (json 500 (JMessage "Erro ao atualizar notas da candidatura"))).

(** [PATCH /api/admin/applications/:id/approve]. *)
Definition patchApplicationApprove (id : Z) (notes : option string)
  : option Principal -> M Response :=
  isAdmin (fun user =>
    try_catch
      (application <-
         updateStaffApplication id
           {| pa_status := Some "approved"; pa_adminNotes := notes;
              pa_reviewedBy := Some (p_id user) |} ;;
       answerApplication application "Candidatura não encontrada")
      (json 500 (JMessage "Erro ao aprovar candidatura"))).

(** [PATCH /api/admin/applications/:id/reject]. *)
Definition patchApplicationReject (id : Z) (notes : option string)
  : option Principal -> M Response :=
  isAdmin (fun user =>
    try_catch
      (application <-
         updateStaffApplication id
           {| pa_status := Some "rejected"; pa_adminNotes := notes;
              pa_reviewedBy := Some (p_id user) |} ;;
       answerApplication application "Candidatura não encontrada")
      (json 500 (JMessage "Erro ao rejeitar candidatura"))).

(** [PUT /api/admin/applications/:id] (legacy). *)
Definition putApplication (id : Z) (status adminNotes : option string)
  : option Principal -> M Response :=
  isAdmin (fun user =>
    try_catch
      (application <-
         updateStaffApplication id
           {| pa_status := status; pa_adminNotes := adminNotes;
              pa_reviewedBy := Some (p_id user) |} ;;
       answerApplication application "Aplicação não encontrada")
      (json 500 (JMessage "Erro ao atualizar aplicação"))).

Definition isApplicationStatus (status : option string) : bool :=
  match status with
  | Some s => existsb (String.eqb s) ["approved"; "rejected"; "pending"]
  | None => false
  end.

(** The side effect of an approval: the applicant joins the roster. *)
Definition addToRoster (application : StaffApplication) : M unit :=
  existingMember <- forUser (a_userId application) getStaffMemberByUserId ;;
  match existingMember with
  | Some _ => ret tt
  | None =>
      user <- forUser (a_userId application) getUser ;;
      match user with
      | None => ret tt
      | Some u =>
          createStaffMember
            {| im_userId := Some (u_id u);
               im_name := u_username u;
               im_position := a_position application;
               im_role := "moderator";
               im_avatar := truthy (u_avatar u);
               im_bio := Some "Novo membro da equipe";
               im_isActive := true;
               im_displayOrder := 99 |} ;;
          updateUser (u_id u)
            {| pu_username := None; pu_password := None;
               pu_role := Some "moderator" |} ;;
          ret tt
      end
  end.

(** [PATCH /api/admin/applications/:id]. *)
Definition patchApplication (id : Z) (status adminNotes : option string)
  : option Principal -> M Response :=
  isAdmin (fun user =>
    try_catch
      (if negb (isApplicationStatus status)
       then json 400 (JMessage "Status inválido")
       else
         found <- getStaffApplication id ;;
         match found with
         | None => json 404 (JMessage "Candidatura não encontrada")
         | Some application =>
             updatedApplication <-
               updateStaffApplication id
                 {| pa_status := status;
                    pa_adminNotes :=
                      match truthy adminNotes with
                      | Some n => Some n
                      | None => a_adminNotes application
                      end;
                    pa_reviewedBy := Some (p_id user) |} ;;
             (if String.eqb (orElse status "") "approved"
              then addToRoster application
              else ret tt) ;;
             json 200 (JUpdatedApplication updatedApplication)
         end)
      (json 500 (JMessage "Erro ao atualizar candidatura"))).

(** ** Tickets *)

(** [POST /api/user/tickets]. *)
Definition postUserTickets (body : TicketBody)
  : option Principal -> M Response :=
  isAuthenticated (fun user =>
    let ticketData :=
      {| it_userId := p_id user;
         it_subject := b_title body;
         it_message := b_message body;
         it_department := b_category body;
         it_priority := "medium" |} in
    try_catch
      (if insertTicketSchema ticketData
       then
         ticket <- createTicket ticketData ;;
         json 201 (JTicket ticket)
       else throw)
      (json 500 (JMessage "Erro ao criar ticket"))).

(** The test the reply and close handlers make before answering 403:
    the ticket is not the user's and the user is not an admin. *)
Definition accessDenied (ticket : Ticket) (user : Principal) : bool :=
  negb (t_userId ticket =? p_id user)
  && negb (String.eqb (p_role user) "admin").

(** The reply the user route builds from the request. *)
Definition userReplyData (ticketId : Z) (actor : Principal)
  (message : string) : InsertTicketReply :=
  {| ir_ticketId := ticketId;
     ir_userId := p_id actor;
     ir_message := message;
     ir_isStaff := String.eqb (p_role actor) "admin"
                   || String.eqb (p_role actor) "moderator";
     ir_isSystemMessage := false |}.

(** [POST /api/user/tickets/:id/reply]. *)
Definition postUserTicketReply (ticketId : Z) (message : string)
  : option Principal -> M Response :=
  isAuthenticated (fun actor =>
    let userId := p_id actor in
    try_catch
      (found <- getTicket ticketId ;;
       match found with
       | None => json 404 (JMessage "Ticket não encontrado")
       | Some ticket =>
           if accessDenied ticket actor
           then json 403 (JMessage "Acesso negado")
           else
             let replyData := userReplyData ticketId actor message in
             if insertTicketReplySchema replyData
             then
               reply <- createTicketReply replyData ;;
               (if ir_isStaff replyData && String.eqb (t_status ticket) "open"
                then
                  updateTicket ticketId
                    {| pt_status := Some "processing";
                       pt_assignedTo := None |} ;;
                  ret tt
                else ret tt) ;;
               user <- getUser userId ;;
               json 201 (JReply reply user)
             else throw
       end)
      (json 500 (JMessage "Erro ao responder ticket"))).

(** [POST /api/user/tickets/:id/close]. *)
Definition postUserTicketClose (ticketId : Z)
  : option Principal -> M Response :=
  isAuthenticated (fun actor =>
    try_catch
      (found <- getTicket ticketId ;;
       match found with
       | None => json 404 (JMessage "Ticket não encontrado")
       | Some ticket =>
           if accessDenied ticket actor
           then json 403 (JMessage "Acesso negado")
           else
             updatedTicket <- closeTicket ticketId (p_id actor) ;;
             json 200 (JTicket updatedTicket)
       end)
      (json 500 (JMessage "Erro ao fechar ticket"))).

(** [PATCH /api/admin/tickets/:id/assign]. *)
Definition patchAdminTicketAssign (id : Z)
  : option Principal -> M Response :=
  isAdmin (fun actor =>
    let adminId := p_id actor in
    try_catch
      (found <- getTicket id ;;
       match found with
       | None => json 404 (JMessage "Ticket não encontrado")
       | Some _ =>
           updatedTicket <-
             updateTicket id
               {| pt_status := Some "processing";
                  pt_assignedTo := Some adminId |} ;;
           admin <- getUser adminId ;;
           let adminName :=
             match admin with
             | Some a =>
                 if String.eqb (u_username a) "" then "Administrador"
                 else u_username a
             | None => "Administrador"
             end in
           createTicketReply
             {| ir_ticketId := id;
                ir_userId := adminId;
                ir_message :=
                  adminName ++ " assumiu este ticket e está trabalhando nele.";
                ir_isStaff := true;
                ir_isSystemMessage := true |} ;;
           json 200 (JAssigned updatedTicket)
       end)
      (json 500 (JMessage "Erro ao atribuir ticket"))).

(** [!ticket.assignedTo || ticket.assignedTo !== adminId]. *)
Definition notAssignedTo (adminId : Z) (ticket : Ticket) : bool :=
  match t_assignedTo ticket with
  | None => true
  | Some a => (a =? 0) || negb (a =? adminId)
  end.

(** [POST /api/admin/tickets/:id/reply]. *)
Definition postAdminTicketReply (id : Z) (message : string)
  : option Principal -> M Response :=
  isAdmin (fun actor =>
    let adminId := p_id actor in
    try_catch
      (found <- getTicket id ;;
       match found with
       | None => json 404 (JMessage "Ticket não encontrado")
       | Some ticket =>
           (if notAssignedTo adminId ticket
            then
              updateTicket id
                {| pt_status := Some "processing";
                   pt_assignedTo := Some adminId |} ;;
              ret tt
            else ret tt) ;;
           reply <-
             createTicketReply
               {| ir_ticketId := id;
                  ir_userId := adminId;
                  ir_message := message;
                  ir_isStaff := true;
                  ir_isSystemMessage := false |} ;;
           admin <- getUser adminId ;;
           json 201 (JReply reply admin)
       end)
      (json 500 (JMessage "Erro ao responder ticket"))).

(** ** Dispatch

    One constructor per route that writes to the store.  Express runs the
    handlers of a path in the order of their registration, and a handler
    that answers without calling [next] ends the request: of the two
    handlers registered for [POST /api/applications] it is the first
    that answers. *)
Inductive Request : Type :=
| POST_applications (body : ApplicationBody)
| PATCH_admin_applications_notes (id : Z) (notes : option string)
| PATCH_admin_applications_approve (id : Z) (notes : option string)
| PATCH_admin_applications_reject (id : Z) (notes : option string)
| PUT_admin_applications (id : Z) (status adminNotes : option string)
| PATCH_admin_applications (id : Z) (status adminNotes : option string)
| POST_user_tickets (body : TicketBody)
| POST_user_tickets_reply (id : Z) (message : string)
| POST_user_tickets_close (id : Z)
| PATCH_admin_tickets_assign (id : Z)
| POST_admin_tickets_reply (id : Z) (message : string).

Definition handle (request : Request) : option Principal -> M Response :=
  match request with
  | POST_applications body => postApplicationsFirst body
  | PATCH_admin_applications_notes id notes => patchApplicationNotes id notes
  | PATCH_admin_applications_approve id notes =>
      patchApplicationApprove id notes
  | PATCH_admin_applications_reject id notes =>
      patchApplicationReject id notes
  | PUT_admin_applications id s n => putApplication id s n
  | PATCH_admin_applications id s n => patchApplication id s n
  | POST_user_tickets body => postUserTickets body
  | POST_user_tickets_reply id message => postUserTicketReply id message
  | POST_user_tickets_close id => postUserTicketClose id
  | PATCH_admin_tickets_assign id => patchAdminTicketAssign id
  | POST_admin_tickets_reply id message => postAdminTicketReply id message
  end.

End WithSchemas.

(** ** Observations on a store *)

Definition ticketStatus (db : Db) (id : Z) : option string :=
  option_map t_status (byId t_id id (tickets db)).


Definition applicationStatus (db : Db) (id : Z) : option string :=
  option_map a_status (byId a_id id (staffApplications db)).

Definition repliesOf (db : Db) (ticketId : Z) : list TicketReply :=
  filter (fun r => r_ticketId r =? ticketId) (ticketReplies db).

Definition rosterRowsOf (db : Db) (userId : Z) : list StaffMember :=
  filter (fun m => isUser userId (m_userId m)) (staffMembers db).

Definition pendingOf (db : Db) (userId : Z) : list StaffApplication :=
  filter (fun a => isUser userId (a_userId a)
                   && String.eqb (a_status a) "pending")
    (staffApplications db).

Definition roleOf (db : Db) (userId : Z) : option string :=
  option_map u_role (byId u_id userId (users db)).

(** The three statuses of a ticket. *)
Definition isTicketStatus (s : string) : bool :=
  existsb (String.eqb s) ["open"; "processing"; "closed"].

(** The row [createTicketReply] writes, and the store with that row. *)
Definition replyRow (db : Db) (reply : InsertTicketReply) : TicketReply :=
  newTicketReply (insertId r_id (ticketReplies db)) reply.

Definition addReply (db : Db) (reply : InsertTicketReply) : Db :=
  with_ticketReplies (fun rows => (rows ++ [replyRow db reply])%list) db.

(** The requests that write the status of an application. *)
Definition setsApplicationStatus (request : Request) : bool :=
  match request with
  | PATCH_admin_applications_approve _ _
  | PATCH_admin_applications_reject _ _
  | PUT_admin_applications _ _ _
  | PATCH_admin_applications _ _ _ => true
  | _ => false
  end.

Definition isAdminActor (actor : option Principal) : bool :=
  match actor with
  | Some user => String.eqb (p_role user) "admin"
  | None => false
  end.

(** Requests one after the other, each on the store the previous left. *)
Fixpoint runAll (requests : list (M Response)) (db : Db) : Db :=
  match requests with
  | [] => db
  | m :: rest => runAll rest (snd (m db))
  end.

(** [frame R m]: whatever the outcome of [m], the store it leaves is
    related by [R] to the store it started from. *)
Definition frame (R : Db -> Db -> Prop) {A} (m : M A) : Prop :=
  forall db, R db (snd (m db)).

(** The application [id], if it has a status, keeps it. *)
Definition keepsStatus (id : Z) (db db' : Db) : Prop :=
  forall s, applicationStatus db id = Some s ->
            applicationStatus db' id = Some s.

Definition sameApplications (db db' : Db) : Prop :=
  staffApplications db' = staffApplications db.

End Routes.

(* ===================================================================== *)
(** * A portal with a few rows *)
(* ===================================================================== *)

Module Examples.

Import Store Http Auth Routes.
Local Open Scope string_scope.
Local Open Scope Z_scope.

(** A schema that accepts every value. *)
Definition accept {A} (_ : A) : bool := true.

Definition userRow (id : Z) (name role : string) : User :=
  {| u_id := id; u_username := name; u_password := None; u_role := role;
     u_avatar := None; u_lastLogin := None |}.

Definition ticketRow (id owner : Z) (subject status : string)
  (closed : option Z) : Ticket :=
  {| t_id := id; t_userId := owner; t_subject := subject;
     t_message := "..."; t_department := "geral"; t_priority := "medium";
     t_status := status; t_assignedTo := None;
     t_closedAt := closed; t_closedBy := option_map (fun _ => owner) closed;
     t_updatedAt := 0 |}.

Definition applicationRow (id applicant : Z) (status : string)
  (reviewer : option Z) : StaffApplication :=
  {| a_id := id; a_userId := Some applicant; a_position := "Moderator";
     a_experience := "..."; a_reason := "..."; a_status := status;
     a_adminNotes := None; a_reviewedBy := reviewer; a_updatedAt := 0 |}.

Definition ana : Principal := principalOf (userRow 2 "ana" "admin").
Definition sam : Principal := principalOf (userRow 7 "sam" "support").
Definition bob : Principal := principalOf (userRow 42 "bob" "user").
Definition eve : Principal := principalOf (userRow 43 "eve" "user").
Definition lee : Principal := principalOf (userRow 44 "lee" "user").
Definition kai : Principal := principalOf (userRow 45 "kai" "user").

Definition ticket10 : Ticket := ticketRow 10 7 "Conta" "open" None.
Definition ticket11 : Ticket := ticketRow 11 42 "Ban" "closed" (Some 90).
Definition ticket12 : Ticket := ticketRow 12 42 "Bug" "open" None.

Definition application7 : StaffApplication :=
  applicationRow 7 42 "approved" (Some 2).
Definition application8 : StaffApplication :=
  applicationRow 8 43 "pending" None.
Definition application9 : StaffApplication :=
  applicationRow 9 44 "pending" None.

(** Ticket 10 is sam's and open, ticket 11 is bob's and closed, ticket 12
    is bob's and open; application 7, of bob, is approved; application 8,
    of eve, is pending, and eve is on the roster already; application 9,
    of lee, is pending; kai has not applied. *)
Definition portal : Db :=
  {| online := true;
     now := 100;
     users := [userRow 2 "ana" "admin"; userRow 7 "sam" "support";
               userRow 8 "mia" "moderator"; userRow 42 "bob" "user";
               userRow 43 "eve" "user"; userRow 44 "lee" "user";
               userRow 45 "kai" "user"];
     staffApplications := [application7; application8; application9];
     staffMembers :=
       [{| m_id := 1; m_userId := Some 43; m_name := "eve";
           m_position := "Eventos"; m_role := "helper"; m_avatar := None;
           m_bio := None; m_isActive := true; m_displayOrder := 5 |}];
     tickets := [ticket10; ticket11; ticket12];
     ticketReplies := [] |}.

Definition candidacy : ApplicationBody :=
  {| b_position := "Moderator"; b_experience := "..."; b_reason := "..." |}.

End Examples.

(* ===================================================================== *)
(** * Text helpers ([src/lib/constants.ts], [truncateText]) *)
(* ===================================================================== *)

Module Text.

Import Slug.

(** [truncateText], for a whole number [maxLength].  [substring(0, n)]
    takes [n] as 0 when it is negative. *)
Definition truncateText (text : jsstring) (maxLength : Z) : jsstring :=
  if (Z.of_nat (List.length text) <=? maxLength)%Z
  then text
  else firstn (Z.to_nat maxLength) text ++ of_string "...".

End Text.

(* ===================================================================== *)
(** * Answers and sorted queries *)
(* ===================================================================== *)

Module Reply.

Import Store Http.
Local Open Scope string_scope.
Local Open Scope Z_scope.
Local Open Scope portal_scope.

(** What a handler sends: a payload with its status code, or an error
    message with its status code. *)
Inductive Answer (A : Type) : Type :=
| Sent (code : Z) (payload : A)
| Failed (code : Z) (message : string).
Arguments Sent {A} code payload.
Arguments Failed {A} code message.

Definition sent {A} (code : Z) (payload : A) : M (Answer A) :=
  ret (Sent code payload).

Definition failed {A} (code : Z) (message : string) : M (Answer A) :=
  ret (Failed code message).

(** The middleware [isAuthenticated] and [isAdmin] of [registerRoutes],
    before a handler with an answer of its own. *)
Definition loggedIn {A} (next : Principal -> M (Answer A))
  (actor : option Principal) : M (Answer A) :=
  match actor with
  | None => failed 401 "Não autenticado"
  | Some user => next user
  end.

Definition adminOnly {A} (next : Principal -> M (Answer A))
  (actor : option Principal) : M (Answer A) :=
  match actor with
  | None => failed 401 "Não autenticado"
  | Some user =>
      if negb (String.eqb (p_role user) "admin")
      then failed 403 "Acesso negado"
      else next user
  end.

(** [ORDER BY]: the rows in ascending order of [le], rows that compare
    equal in the order of the table. *)
Fixpoint insertBy {A} (le : A -> A -> bool) (x : A) (l : list A) : list A :=
  match l with
  | [] => [x]
  | y :: r => if le x y then x :: l else y :: insertBy le x r
  end.

Definition orderBy {A} (le : A -> A -> bool) (l : list A) : list A :=
  fold_right (insertBy le) [] l.

(** Numbers that never go down along the list. *)
Fixpoint ascending (l : list Z) : bool :=
  match l with
  | [] => true
  | a :: r =>
      match r with
      | [] => true
      | b :: _ => (a <=? b) && ascending r
      end
  end.

End Reply.

(* ===================================================================== *)
(** * Accounts ([setupAuth] and [registerRoutes], [src/server/routes.ts]) *)
(* ===================================================================== *)

Module Account.

Import Store Http Auth Routes Reply.
Local Open Scope string_scope.
Local Open Scope Z_scope.
Local Open Scope portal_scope.

(** The row [POST /api/auth/register] inserts. *)
Definition newUser (id : Z) (at_ : Z) (username hashed : string) : User :=
  {| u_id := id;
     u_username := username;
     u_password := Some hashed;
     u_role := "user";
     u_avatar := None;
     u_lastLogin := Some at_ |}.

Section WithBcryptHash.

(** [hash] of bcrypt: the salted hash this request gets for a password. *)
Variable hash : string -> string.

(** [POST /api/auth/register].  The second component is what [req.login]
    leaves in the session; a user that is not there makes [serializeUser]
    fail. *)
Definition register (credentials : Credentials)
  : M (Answer User * option Z) :=
  try_catch
    (existingUser <-
       select (fun db =>
                 find (fun u => String.eqb (u_username u)
                                  (c_username credentials)) (users db)) ;;
     match existingUser with
     | Some _ => ret (Failed 400 "Usuário já existe", None)
     | None =>
         let hashedPassword := hash (c_password credentials) in
         result <-
           insertRow u_id users with_users
             (fun id at_ =>
                newUser id at_ (c_username credentials) hashedPassword) ;;
         let id := Number (result_insertId result) in
         created <- selectById u_id users id ;;
         match created with
         | Some u => ret (Sent 200 u, Some (u_id u))
         | None => ret (Failed 500 "Erro ao fazer login", None)
         end
     end)
    (ret (Failed 500 "Erro ao registrar usuário", None)).

(** [PATCH /api/auth/profile].  Of the user in the body of the answer,
    the id, the name and the role are kept. *)
Definition patchProfile (username password : option string)
  : option Principal -> M Response :=
  isAuthenticated (fun actor =>
    try_catch
      (updatedUser <-
         updateUser (p_id actor)
           {| pu_username := username;
              pu_password := option_map hash (truthy password);
              pu_role := None |} ;;
       match updatedUser with
       | None => json 404 (JMessage "Usuário não encontrado")
       | Some u => json 200 (JPrincipal (principalOf u))
       end)
      (json 500 (JMessage "Erro ao atualizar perfil"))).

End WithBcryptHash.

(** The principal of the next request of a session. *)
Definition principalOfSession (session : option Z) : M (option Principal) :=
  match session with
  | Some id => deserializeUser id
  | None => ret None
  end.

End Account.

(* ===================================================================== *)
(** * The staff roster ([src/server/routes.ts]) *)
(* ===================================================================== *)

Module Roster.

Import Store Http Routes Reply.
Local Open Scope string_scope.
Local Open Scope Z_scope.
Local Open Scope portal_scope.

(** [Partial<InsertStaffMember>]: [None] is an absent field; for a column
    that may be [NULL], [Some None] writes [NULL]. *)
Record PartialStaffMember := {
  ps_name : option string;
  ps_role : option string;
  ps_position : option string;
  ps_userId : option (option Z);
  ps_avatar : option (option string);
  ps_bio : option (option string);
  ps_displayOrder : option Z;
  ps_isActive : option bool
}.

Definition setStaffMember (data : PartialStaffMember) (m : StaffMember)
  : StaffMember :=
  {| m_id := m_id m;
     m_userId := orElse (ps_userId data) (m_userId m);
     m_name := orElse (ps_name data) (m_name m);
     m_position := orElse (ps_position data) (m_position m);
     m_role := orElse (ps_role data) (m_role m);
     m_avatar := orElse (ps_avatar data) (m_avatar m);
     m_bio := orElse (ps_bio data) (m_bio m);
     m_isActive := orElse (ps_isActive data) (m_isActive m);
     m_displayOrder := orElse (ps_displayOrder data) (m_displayOrder m) |}.

Definition getStaffMember (id : Z) : M (option StaffMember) :=
  select (fun db => byId m_id id (staffMembers db)).

Definition updateStaffMember (id : Z) (data : PartialStaffMember)
  : M (option StaffMember) :=
  execute (with_staffMembers (updateWhere m_id id (setStaffMember data))) ;;
  select (fun db => byId m_id id (staffMembers db)).


Section WithCollation.

(** The order of the column collation on names. *)
Variable nameLe : string -> string -> bool.

(** [asc(displayOrder), asc(name)]. *)
Definition memberLe (a b : StaffMember) : bool :=
  (m_displayOrder a <? m_displayOrder b)
  || ((m_displayOrder a =? m_displayOrder b) && nameLe (m_name a) (m_name b)).

Definition getStaffMembers (activeOnly : bool) : M (list StaffMember) :=
  select (fun db =>
            orderBy memberLe
              (if activeOnly
               then filter (fun m => Bool.eqb (m_isActive m) true)
                      (staffMembers db)
               else staffMembers db)).

(** [GET /api/staff]. *)
Definition getStaff (_ : option Principal) : M (Answer (list StaffMember)) :=
  try_catch
    (staffMembers <- getStaffMembers true ;; sent 200 staffMembers)
    (failed 500 "Erro ao buscar membros da equipe").

(** [GET /api/admin/staff], as registered first. *)
Definition getAdminStaff : option Principal -> M (Answer (list StaffMember)) :=
  adminOnly (fun _ =>
    try_catch
      (staffMembers <- getStaffMembers false ;; sent 200 staffMembers)
      (failed 500 "Erro ao buscar membros da equipe")).

End WithCollation.

(** The body of [POST /api/admin/staff]. *)
Record StaffBody := {
  sb_name : string;
  sb_role : string;
  sb_position : string;
  sb_userId : option Z;
  sb_avatar : option string;
  sb_bio : option string;
  sb_displayOrder : option Z;
  sb_isActive : option bool
}.

(** [x || null] and [x || 999] on a number: 0 is falsy. *)
Definition truthyZ (o : option Z) : option Z :=
  match o with
  | Some z => if z =? 0 then None else Some z
  | None => None
  end.

(** [POST /api/admin/staff]. *)
Definition postAdminStaff (body : StaffBody)
  : option Principal -> M (Answer (option StaffMember)) :=
  adminOnly (fun _ =>
    try_catch
      (staffMember <-
         createStaffMember
           {| im_userId := truthyZ (sb_userId body);
              im_name := sb_name body;
              im_position := sb_position body;
              im_role := sb_role body;
              im_avatar := truthy (sb_avatar body);
              im_bio := truthy (sb_bio body);
              im_isActive := orElse (sb_isActive body) true;
              im_displayOrder := orElse (truthyZ (sb_displayOrder body)) 999 |} ;;
       sent 200 staffMember)
      (failed 500 "Erro ao criar membro da equipe")).

(** [PUT /api/admin/staff/:id]. *)
Definition putAdminStaff (id : Z) (body : PartialStaffMember)
  : option Principal -> M (Answer StaffMember) :=
  adminOnly (fun _ =>
    try_catch
      (staffMember <- updateStaffMember id body ;;
       match staffMember with
       | None => failed 404 "Membro da equipe não encontrado"
       | Some m => sent 200 m
       end)
      (failed 500 "Erro ao atualizar membro da equipe")).


End Roster.

(* ===================================================================== *)
(** * Reading a ticket ([GET /api/user/tickets/:id]) *)
(* ===================================================================== *)

Module Desk.

Import Store Http Routes Reply.
Local Open Scope string_scope.
Local Open Scope Z_scope.
Local Open Scope portal_scope.

(** [GET /api/user/tickets/:id]: the ticket and its thread. *)
Definition getUserTicket (ticketId : Z)
  : option Principal -> M (Answer (Ticket * list TicketReply)) :=
  loggedIn (fun actor =>
    try_catch
      (found <- getTicket ticketId ;;
       match found with
       | None => failed 404 "Ticket não encontrado"
       | Some ticket =>
           if accessDenied ticket actor
           then failed 403 "Acesso negado"
           else
             replies <- getTicketReplies ticketId ;;
             sent 200 (ticket, replies)
       end)
      (failed 500 "Erro ao buscar detalhes do ticket")).

End Desk.

From Stdlib Require DecimalString DecimalZ DecimalPos Permutation.

(* ===================================================================== *)
(** * Settings ([src/server/routes.ts]) *)
(* ===================================================================== *)

Module Settings.

Import Store Http Reply.
Local Open Scope string_scope.
Local Open Scope Z_scope.

Record Setting := {
  s_id : Z;
  s_key : string;
  s_value : string;
  s_category : string
}.

Record InsertSetting := {
  is_key : string;
  is_value : string;
  is_category : string
}.

(** The settings table, with whether the server can be reached. *)
Record Vault := {
  reachable : bool;
  settings : list Setting
}.

Definition with_settings (f : list Setting -> list Setting) (v : Vault)
  : Vault :=
  {| reachable := reachable v; settings := f (settings v) |}.

(** State over the settings table, with exceptions, as [M] is over the
    other tables. *)
Definition V (A : Type) : Type := Vault -> Outcome A * Vault.

Definition vret {A} (a : A) : V A := fun v => (Ok a, v).

Definition vbind {A B} (m : V A) (k : A -> V B) : V B :=
  fun v =>
    match m v with
    | (Ok a, v') => k a v'
    | (Thrown, v') => (Thrown, v')
    end.

Definition vtry {A} (m : V A) (h : V A) : V A :=
  fun v =>
    match m v with
    | (Ok a, v') => (Ok a, v')
    | (Thrown, v') => h v'
    end.

Definition vthrow {A} : V A := fun v => (Thrown, v).

Definition vselect {A} (q : Vault -> A) : V A :=
  fun v => if reachable v then (Ok (q v), v) else (Thrown, v).

Definition vexecute (w : Vault -> Vault) : V unit :=
  fun v => if reachable v then (Ok tt, w v) else (Thrown, v).

Declare Scope vault_scope.
Delimit Scope vault_scope with vault.
Notation "x <- m ;; k" := (vbind m (fun x => k))
  (at level 61, m at next level, right associativity) : vault_scope.
Notation "m ;; k" := (vbind m (fun _ => k))
  (at level 61, right associativity) : vault_scope.
Local Open Scope vault_scope.

Definition hasKey (key : string) (s : Setting) : bool :=
  String.eqb (s_key s) key.

Definition getSetting (key : string) : V (option Setting) :=
  vselect (fun v => find (hasKey key) (settings v)).

Definition getSettingsByCategory (category : string) : V (list Setting) :=
  vselect (fun v =>
             filter (fun s => String.eqb (s_category s) category) (settings v)).

Definition setValue (data : InsertSetting) (s : Setting) : Setting :=
  {| s_id := s_id s; s_key := s_key s;
     s_value := is_value data; s_category := is_category data |}.

Definition newSetting (id : Z) (data : InsertSetting) : Setting :=
  {| s_id := id; s_key := is_key data;
     s_value := is_value data; s_category := is_category data |}.

Definition upsertSetting (data : InsertSetting) : V (option Setting) :=
  existingSettings <-
    vselect (fun v => filter (hasKey (is_key data)) (settings v)) ;;
  if (0 <? List.length existingSettings)%nat
  then
    vexecute
      (with_settings
         (map (fun s => if hasKey (is_key data) s then setValue data s else s))) ;;
    vselect (fun v => find (hasKey (is_key data)) (settings v))
  else
    result <-
      (fun v =>
         let id := insertId s_id (settings v) in
         (vexecute
            (with_settings
               (fun rows => (rows ++ [newSetting id data])%list)) ;;
          vret {| header_insertId := id |}) v) ;;
    match Number (result_insertId result) with
    | Int id => vselect (fun v => byId s_id id (settings v))
    | NaN => vthrow
    end.

Section WithCollation.

(** The order of the column collation on text. *)
Variable textLe : string -> string -> bool.

(** [asc(category), asc(key)]. *)
Definition settingLe (a b : Setting) : bool :=
  if String.eqb (s_category a) (s_category b)
  then textLe (s_key a) (s_key b)
  else textLe (s_category a) (s_category b).

Definition getAllSettings : V (list Setting) :=
  vselect (fun v => orderBy settingLe (settings v)).

(** [GET /api/settings/public]. *)
Definition getPublicSettings (_ : option Principal)
  : V (Answer (list Setting)) :=
  vtry (all <- getAllSettings ;; vret (Sent 200 all))
    (vret (Failed 500 "Erro ao buscar configurações")).

End WithCollation.

(** [PUT /api/admin/settings/:key]. *)
Definition putAdminSetting (key : string) (value category : option string)
  (actor : option Principal) : V (Answer (option Setting)) :=
  match actor with
  | None => vret (Failed 401 "Não autenticado")
  | Some user =>
      if negb (String.eqb (p_role user) "admin")
      then vret (Failed 403 "Acesso negado")
      else
        vtry
          (match truthy value, truthy category with
           | Some v, Some c =>
               setting <-
                 upsertSetting
                   {| is_key := key; is_value := v; is_category := c |} ;;
               vret (Sent 200 setting)
           | _, _ => vret (Failed 400 "Valor e categoria são obrigatórios")
           end)
          (vret (Failed 500 "Erro ao atualizar configuração"))
  end.

(** The key of a user's settings: [appearance_42]. *)
Definition userSettingKey (kind : string) (userId : Z) : string :=
  kind ++ "_" ++ DecimalString.NilZero.string_of_int (Z.to_int userId).

(** The three handlers that save a user's settings differ in the key and
    in the message of a failure.  [text] is what
    [JSON.stringify(req.body)] gives. *)
Definition saveUserSettings (kind failure : string) (text : string)
  (actor : option Principal) : V (Answer string) :=
  match actor with
  | None => vret (Failed 401 "Não autenticado")
  | Some user =>
      vtry
        (upsertSetting
           {| is_key := userSettingKey kind (p_id user);
              is_value := text;
              is_category := "user_settings" |} ;;
         vret (Sent 200 text))
        (vret (Failed 500 failure))
  end.

(** [PATCH /api/user/settings/appearance]. *)
Definition patchAppearance : string -> option Principal -> V (Answer string) :=
  saveUserSettings "appearance"
    "Erro ao atualizar configurações de aparência".

(** [PATCH /api/user/settings/server]. *)
Definition patchServer : string -> option Principal -> V (Answer string) :=
  saveUserSettings "server" "Erro ao atualizar configurações do servidor".

(** [PATCH /api/user/settings/integrations]. *)
Definition patchIntegrations
  : string -> option Principal -> V (Answer string) :=
  saveUserSettings "integrations"
    "Erro ao atualizar configurações de integrações".

End Settings.

(* ===================================================================== *)
(** * The routes of [registerRoutes] ([src/server/routes.ts]) *)
(* ===================================================================== *)

Module Router.

Local Open Scope string_scope.

Inductive Method : Type := GET | POST | PUT | PATCH | DELETE.

Definition method_eqb (a b : Method) : bool :=
  match a, b with
  | GET, GET | POST, POST | PUT, PUT | PATCH, PATCH | DELETE, DELETE => true
  | _, _ => false
  end.

(** A segment of a route path: a literal, or a parameter ([:id]). *)
Inductive Segment : Type :=
| Lit (s : string)
| Param (name : string).

(** A registration [app.METHOD(path, ...)], with the line it stands on. *)
Record Route := {
  r_method : Method;
  r_path : string;
  r_line : nat
}.

(** The segments between the slashes of a path; empty ones are dropped. *)
Fixpoint splitFrom (current : string) (s : string) : list string :=
  match s with
  | EmptyString => if String.eqb current "" then [] else [current]
  | String c r =>
      if Ascii.eqb c "/"
      then (if String.eqb current "" then splitFrom "" r
            else current :: splitFrom "" r)
      else splitFrom (current ++ String c EmptyString) r
  end.

Definition segments (path : string) : list string := splitFrom "" path.

Definition toSegment (s : string) : Segment :=
  match s with
  | String c r => if Ascii.eqb c ":" then Param r else Lit s
  | EmptyString => Lit s
  end.

Definition pattern (r : Route) : list Segment :=
  map toSegment (segments (r_path r)).

(** Express compares literals without regard to case. *)
Definition lowerAscii (c : ascii) : ascii :=
  let n := nat_of_ascii c in
  if (Nat.leb 65 n && Nat.leb n 90)%bool then ascii_of_nat (n + 32) else c.

Fixpoint lowerCase (s : string) : string :=
  match s with
  | EmptyString => EmptyString
  | String c r => String (lowerAscii c) (lowerCase r)
  end.

Definition sameLiteral (a b : string) : bool :=
  String.eqb (lowerCase a) (lowerCase b).

(** Does the pattern match the segments of a request path: a literal
    matches itself, a parameter any segment that is not empty. *)
Fixpoint matches (p : list Segment) (path : list string) : bool :=
  match p, path with
  | [], [] => true
  | Lit a :: p', s :: path' => sameLiteral a s && matches p' path'
  | Param _ :: p', s :: path' => negb (String.eqb s "") && matches p' path'
  | _, _ => false
  end.

Definition hits (m : Method) (path : list string) (r : Route) : bool :=
  method_eqb (r_method r) m && matches (pattern r) path.

(** Express runs the first registration that matches; every handler of
    [registerRoutes] answers without calling [next]. *)
Definition dispatchIn (table : list Route) (m : Method) (path : list string)
  : option Route :=
  find (hits m path) table.

Definition route (m : Method) (path : string) (line : nat) : Route :=
  {| r_method := m; r_path := path; r_line := line |}.

(** The registrations of [registerRoutes], in their order. *)
Definition registerRoutes : list Route :=
  [ route POST "/api/auth/login" 100;
    route GET "/api/auth/discord/url" 117;
    route GET "/api/auth/discord/callback" 126;
    route GET "/api/auth/me" 208;
    route POST "/api/auth/logout" 216;
    route GET "/api/news" 227;
    route GET "/api/news/featured" 252;
    route GET "/api/news/:slug" 275;
    route GET "/api/news/categories" 308;
    route GET "/api/admin/stats" 332;
    route GET "/api/admin/counts" 369;
    route GET "/api/admin/server-stats" 418;
    route GET "/api/admin/applications/recent" 457;
    route POST "/api/admin/news" 480;
    route PUT "/api/admin/news/:id" 501;
    route DELETE "/api/admin/news/:id" 527;
    route POST "/api/admin/categories" 544;
    route PUT "/api/admin/categories/:id" 560;
    route DELETE "/api/admin/categories/:id" 582;
    route POST "/api/applications" 599;
    route GET "/api/applications/my" 618;
    route GET "/api/admin/applications" 633;
    route GET "/api/admin/applications/:id" 663;
    route PATCH "/api/admin/applications/:id/notes" 698;
    route PATCH "/api/admin/applications/:id/approve" 719;
    route PATCH "/api/admin/applications/:id/reject" 743;
    route PUT "/api/admin/applications/:id" 767;
    route GET "/api/settings/public" 790;
    route GET "/api/admin/settings" 800;
    route PUT "/api/admin/settings/:key" 810;
    route GET "/api/server/status" 828;
    route GET "/api/server/stats" 932;
    route GET "/api/staff" 1009;
    route GET "/api/admin/staff" 1021;
    route GET "/api/admin/staff/:id" 1032;
    route POST "/api/admin/staff" 1048;
    route PUT "/api/admin/staff/:id" 1071;
    route DELETE "/api/admin/staff/:id" 1100;
    route GET "/api/guidelines" 1119;
    route GET "/api/guidelines/:id" 1132;
    route GET "/api/guidelines/slug/:slug" 1149;
    route POST "/api/admin/guidelines" 1168;
    route PUT "/api/admin/guidelines/:id" 1184;
    route DELETE "/api/admin/guidelines/:id" 1206;
    route GET "/api/admin/users" 1584;
    route GET "/api/admin/staff" 1595;
    route GET "/api/admin/settings" 1606;
    route GET "/api/admin/media" 1617;
    route POST "/api/admin/media/:id/approve" 1628;
    route DELETE "/api/admin/media/:id" 1645;
    route POST "/api/applications" 1671;
    route GET "/api/applications" 1706;
    route GET "/api/admin/applications" 1717;
    route GET "/api/admin/applications/:id" 1747;
    route PATCH "/api/admin/applications/:id" 1775;
    route GET "/api/user/tickets" 1837;
    route POST "/api/user/tickets" 1849;
    route GET "/api/user/tickets/:id" 1870;
    route POST "/api/user/tickets/:id/reply" 1893;
    route POST "/api/user/tickets/:id/close" 1945;
    route GET "/api/admin/tickets" 1969;
    route GET "/api/admin/tickets/:id" 2003;
    route PATCH "/api/admin/tickets/:id/assign" 2049;
    route POST "/api/admin/tickets/:id/reply" 2084;
    route PATCH "/api/auth/profile" 2133;
    route PATCH "/api/user/settings/appearance" 2167;
    route PATCH "/api/user/settings/server" 2187;
    route PATCH "/api/user/settings/integrations" 2207;
    route GET "/api/user/settings" 2227 ].

Definition dispatch (m : Method) (path : list string) : option Route :=
  dispatchIn registerRoutes m path.

(** Every path the second pattern matches, the first matches too. *)
Fixpoint subsumes (p q : list Segment) : bool :=
  match p, q with
  | [], [] => true
  | Lit a :: p', Lit b :: q' => sameLiteral a b && subsumes p' q'
  | Param _ :: p', Lit b :: q' => negb (String.eqb b "") && subsumes p' q'
  | Param _ :: p', Param _ :: q' => subsumes p' q'
  | _, _ => false
  end.

Definition covers (r e : Route) : bool :=
  method_eqb (r_method e) (r_method r) && subsumes (pattern e) (pattern r).

(** The registrations that no earlier registration covers. *)
Fixpoint uncovered (earlier rest : list Route) : list Route :=
  match rest with
  | [] => []
  | r :: rest' =>
      if existsb (covers r) earlier
      then uncovered (earlier ++ [r]) rest'
      else r :: uncovered (earlier ++ [r]) rest'
  end.

(** A path a pattern matches: its literals, and [x] for each parameter. *)
Definition samplePath (r : Route) : list string :=
  map (fun s => match s with Lit a => a | Param _ => "x" end) (pattern r).

(** The three requests the admin's page of a ticket sends
    ([src/pages/admin/tickets/view.tsx]), for the [id] of its URL. *)
Inductive TicketAction : Type := SendReply | AssignToMe | CloseTicket.

Definition adminTicketRequest (action : TicketAction) (id : string)
  : Method * list string :=
  match action with
  | SendReply => (POST, ["api"; "admin"; "tickets"; id; "reply"])
  | AssignToMe => (PATCH, ["api"; "admin"; "tickets"; id; "assign"])
  | CloseTicket => (PATCH, ["api"; "admin"; "tickets"; id; "close"])
  end.

End Router.

(* ===================================================================== *)
(** * More example data *)
(* ===================================================================== *)

Module Cases.

Import Store Http Auth Routes Examples Settings.
Local Open Scope string_scope.
Local Open Scope Z_scope.

(** A stand-in for bcrypt: the hash of a password is the password after a
    mark, and a password fits the hash it gives. *)
Definition tagged (password : string) : string := "#" ++ password.

Definition sameText (password hashed : string) : bool :=
  String.eqb hashed (tagged password).

(** zoe has a password; the users of [portal] have none. *)
Definition zoe : User :=
  {| u_id := 50; u_username := "zoe"; u_password := Some (tagged "secret");
     u_role := "user"; u_avatar := None; u_lastLogin := None |}.

Definition guild : Db :=
  with_users (fun rows => (rows ++ [zoe])%list) portal.

(** [guild] when the database cannot be reached. *)
Definition offline : Db :=
  {| online := false; now := now guild; users := users guild;
     staffApplications := staffApplications guild;
     staffMembers := staffMembers guild;
     tickets := tickets guild; ticketReplies := ticketReplies guild |}.

(** A database with empty tables. *)
Definition fresh : Db :=
  {| online := true; now := 1; users := []; staffApplications := [];
     staffMembers := []; tickets := []; ticketReplies := [] |}.

Definition vault : Vault :=
  {| reachable := true;
     settings :=
       [{| s_id := 1; s_key := "site_name"; s_value := "Tokyo Edge";
           s_category := "general" |};
        {| s_id := 2; s_key := "appearance_42"; s_value := "{}";
           s_category := "user_settings" |}] |}.

End Cases.

(* ===================================================================== *)
(** * Properties of [slugify] *)
(* ===================================================================== *)

Import Slug.

Section SlugFacts.

Local Open Scope N_scope.

(** ** Facts about [dropWhile] and [dropWhileEnd] *)

Lemma dropWhile_suffix (p : N -> bool) (s : jsstring) :
  exists pre, s = pre ++ dropWhile p s.
Proof.
  induction s as [|c r IH]; simpl.
  - now exists [].
  - destruct (p c).
    + destruct IH as [pre E]. exists (c :: pre). simpl. now f_equal.
    + now exists [].
Qed.

Lemma dropWhileEnd_prefix (p : N -> bool) (s : jsstring) :
  exists post, s = dropWhileEnd p s ++ post.
Proof.
  unfold dropWhileEnd.
  destruct (dropWhile_suffix p (rev s)) as [pre E].
  exists (rev pre).
  rewrite <- rev_app_distr, <- E. symmetry. apply rev_involutive.
Qed.

Lemma dropWhile_hd (p : N -> bool) (d : N) (s : jsstring) :
  p d = false -> p (hd d (dropWhile p s)) = false.
Proof.
  intros Hd. induction s as [|c r IH]; simpl; auto.
  destruct (p c) eqn:E; simpl; auto.
Qed.

Lemma last_rev (d : N) (s : jsstring) : last (rev s) d = hd d s.
Proof.
  destruct s as [|c r]; simpl; auto. apply last_last.
Qed.

Lemma dropWhileEnd_last (p : N -> bool) (d : N) (s : jsstring) :
  p d = false -> p (last (dropWhileEnd p s) d) = false.
Proof.
  intros Hd. unfold dropWhileEnd. rewrite last_rev. now apply dropWhile_hd.
Qed.

Lemma hd_prefix (d : N) (s pre post : jsstring) :
  s = pre ++ post -> pre <> [] -> hd d pre = hd d s.
Proof.
  intros -> Hne. destruct pre; [congruence | reflexivity].
Qed.

Lemma dropWhile_id (p : N -> bool) (d : N) (s : jsstring) :
  p (hd d s) = false -> s <> [] -> dropWhile p s = s.
Proof.
  destruct s as [|c r]; simpl; [congruence|]. now intros ->.
Qed.

Lemma dropWhileEnd_id (p : N -> bool) (d : N) (s : jsstring) :
  p (last s d) = false -> s <> [] -> dropWhileEnd p s = s.
Proof.
  intros Hl Hne. unfold dropWhileEnd.
  rewrite (@dropWhile_id p d).
  - apply rev_involutive.
  - now rewrite <- last_rev, rev_involutive.
  - intros E. apply Hne. rewrite <- (rev_involutive s), E. reflexivity.
Qed.

Lemma forallb_dropWhile (q p : N -> bool) (s : jsstring) :
  forallb q s = true -> forallb q (dropWhile p s) = true.
Proof.
  intros H. destruct (dropWhile_suffix p s) as [pre E].
  rewrite E, forallb_app in H. now apply andb_prop in H.
Qed.

Lemma forallb_dropWhileEnd (q p : N -> bool) (s : jsstring) :
  forallb q s = true -> forallb q (dropWhileEnd p s) = true.
Proof.
  intros H. destruct (dropWhileEnd_prefix p s) as [post E].
  rewrite E, forallb_app in H. now apply andb_prop in H.
Qed.

(** ** Hyphens in a row *)

Lemma single_hyphens_cons (c : N) (r : jsstring) :
  single_hyphens (c :: r)
  = negb (is_hyphen c && is_hyphen (hd 0 r)) && single_hyphens r.
Proof.
  destruct r as [|d r']; simpl; auto.
  now rewrite andb_false_r.
Qed.

Lemma single_hyphens_app (s1 s2 : jsstring) :
  single_hyphens (s1 ++ s2) = true ->
  single_hyphens s1 = true /\ single_hyphens s2 = true.
Proof.
  induction s1 as [|c r IH]; intros H.
  - now split.
  - change ((c :: r) ++ s2) with (c :: (r ++ s2)) in H.
    rewrite single_hyphens_cons in *.
    apply andb_prop in H. destruct H as [H1 H2].
    destruct (IH H2) as [IH1 IH2]. split; auto.
    rewrite IH1, andb_true_r.
    destruct r as [|d r']; simpl in *.
    + now rewrite andb_false_r.
    + exact H1.
Qed.

Lemma single_hyphens_strip (s : jsstring) :
  single_hyphens s = true -> single_hyphens (stripHyphens s) = true.
Proof.
  intros H. unfold stripHyphens.
  destruct (dropWhile_suffix is_hyphen s) as [pre E].
  rewrite E in H. apply single_hyphens_app in H. destruct H as [_ H].
  destruct (dropWhileEnd_prefix is_hyphen (dropWhile is_hyphen s)) as [post E'].
  rewrite E' in H. now apply single_hyphens_app in H.
Qed.

Lemma stripHyphens_ends (s : jsstring) :
  is_hyphen (hd 0 (stripHyphens s)) = false
  /\ is_hyphen (last (stripHyphens s) 0) = false.
Proof.
  split.
  - unfold stripHyphens.
    destruct (dropWhileEnd is_hyphen (dropWhile is_hyphen s)) eqn:E; [reflexivity|].
    destruct (dropWhileEnd_prefix is_hyphen (dropWhile is_hyphen s)) as [post E'].
    rewrite <- E, (@hd_prefix 0 _ _ _ E').
    + now apply dropWhile_hd.
    + now rewrite E.
  - now apply dropWhileEnd_last.
Qed.

(** ** The replacement of separator runs *)

Lemma collapseFrom_single (s : jsstring) : forall b,
  single_hyphens (collapseFrom b s) = true
  /\ (b = true -> is_hyphen (hd 0 (collapseFrom b s)) = false).
Proof.
  induction s as [|c r IH]; intros b; simpl.
  - now split.
  - destruct (is_sep c) eqn:Hs.
    + destruct b.
      * apply IH.
      * destruct (IH true) as [H1 H2]. split; [|discriminate].
        rewrite single_hyphens_cons, H1, (H2 eq_refl), andb_false_r.
        reflexivity.
    + assert (Hh : is_hyphen c = false).
      { unfold is_sep in Hs. now apply orb_false_elim in Hs. }
      destruct (IH false) as [H1 _]. split.
      * now rewrite single_hyphens_cons, Hh, H1.
      * intros _. exact Hh.
Qed.

Lemma slug_char_of_kept (c : N) :
  kept c = true -> is_upper c = false -> is_sep c = false ->
  is_slug_char c = true.
Proof.
  unfold kept, is_sep, is_word, is_slug_char.
  destruct (is_upper c), (is_lower c), (is_digit c), (c =? underscore),
    (is_space c), (is_hyphen c); simpl; congruence.
Qed.

Lemma collapseFrom_chars (s : jsstring) : forall b,
  forallb kept s = true -> lowered s = true ->
  forallb is_slug_char (collapseFrom b s) = true.
Proof.
  unfold lowered.
  induction s as [|c r IH]; intros b Hk Hl; simpl in *; auto.
  apply andb_prop in Hk. destruct Hk as [Hk Hk'].
  apply andb_prop in Hl. destruct Hl as [Hl Hl'].
  apply negb_true_iff in Hl.
  destruct (is_sep c) eqn:Hs.
  - destruct b; simpl; auto.
  - simpl. rewrite (slug_char_of_kept c Hk Hl Hs). simpl. auto.
Qed.

Lemma forallb_filter_self (p : N -> bool) (s : jsstring) :
  forallb p (filter p s) = true.
Proof.
  induction s as [|c r IH]; simpl; auto.
  destruct (p c) eqn:E; simpl; auto. now rewrite E.
Qed.

Lemma forallb_filter (q p : N -> bool) (s : jsstring) :
  forallb q s = true -> forallb q (filter p s) = true.
Proof.
  induction s as [|c r IH]; simpl; auto.
  intros H. apply andb_prop in H. destruct H as [H1 H2].
  destruct (p c); simpl; auto. now rewrite H1, IH.
Qed.

Lemma slugifyLowered_shape (s : jsstring) :
  lowered s = true ->
  forallb is_slug_char (slugifyLowered s) = true
  /\ single_hyphens (slugifyLowered s) = true
  /\ is_hyphen (hd 0 (slugifyLowered s)) = false
  /\ is_hyphen (last (slugifyLowered s) 0) = false.
Proof.
  intros Hl. unfold slugifyLowered.
  split; [|split; [|apply stripHyphens_ends]].
  - unfold stripHyphens.
    apply forallb_dropWhileEnd, forallb_dropWhile.
    apply collapseFrom_chars.
    + apply forallb_filter_self.
    + unfold lowered, removeSpecial, trim.
      now apply forallb_filter, forallb_dropWhileEnd, forallb_dropWhile.
  - apply single_hyphens_strip. apply collapseFrom_single.
Qed.

(** ** Character classes *)

Ltac to_arith :=
  unfold is_alnum, kept, is_sep, is_word, is_slug_char, is_space, is_hyphen,
    is_upper, is_lower, is_digit, hyphen, underscore in *;
  repeat rewrite ?orb_true_iff, ?andb_true_iff, ?orb_false_iff,
    ?andb_false_iff, ?N.leb_le, ?N.eqb_eq, ?N.leb_gt, ?N.eqb_neq in *.

Lemma alnum_not_space (c : N) : is_alnum c = true -> is_space c = false.
Proof. to_arith. lia. Qed.

Lemma alnum_not_hyphen (c : N) : is_alnum c = true -> is_hyphen c = false.
Proof. to_arith. lia. Qed.

Lemma alnum_not_sep (c : N) : is_alnum c = true -> is_sep c = false.
Proof. to_arith. lia. Qed.

Lemma alnum_kept (c : N) : is_alnum c = true -> kept c = true.
Proof. to_arith. lia. Qed.

Lemma sep_kept (c : N) : is_sep c = true -> kept c = true.
Proof. to_arith. lia. Qed.

Lemma special_not_space (c : N) : kept c = false -> is_space c = false.
Proof. to_arith. lia. Qed.

Lemma forallb_impl (p q : N -> bool) (s : jsstring) :
  (forall c, p c = true -> q c = true) ->
  forallb p s = true -> forallb q s = true.
Proof.
  intros Hpq. induction s as [|c r IH]; simpl; auto.
  intros H. apply andb_prop in H. destruct H as [H1 H2].
  now rewrite (Hpq _ H1), IH.
Qed.

Lemma forallb_hd (p : N -> bool) (d : N) (s : jsstring) :
  forallb p s = true -> s <> [] -> p (hd d s) = true.
Proof.
  destruct s as [|c r]; simpl; [congruence|].
  intros H _. now apply andb_prop in H.
Qed.

Lemma forallb_last (p : N -> bool) (d : N) (s : jsstring) :
  forallb p s = true -> s <> [] -> p (last s d) = true.
Proof.
  intros H Hne. rewrite forallb_forall in H. apply H.
  destruct (exists_last Hne) as [pre [c ->]].
  rewrite last_last. apply in_or_app. right. now left.
Qed.

Lemma filter_all (p : N -> bool) (s : jsstring) :
  forallb p s = true -> filter p s = s.
Proof.
  induction s as [|c r IH]; simpl; auto.
  intros H. apply andb_prop in H. destruct H as [H1 H2].
  now rewrite H1, IH.
Qed.

Lemma filter_none (p : N -> bool) (s : jsstring) :
  forallb (fun c => negb (p c)) s = true -> filter p s = [].
Proof.
  induction s as [|c r IH]; simpl; auto.
  intros H. apply andb_prop in H. destruct H as [H1 H2].
  apply negb_true_iff in H1. now rewrite H1, IH.
Qed.

Lemma collapseFrom_alnum (s : jsstring) : forall b,
  forallb is_alnum s = true -> collapseFrom b s = s.
Proof.
  induction s as [|c r IH]; intros b H; simpl in *; auto.
  apply andb_prop in H. destruct H as [H1 H2].
  now rewrite (alnum_not_sep _ H1), IH.
Qed.

Lemma collapseFrom_alnum_app (x s : jsstring) :
  forallb is_alnum x = true ->
  collapseFrom false (x ++ s) = x ++ collapseFrom false s.
Proof.
  induction x as [|c r IH]; simpl; auto.
  intros H. apply andb_prop in H. destruct H as [H1 H2].
  now rewrite (alnum_not_sep _ H1), IH.
Qed.

Lemma collapseFrom_run (r s : jsstring) :
  forallb is_sep r = true ->
  collapseFrom true (r ++ s) = collapseFrom true s.
Proof.
  induction r as [|c r' IH]; simpl; auto.
  intros H. apply andb_prop in H. destruct H as [H1 H2].
  now rewrite H1, IH.
Qed.

Lemma trim_id (s : jsstring) :
  is_space (hd 0 s) = false -> is_space (last s 0) = false -> trim s = s.
Proof.
  intros Hh Hl. destruct s as [|c r]; [reflexivity|].
  unfold trim. rewrite (@dropWhile_id is_space 0) by (auto; discriminate).
  apply (@dropWhileEnd_id is_space 0); auto; discriminate.
Qed.

Lemma stripHyphens_id (s : jsstring) :
  is_hyphen (hd 0 s) = false -> is_hyphen (last s 0) = false ->
  stripHyphens s = s.
Proof.
  intros Hh Hl. destruct s as [|c r]; [reflexivity|].
  unfold stripHyphens. rewrite (@dropWhile_id is_hyphen 0) by (auto; discriminate).
  apply (@dropWhileEnd_id is_hyphen 0); auto; discriminate.
Qed.

Lemma hd_app_nonempty (d : N) (x s : jsstring) :
  x <> [] -> hd d (x ++ s) = hd d x.
Proof. destruct x; [congruence | reflexivity]. Qed.

Lemma last_app_nonempty (d : N) (s y : jsstring) :
  y <> [] -> last (s ++ y) d = last y d.
Proof.
  intros Hne. destruct (exists_last Hne) as [pre [c ->]].
  now rewrite app_assoc, !last_last.
Qed.

(** A run of separators between two words becomes one hyphen. *)
Lemma slugifyLowered_separators (x r y : jsstring) :
  x <> [] -> r <> [] -> y <> [] ->
  forallb is_alnum x = true -> forallb is_sep r = true ->
  forallb is_alnum y = true ->
  slugifyLowered (x ++ r ++ y) = x ++ hyphen :: y.
Proof.
  intros Hx Hr Hy Ax Sr Ay.
  assert (Hne : r ++ y <> []) by (destruct r; [congruence | discriminate]).
  unfold slugifyLowered.
  rewrite trim_id.
  - unfold removeSpecial. rewrite filter_all.
    + unfold collapse. rewrite collapseFrom_alnum_app by assumption.
      destruct r as [|c r']; [congruence|].
      simpl in Sr. apply andb_prop in Sr. destruct Sr as [Sc Sr'].
      simpl. rewrite Sc, collapseFrom_run, collapseFrom_alnum by assumption.
      apply stripHyphens_id.
      * rewrite hd_app_nonempty by assumption.
        apply alnum_not_hyphen. now apply forallb_hd.
      * rewrite (@last_app_nonempty 0 x (hyphen :: y)) by discriminate.
        change (hyphen :: y) with ([hyphen] ++ y).
        rewrite last_app_nonempty by assumption.
        apply alnum_not_hyphen. now apply forallb_last.
    + rewrite !forallb_app.
      rewrite (forallb_impl _ _ _ alnum_kept Ax), (forallb_impl _ _ _ sep_kept Sr),
        (forallb_impl _ _ _ alnum_kept Ay). reflexivity.
  - rewrite hd_app_nonempty by assumption.
    apply alnum_not_space. now apply forallb_hd.
  - rewrite app_assoc, last_app_nonempty by assumption.
    apply alnum_not_space. now apply forallb_last.
Qed.

Lemma stripHyphens_alnum (s : jsstring) :
  forallb is_alnum s = true -> stripHyphens s = s.
Proof.
  intros H. destruct s as [|c r] eqn:E; [reflexivity|]. rewrite <- E in *.
  assert (Hne : s <> []) by (rewrite E; discriminate).
  apply stripHyphens_id; apply alnum_not_hyphen.
  - now apply forallb_hd.
  - now apply forallb_last.
Qed.

Lemma trim_no_space (s : jsstring) :
  forallb (fun c => negb (is_space c)) s = true -> trim s = s.
Proof.
  intros H. destruct s as [|c r] eqn:E; [reflexivity|]. rewrite <- E in *.
  assert (Hne : s <> []) by (rewrite E; discriminate).
  apply trim_id; apply negb_true_iff.
  - now apply (forallb_hd (fun c => negb (is_space c))).
  - now apply (forallb_last (fun c => negb (is_space c))).
Qed.

(** Characters outside [[\w\s-]] are deleted and leave no hyphen. *)
Lemma slugifyLowered_specials (x p y : jsstring) :
  forallb is_alnum x = true ->
  forallb (fun c => negb (kept c)) p = true ->
  forallb is_alnum y = true ->
  slugifyLowered (x ++ p ++ y) = x ++ y.
Proof.
  intros Ax Sp Ay.
  assert (Hsp : forall q, forallb is_alnum q = true ->
                 forallb (fun c => negb (is_space c)) q = true).
  { intros q. apply forallb_impl. intros c H.
    apply negb_true_iff. now apply alnum_not_space. }
  assert (Hns : forallb (fun c => negb (is_space c)) (x ++ p ++ y) = true).
  { rewrite !forallb_app, (Hsp x Ax), (Hsp y Ay), andb_true_r. simpl.
    revert Sp. apply forallb_impl. intros c H.
    apply negb_true_iff, special_not_space. now apply negb_true_iff. }
  assert (Axy : forallb is_alnum (x ++ y) = true)
    by (rewrite forallb_app, Ax, Ay; reflexivity).
  unfold slugifyLowered.
  rewrite (trim_no_space _ Hns).
  unfold removeSpecial. rewrite !filter_app.
  rewrite (filter_all kept x), (filter_none kept p), (filter_all kept y);
    try assumption; try (eapply forallb_impl; [apply alnum_kept | assumption]).
  simpl. unfold collapse. rewrite collapseFrom_alnum by assumption.
  now apply stripHyphens_alnum.
Qed.

(** ** The slug *)

(** The ASCII [toLowerCase] leaves no capital, so the theorem below
    applies to it on every text. *)
Lemma asciiLowerCase_lowered (s : jsstring) :
  lowered (asciiLowerCase s) = true.
Proof.
  unfold lowered, asciiLowerCase.
  induction s as [|c r IH]; simpl; auto.
  rewrite IH, andb_true_r.
  destruct (is_upper c) eqn:E.
  - apply negb_true_iff. to_arith. lia.
  - now rewrite E.
Qed.

(** ** The slug, word by word *)

Lemma sep_not_alnum (c : N) : is_sep c = true -> is_alnum c = false.
Proof.
  intros H. destruct (is_alnum c) eqn:E; [|reflexivity].
  apply alnum_not_sep in E. congruence.
Qed.

Lemma kept_lowered (c : N) :
  is_upper c = false -> kept c = is_alnum c || is_sep c.
Proof.
  intros Hu. unfold kept, is_word, is_sep, is_alnum. rewrite Hu.
  destruct (is_lower c), (is_digit c), (c =? underscore), (is_space c),
    (is_hyphen c); reflexivity.
Qed.

(** Before the first word the separators met do not count. *)
Lemma scanFrom_not_started (s : jsstring) (p q : bool) :
  scanFrom false p s = scanFrom false q s.
Proof.
  revert p q. induction s as [|c r IH]; intros p q; [reflexivity|].
  cbn [scanFrom andb].
  destruct (is_alnum c); [reflexivity|].
  destruct (is_sep c); [reflexivity | apply IH].
Qed.

(** A text without a character of [[a-z0-9]] writes nothing. *)
Lemma scanFrom_no_word (t : jsstring) (st p : bool) :
  forallb (fun c => negb (is_alnum c)) t = true -> scanFrom st p t = [].
Proof.
  revert st p. induction t as [|c r IH]; intros st p H; [reflexivity|].
  cbn [forallb] in H. apply andb_prop in H. destruct H as [Hc Hr].
  apply negb_true_iff in Hc. cbn [scanFrom]. rewrite Hc.
  destruct (is_sep c); now apply IH.
Qed.

Lemma scanFrom_app_no_word (s t : jsstring) (st p : bool) :
  forallb (fun c => negb (is_alnum c)) t = true ->
  scanFrom st p (s ++ t) = scanFrom st p s.
Proof.
  intros Ht. revert st p.
  induction s as [|c r IH]; intros st p.
  - now apply scanFrom_no_word.
  - cbn [app scanFrom]. now rewrite !IH.
Qed.

Lemma dropWhile_split (p : N -> bool) (s : jsstring) :
  exists pre, s = pre ++ dropWhile p s /\ forallb p pre = true.
Proof.
  induction s as [|c r IH]; cbn [dropWhile].
  - now exists [].
  - destruct (p c) eqn:E.
    + destruct IH as (pre & Hs & Hp). exists (c :: pre). split.
      * cbn [app]. now f_equal.
      * cbn [forallb]. now rewrite E.
    + now exists [].
Qed.

Lemma dropWhileEnd_split (p : N -> bool) (s : jsstring) :
  exists post, s = dropWhileEnd p s ++ post /\ forallb p post = true.
Proof.
  unfold dropWhileEnd.
  destruct (dropWhile_split p (rev s)) as (pre & E & Hp).
  exists (rev pre). split.
  - rewrite <- rev_app_distr, <- E. symmetry. apply rev_involutive.
  - rewrite forallb_forall in *. intros c Hc. apply Hp.
    now apply in_rev.
Qed.

(** What [trim] and the last [replace] cut off at either end is made of
    separators, which the scan does not write there. *)
Lemma scanFrom_ends (p : N -> bool) (s : jsstring) :
  (forall c, p c = true -> is_sep c = true) ->
  scanFrom false false (dropWhileEnd p (dropWhile p s))
  = scanFrom false false s.
Proof.
  intros Hp.
  assert (Hno : forall t, forallb p t = true ->
                  forallb (fun c => negb (is_alnum c)) t = true).
  { intros t. apply forallb_impl. intros c Hc.
    apply negb_true_iff, sep_not_alnum. now apply Hp. }
  destruct (dropWhile_split p s) as (pre & Es & Hpre).
  destruct (dropWhileEnd_split p (dropWhile p s)) as (post & Ed & Hpost).
  rewrite Es at 2. rewrite Ed at 2.
  rewrite app_assoc, scanFrom_app_no_word by now apply Hno.
  clear Es Ed. induction pre as [|c r IH]; [reflexivity|].
  cbn [forallb] in Hpre. apply andb_prop in Hpre. destruct Hpre as [Hc Hr].
  cbn [app scanFrom andb].
  rewrite (sep_not_alnum c (Hp c Hc)), (Hp c Hc).
  rewrite (scanFrom_not_started _ true false). now apply IH.
Qed.

(** The first [replace] deletes what the scan passes over. *)
Lemma scanFrom_removeSpecial (s : jsstring) (st p : bool) :
  lowered s = true ->
  scanFrom st p (removeSpecial s) = scanFrom st p s.
Proof.
  unfold lowered, removeSpecial. revert st p.
  induction s as [|c r IH]; intros st p Hl; [reflexivity|].
  cbn [forallb] in Hl. apply andb_prop in Hl. destruct Hl as [Hc Hr].
  apply negb_true_iff in Hc. cbn [filter scanFrom].
  rewrite (kept_lowered c Hc).
  destruct (is_alnum c) eqn:Ea; cbn [orb scanFrom].
  - rewrite Ea. now rewrite !IH.
  - destruct (is_sep c) eqn:Es; cbn [scanFrom].
    + rewrite Ea, Es. now apply IH.
    + now apply IH.
Qed.

(** The second [replace] writes one hyphen for a run of separators, and
    the scan reads a hyphen as a separator. *)
Lemma scanFrom_collapseFrom (s : jsstring) (b st p : bool) :
  scanFrom st (p || b) (collapseFrom b s) = scanFrom st (p || b) s.
Proof.
  revert b st p. induction s as [|c r IH]; intros b st p; [reflexivity|].
  cbn [collapseFrom scanFrom].
  destruct (is_sep c) eqn:Es.
  - rewrite (sep_not_alnum c Es).
    destruct b.
    + rewrite orb_true_r. apply (IH true st true).
    + cbn [scanFrom]. change (is_alnum hyphen) with false.
      change (is_sep hyphen) with true. cbv iota.
      apply (IH true st true).
  - cbn [scanFrom]. rewrite Es.
    destruct (is_alnum c).
    + pose proof (IH false true false) as E. cbn [orb] in E.
      now rewrite E.
    + rewrite <- (orb_false_r (p || b)). apply IH.
Qed.

Lemma scanFrom_slugifyLowered (s : jsstring) :
  lowered s = true ->
  scanFrom false false (slugifyLowered s) = scanFrom false false s.
Proof.
  intros Hl. unfold slugifyLowered, stripHyphens, collapse, trim.
  rewrite scanFrom_ends.
  2:{ intros c Hc. unfold is_sep. rewrite Hc. apply orb_true_r. }
  rewrite (scanFrom_collapseFrom _ false false false).
  rewrite scanFrom_removeSpecial.
  2:{ unfold lowered. now apply forallb_dropWhileEnd, forallb_dropWhile. }
  apply scanFrom_ends.
  intros c Hc. unfold is_sep. now rewrite Hc.
Qed.

(** On a text that has the shape of a slug the scan writes the text. *)
Lemma scanFrom_slug (z : jsstring) :
  forallb is_slug_char z = true ->
  single_hyphens z = true ->
  is_hyphen (last z 0) = false ->
  scanFrom true false z = z
  /\ (is_hyphen (hd 0 z) = false ->
      scanFrom false false z = z
      /\ (z <> [] -> scanFrom true true z = hyphen :: z)).
Proof.
  induction z as [|c r IH]; intros Hc Hs Hl.
  - repeat split. congruence.
  - cbn [forallb] in Hc. apply andb_prop in Hc. destruct Hc as [Hc Hr].
    rewrite single_hyphens_cons in Hs. apply andb_prop in Hs.
    destruct Hs as [Hcd Hs].
    assert (Hl' : is_hyphen (last r 0) = false).
    { destruct r as [|d r']; [reflexivity | exact Hl]. }
    destruct (IH Hr Hs Hl') as (Ha & Hb).
    cbn [scanFrom andb hd].
    destruct (is_alnum c) eqn:Ea.
    + rewrite Ha. repeat split.
    + assert (Hh : is_hyphen c = true).
      { unfold is_slug_char, is_alnum in *.
        destruct (is_lower c), (is_digit c); try discriminate. exact Hc. }
      assert (Hsep : is_sep c = true).
      { unfold is_sep. rewrite Hh. apply orb_true_r. }
      rewrite Hsep. split.
      * rewrite Hh in Hcd. cbn [andb negb] in Hcd.
        apply negb_true_iff in Hcd.
        assert (Hne : r <> []).
        { intros ->. cbn [last] in Hl. congruence. }
        rewrite (proj2 (Hb Hcd) Hne).
        f_equal. symmetry. now apply N.eqb_eq.
      * intros Hx. congruence.
Qed.

Lemma pieces_cons (s : jsstring) : exists w ws, pieces s = w :: ws.
Proof.
  induction s as [|c r (w & ws & E)]; cbn [pieces].
  - now exists [], [].
  - destruct (is_sep c); [now exists [], (pieces r)|].
    rewrite E. now exists (c :: w), ws.
Qed.

Lemma joinHyphen_cons (w : jsstring) (ws : list jsstring) :
  joinHyphen (w :: ws) = w ++ flat_map (fun x => hyphen :: x) ws.
Proof.
  revert w. induction ws as [|y ys IH]; intros w.
  - cbn. now rewrite app_nil_r.
  - change (joinHyphen (w :: y :: ys)) with (w ++ hyphen :: joinHyphen (y :: ys)).
    now rewrite IH.
Qed.

(** The scan writes the words with one hyphen between two. *)
Lemma scanFrom_pieces (s : jsstring) :
  forall w ws,
    pieces (filter (fun c => is_alnum c || is_sep c) s) = w :: ws ->
    scanFrom true false s
    = w ++ flat_map (fun x => hyphen :: x) (filter nonempty ws)
    /\ scanFrom true true s
       = flat_map (fun x => hyphen :: x) (filter nonempty (w :: ws))
    /\ scanFrom false false s = joinHyphen (filter nonempty (w :: ws)).
Proof.
  induction s as [|c r IH]; intros w ws E.
  - cbn in E. inversion E. subst. repeat split.
  - cbn [filter scanFrom andb] in *.
    destruct (is_alnum c) eqn:Ea; cbn [orb] in E.
    + cbn [pieces] in E. rewrite (alnum_not_sep c Ea) in E.
      destruct (pieces_cons (filter (fun c => is_alnum c || is_sep c) r))
        as (w' & ws' & E').
      rewrite E' in E. inversion E. subst w ws.
      destruct (IH w' ws' E') as (H1 & _ & _). rewrite H1.
      cbn [filter nonempty flat_map app]. rewrite joinHyphen_cons.
      repeat split.
    + destruct (is_sep c) eqn:Es.
      * cbn [pieces] in E. rewrite Es in E. inversion E. subst w ws.
        destruct (pieces_cons (filter (fun c => is_alnum c || is_sep c) r))
          as (w' & ws' & E').
        destruct (IH w' ws' E') as (_ & H2 & H3).
        rewrite (scanFrom_not_started r true false), H2, H3, E'.
        repeat split.
      * now apply IH.
Qed.

Lemma scanFrom_words (s : jsstring) :
  scanFrom false false s = slug_of_words s.
Proof.
  unfold slug_of_words, slugWords.
  destruct (pieces_cons (filter (fun c => is_alnum c || is_sep c) s))
    as (w & ws & E).
  rewrite E. now apply scanFrom_pieces.
Qed.

Lemma slugifyLowered_words (s : jsstring) :
  lowered s = true -> slugifyLowered s = slug_of_words s.
Proof.
  intros Hl.
  destruct (slugifyLowered_shape s Hl) as (H1 & H2 & H3 & H4).
  rewrite <- scanFrom_words, <- (scanFrom_slugifyLowered s Hl).
  symmetry. now apply (scanFrom_slug (slugifyLowered s) H1 H2 H4).
Qed.

(** C10, as the code has it: when [toLowerCase] has left no capital, the
    slug holds only characters of [[a-z0-9-]], no two hyphens in a row and
    no hyphen at either end; a run of whitespace, underscores and hyphens
    between two words becomes one hyphen, and a run of any other characters
    outside [[a-z0-9]] (punctuation) is deleted and leaves no hyphen.
    For every text the slug is the words of the lowered text with one
    hyphen between two of them, a word being what stands between two
    characters of [[\s_-]] once every character outside [[a-z0-9]] and
    [[\s_-]] has been deleted. *)
Theorem slugify_shape (toLowerCase : jsstring -> jsstring) (text : jsstring) :
  lowered (toLowerCase text) = true ->
  forallb is_slug_char (slugify toLowerCase text) = true
  /\ single_hyphens (slugify toLowerCase text) = true
  /\ is_hyphen (hd 0 (slugify toLowerCase text)) = false
  /\ is_hyphen (last (slugify toLowerCase text) 0) = false
  /\ slugify toLowerCase text = slug_of_words (toLowerCase text)
  /\ (forall x r y,
        toLowerCase text = x ++ r ++ y ->
        x <> [] -> r <> [] -> y <> [] ->
        forallb is_alnum x = true -> forallb is_sep r = true ->
        forallb is_alnum y = true ->
        slugify toLowerCase text = x ++ hyphen :: y)
  /\ (forall x p y,
        toLowerCase text = x ++ p ++ y ->
        forallb is_alnum x = true ->
        forallb (fun c => negb (kept c)) p = true ->
        forallb is_alnum y = true ->
        slugify toLowerCase text = x ++ y).
Proof.
  intros Hl. unfold slugify.
  destruct (slugifyLowered_shape (toLowerCase text) Hl) as (H1 & H2 & H3 & H4).
  repeat (split; [assumption|]). split; [|split].
  - now apply slugifyLowered_words.
  - intros x r y -> Hx Hr Hy Ax Sr Ay.
    now apply slugifyLowered_separators.
  - intros x p y -> Ax Sp Ay. now apply slugifyLowered_specials.
Qed.

(** The theorem at the title "Hello, World!": the slug is "hello-world". *)
Lemma slugify_shape_witness :
  slugify asciiLowerCase (of_string "Hello, World!") = of_string "hello-world"
  /\ forallb is_slug_char (slugify asciiLowerCase (of_string "Hello, World!"))
     = true
  /\ slugify asciiLowerCase (of_string " --Tokyo_Edge:  RP (2024)! ")
     = slug_of_words (asciiLowerCase (of_string " --Tokyo_Edge:  RP (2024)! "))
  /\ slug_of_words (asciiLowerCase (of_string " --Tokyo_Edge:  RP (2024)! "))
     = of_string "tokyo-edge-rp-2024".
Proof.
  split; [|split; [|split]].
  - reflexivity.
  - exact (proj1 (slugify_shape asciiLowerCase (of_string "Hello, World!")
                    eq_refl)).
  - exact (proj1 (proj2 (proj2 (proj2 (proj2
             (slugify_shape asciiLowerCase
                (of_string " --Tokyo_Edge:  RP (2024)! ") eq_refl)))))).
  - reflexivity.
Defined.

(** Against C10 as stated: the punctuation of "a.b" is not turned into a
    hyphen, as collapsing punctuation runs to hyphens would have it; it is
    deleted. *)
Lemma punctuation_leaves_no_hyphen :
  slugify asciiLowerCase (of_string "a.b") = of_string "ab"
  /\ slugify_spec asciiLowerCase (of_string "a.b") = of_string "a-b"
  /\ slugify asciiLowerCase (of_string "a.b")
     <> slugify_spec asciiLowerCase (of_string "a.b").
Proof. repeat split. discriminate. Qed.

End SlugFacts.

(* ===================================================================== *)
(** * Properties of the store, the login and the handlers *)
(* ===================================================================== *)

Import Store Http Auth Routes Examples.

Section PortalFacts.

Local Open Scope string_scope.
Local Open Scope Z_scope.
Local Open Scope portal_scope.

(** ** Running a handler by hand *)

Ltac store_simpl :=
  cbn [online now users staffApplications staffMembers tickets ticketReplies
         with_users with_tickets with_ticketReplies with_staffApplications
         with_staffMembers fst snd] in *.

Ltac run H :=
  repeat (unfold bind, ret, try_catch, json, throw, select, execute,
            insertRow;
          cbn [selectById Number result_insertId];
          store_simpl; rewrite ?H).

(** ** Rows by key *)

Section Keyed.
Context {R : Type} (key : R -> Z).

Lemma byId_updateWhere (f : R -> R) (i j : Z) (rows : list R) :
  (forall r, key (f r) = key r) ->
  byId key j (updateWhere key i f rows)
  = if j =? i then option_map f (byId key i rows) else byId key j rows.
Proof.
  intros Hk. unfold byId, updateWhere.
  induction rows as [|r rows IH]; simpl.
  - now destruct (j =? i).
  - destruct (key r =? i) eqn:Ei.
    + rewrite Hk. destruct (j =? i) eqn:Eji.
      * apply Z.eqb_eq in Eji. subst j. now rewrite Ei.
      * apply Z.eqb_eq in Ei. rewrite Ei, Z.eqb_sym, Eji. exact IH.
    + destruct (key r =? j) eqn:Ej.
      * destruct (j =? i) eqn:Eji; [|reflexivity].
        apply Z.eqb_eq in Eji. subst j. congruence.
      * exact IH.
Qed.

Lemma byId_app (i : Z) (rows : list R) (r x : R) :
  byId key i rows = Some r -> byId key i (rows ++ [x]) = Some r.
Proof.
  unfold byId. induction rows as [|a rows IH]; simpl; [discriminate|].
  destruct (key a =? i); auto.
Qed.

Lemma insertId_above (rows : list R) (r : R) :
  In r rows -> key r < insertId key rows.
Proof.
  unfold insertId. induction rows as [|a rows IH]; simpl; [tauto|].
  intros [<- | H]; [lia|]. specialize (IH H). lia.
Qed.

(** A query by the key the column gave finds the row just written. *)
Lemma byId_insertId (rows : list R) (row : R) :
  key row = insertId key rows ->
  byId key (insertId key rows) (rows ++ [row]) = Some row.
Proof.
  intros Hk. unfold byId.
  assert (Hlt : forall r, In r rows -> key r <> key row).
  { intros r Hin. pose proof (insertId_above rows r Hin). lia. }
  rewrite <- Hk. clear Hk.
  induction rows as [|a rows IH]; simpl.
  - now rewrite Z.eqb_refl.
  - destruct (key a =? key row) eqn:E.
    + apply Z.eqb_eq in E. exfalso. apply (Hlt a); [now left | exact E].
    + apply IH. intros r Hin. apply Hlt. now right.
Qed.

Lemma byId_key (i : Z) (rows : list R) (r : R) :
  byId key i rows = Some r -> key r = i.
Proof.
  unfold byId. intros H. apply find_some in H. now apply Z.eqb_eq.
Qed.
End Keyed.

Lemma find_none_filter {R} (p : R -> bool) (rows : list R) :
  filter p rows = [] -> find p rows = None.
Proof.
  induction rows as [|r rows IH]; simpl; auto.
  destruct (p r); [discriminate | exact IH].
Qed.

Lemma find_some_filter {R} (p : R -> bool) (rows : list R) :
  filter p rows <> [] -> exists r, find p rows = Some r.
Proof.
  induction rows as [|r rows IH]; simpl; [congruence|].
  destruct (p r); eauto.
Qed.

(** ** The create methods

    Each inserts its row and throws: the key it reads back is [NaN], and
    nothing that follows the read in the method is run. *)

Lemma createStaffApplication_throws (a : InsertStaffApplication) (db : Db) :
  createStaffApplication a db
  = (Thrown,
     if online db
     then with_staffApplications
            (fun rows =>
               (rows ++ [newStaffApplication
                           (insertId a_id (staffApplications db)) (now db) a])
               %list) db
     else db).
Proof.
  unfold createStaffApplication.
  destruct (online db) eqn:Hon; run Hon; reflexivity.
Qed.

Lemma createStaffMember_throws (m : InsertStaffMember) (db : Db) :
  createStaffMember m db
  = (Thrown,
     if online db
     then with_staffMembers
            (fun rows =>
               (rows ++ [newStaffMember (insertId m_id (staffMembers db)) m])
               %list) db
     else db).
Proof.
  unfold createStaffMember.
  destruct (online db) eqn:Hon; run Hon; reflexivity.
Qed.

Lemma createTicket_throws (t : InsertTicket) (db : Db) :
  createTicket t db
  = (Thrown,
     if online db
     then with_tickets
            (fun rows =>
               (rows ++ [newTicket (insertId t_id (tickets db)) (now db) t])
               %list) db
     else db).
Proof.
  unfold createTicket.
  destruct (online db) eqn:Hon; run Hon; reflexivity.
Qed.

Lemma createTicketReply_throws (reply : InsertTicketReply) (db : Db) :
  createTicketReply reply db
  = (Thrown, if online db then addReply db reply else db).
Proof.
  unfold createTicketReply, addReply, replyRow.
  destruct (online db) eqn:Hon; run Hon; reflexivity.
Qed.

(** ** The special login *)

(** C9: with the user name and the password [thuglife], whatever the
    database holds and whether or not it can be reached, the login is
    answered 200 with the principal of id 1 and role [admin], the session
    keeps id 1, the verify callback authenticates the same principal, the
    session's id 1 gives it back on later requests, and the database is
    neither read for it nor written. *)
Theorem special_login_any_database
  (compare : string -> string -> bool) (db : Db) :
  login compare {| c_username := "thuglife"; c_password := "thuglife" |} db
  = (Ok ({| status := 200; body := JPrincipal adminUser |}, Some 1), db)
  /\ localVerify compare "thuglife" "thuglife" db
     = (Ok (Authenticated adminUser), db)
  /\ deserializeUser 1 db = (Ok (Some adminUser), db)
  /\ p_id adminUser = 1
  /\ p_role adminUser = "admin".
Proof. repeat split. Qed.

(** ** Replies *)

Lemma setTicket_id (data : PartialTicket) (at_ : Z) (t : Ticket) :
  t_id (setTicket data at_ t) = t_id t.
Proof. reflexivity. Qed.

Lemma setClosed_id (userId at_ : Z) (t : Ticket) :
  t_id (setClosed userId at_ t) = t_id t.
Proof. reflexivity. Qed.



Lemma isAdmin_admin (next : Principal -> M Response) (actor : Principal) :
  p_role actor = "admin" -> isAdmin next (Some actor) = next actor.
Proof. intros H. unfold isAdmin. now rewrite H. Qed.


Lemma repliesOf_addReply (db : Db) (reply : InsertTicketReply) :
  repliesOf (addReply db reply) (ir_ticketId reply)
  = (repliesOf db (ir_ticketId reply) ++ [replyRow db reply])%list.
Proof.
  unfold repliesOf, addReply, replyRow. store_simpl.
  rewrite filter_app. cbn [filter r_ticketId newTicketReply].
  now rewrite Z.eqb_refl.
Qed.

(** A reply through the user route that passes the access check and the
    schema: the row is inserted, [createTicketReply] throws, and the
    handler answers 500.  Nothing else is written. *)
Lemma user_reply_is_stored
  (schema : InsertTicketReply -> bool)
  (db : Db) (id : Z) (message : string) (actor : Principal) (ticket : Ticket) :
  online db = true ->
  byId t_id id (tickets db) = Some ticket ->
  accessDenied ticket actor = false ->
  schema (userReplyData id actor message) = true ->
  postUserTicketReply schema id message (Some actor) db
  = (Ok {| status := 500; body := JMessage "Erro ao responder ticket" |},
     addReply db (userReplyData id actor message)).
Proof.
  intros Hon Hf Hd Hs.
  unfold postUserTicketReply, isAuthenticated, getTicket.
  run Hon. rewrite Hf, Hd, Hs. run Hon.
  rewrite createTicketReply_throws, Hon. reflexivity.
Qed.





(** ** Applications *)

Lemma setStaffApplication_id (data : PartialStaffApplication) (at_ : Z)
  (a : StaffApplication) :
  a_id (setStaffApplication data at_ a) = a_id a.
Proof. reflexivity. Qed.

Lemma setUser_id (data : PartialUser) (u : User) :
  u_id (setUser data u) = u_id u.
Proof. reflexivity. Qed.

(** [PATCH /api/admin/applications/:id] with status [approved], for an
    applicant who has a user row and no roster row: the status and the
    reviewer are written, the roster row is inserted, and there
    [createStaffMember] throws.  The role is not written, and the answer
    is 500. *)
Lemma approval_stops_after_the_roster_row
  (db : Db) (id : Z) (notes : option string) (admin : Principal)
  (application : StaffApplication) (uid : Z) (u : User) :
  online db = true ->
  p_role admin = "admin" ->
  byId a_id id (staffApplications db) = Some application ->
  a_userId application = Some uid ->
  rosterRowsOf db uid = [] ->
  byId u_id uid (users db) = Some u ->
  exists member db',
    patchApplication id (Some "approved") notes (Some admin) db
    = (Ok {| status := 500;
             body := JMessage "Erro ao atualizar candidatura" |}, db')
    /\ applicationStatus db' id = Some "approved"
    /\ option_map a_reviewedBy (byId a_id id (staffApplications db'))
       = Some (Some (p_id admin))
    /\ staffMembers db' = (staffMembers db ++ [member])%list
    /\ m_userId member = Some uid
    /\ m_role member = "moderator"
    /\ users db' = users db.
Proof.
  intros Hon Hadm Hf Huid Hnone Hu.
  apply find_none_filter in Hnone.
  pose proof (byId_key u_id _ _ _ Hu) as Hk.
  unfold patchApplication. rewrite (isAdmin_admin _ admin Hadm).
  change (negb (isApplicationStatus (Some "approved"))) with false.
  change (String.eqb (orElse (Some "approved") "") "approved") with true.
  cbv iota.
  unfold getStaffApplication, updateStaffApplication, addToRoster, forUser,
    getStaffMemberByUserId, getUser.
  run Hon. rewrite Hf. run Hon.
  rewrite byId_updateWhere by apply setStaffApplication_id.
  rewrite Z.eqb_refl, Hf, Huid. cbn [option_map]. run Hon.
  rewrite Hnone. run Hon. rewrite Hu. run Hon.
  rewrite createStaffMember_throws. store_simpl. rewrite Hon.
  do 2 eexists. split; [reflexivity|].
  unfold applicationStatus. store_simpl.
  rewrite byId_updateWhere by apply setStaffApplication_id.
  rewrite Z.eqb_refl, Hf. cbn [option_map].
  split; [reflexivity|]. split; [reflexivity|]. split; [reflexivity|].
  cbn [m_userId m_role newStaffMember im_userId im_role].
  rewrite Hk. repeat split.
Qed.

(** The approval route the admin page calls,
    [PATCH /api/admin/applications/:id/approve], touches neither the
    roster nor the users. *)
Lemma approve_route_leaves_roster_and_users
  (db : Db) (id : Z) (notes : option string) (actor : option Principal) :
  staffMembers (snd (patchApplicationApprove id notes actor db))
  = staffMembers db
  /\ users (snd (patchApplicationApprove id notes actor db)) = users db.
Proof.
  unfold patchApplicationApprove, isAdmin, updateStaffApplication,
    answerApplication.
  destruct actor as [user|]; [|now split].
  destruct (negb (String.eqb (p_role user) "admin")); [now split|].
  unfold bind, try_catch, select, execute, json, ret.
  destruct (online db) eqn:Hon; store_simpl; rewrite ?Hon; [|now split].
  destruct (byId a_id id _); now split.
Qed.

(** The handler that answers [POST /api/applications] reads no earlier
    application: what the schema accepts is inserted, and answered 500
    because [createStaffApplication] throws after its insert. *)
Lemma application_is_stored
  (schema : InsertStaffApplication -> bool) (body : ApplicationBody)
  (actor : option Principal) (db : Db) :
  online db = true ->
  schema {| ia_userId := option_map p_id actor;
            ia_position := b_position body;
            ia_experience := b_experience body;
            ia_reason := b_reason body;
            ia_status := None;
            ia_adminNotes := None;
            ia_reviewedBy := None |} = true ->
  postApplicationsFirst schema body actor db
  = (Ok {| status := 500; body := JMessage "Erro ao criar aplicação" |},
     with_staffApplications
       (fun rows =>
          (rows ++ [newStaffApplication
                      (insertId a_id (staffApplications db)) (now db)
                      {| ia_userId := option_map p_id actor;
                         ia_position := b_position body;
                         ia_experience := b_experience body;
                         ia_reason := b_reason body;
                         ia_status := None;
                         ia_adminNotes := None;
                         ia_reviewedBy := None |}])%list) db).
Proof.
  intros Hon Hs. unfold postApplicationsFirst. rewrite Hs.
  unfold try_catch, bind. rewrite createStaffApplication_throws, Hon.
  reflexivity.
Qed.

(** ** What a computation leaves as it was *)

Section Frame.
Variable R : Db -> Db -> Prop.
Hypothesis R_refl : forall db, R db db.
Hypothesis R_trans : forall a b c, R a b -> R b c -> R a c.

Lemma frame_ret {A} (a : A) : frame R (ret a).
Proof. intros db. apply R_refl. Qed.

Lemma frame_throw {A} : frame R (@throw A).
Proof. intros db. apply R_refl. Qed.

Lemma frame_json (code : Z) (b : Json) : frame R (json code b).
Proof. intros db. apply R_refl. Qed.

Lemma frame_select {A} (q : Db -> A) : frame R (select q).
Proof. intros db. unfold select. destruct (online db); apply R_refl. Qed.

Lemma frame_execute (w : Db -> Db) :
  (forall db, R db (w db)) -> frame R (execute w).
Proof.
  intros H db. unfold execute. destruct (online db); simpl; auto.
Qed.

Lemma frame_bind {A B} (m : M A) (k : A -> M B) :
  frame R m -> (forall a, frame R (k a)) -> frame R (bind m k).
Proof.
  intros Hm Hk db. unfold bind. specialize (Hm db).
  destruct (m db) as [[a|] db1]; simpl in *; auto.
  eapply R_trans; [exact Hm | apply Hk].
Qed.

Lemma frame_try {A} (m h : M A) :
  frame R m -> frame R h -> frame R (try_catch m h).
Proof.
  intros Hm Hh db. unfold try_catch. specialize (Hm db).
  destruct (m db) as [[a|] db1]; simpl in *; auto.
  eapply R_trans; [exact Hm | apply Hh].
Qed.

(** A computation that first reads the store it runs in. *)
Lemma frame_reading {A} (f : Db -> M A) :
  (forall d, frame R (f d)) -> frame R (fun db => f db db).
Proof. intros H db. apply H. Qed.

Lemma frame_insertRow {T} (key : T -> Z) (table : Db -> list T)
  (put : (list T -> list T) -> Db -> Db) (row : Z -> Z -> T) :
  (forall id at_ db,
     R db (put (fun rows => (rows ++ [row id at_])%list) db)) ->
  frame R (insertRow key table put row).
Proof.
  intros H db. unfold insertRow, bind, execute, ret.
  destruct (online db); simpl; auto.
Qed.

Lemma frame_selectById {T} (key : T -> Z) (table : Db -> list T)
  (id : JsNumber) :
  frame R (selectById key table id).
Proof.
  destruct id; [apply frame_throw | apply frame_select].
Qed.
End Frame.

Ltac frame_step :=
  first
    [ apply frame_ret; assumption
    | apply frame_throw; assumption
    | apply frame_json; assumption
    | apply frame_select; assumption
    | apply frame_selectById; assumption
    | apply frame_try; [assumption | | ]
    | apply frame_bind; [assumption | | intros ?]
    | apply frame_execute; [assumption | intros ?; cbv beta; auto]
    | apply frame_insertRow; [assumption | intros ? ? ?; cbv beta; auto]
    | match goal with
      | |- frame _ (match ?x with _ => _ end) => destruct x
      | |- frame _ (if ?x then _ else _) => destruct x
      end ].

(** Writes to the other tables, for a relation that does not look at them. *)
Section FrameOthers.
Variable R : Db -> Db -> Prop.
Hypothesis R_refl : forall db, R db db.
Hypothesis R_trans : forall a b c, R a b -> R b c -> R a c.
Hypothesis R_users : forall f db, R db (with_users f db).
Hypothesis R_members : forall f db, R db (with_staffMembers f db).
Hypothesis R_tickets : forall f db, R db (with_tickets f db).
Hypothesis R_replies : forall f db, R db (with_ticketReplies f db).

Lemma frame_getUser (id : Z) : frame R (getUser id).
Proof. unfold getUser. repeat frame_step. Qed.

Lemma frame_updateUser (id : Z) (data : PartialUser) :
  frame R (updateUser id data).
Proof. unfold updateUser. repeat frame_step. Qed.

Lemma frame_createStaffMember (member : InsertStaffMember) :
  frame R (createStaffMember member).
Proof. unfold createStaffMember. repeat frame_step. Qed.

Lemma frame_getTicket (id : Z) : frame R (getTicket id).
Proof. unfold getTicket. repeat frame_step. Qed.

Lemma frame_updateTicket (id : Z) (data : PartialTicket) :
  frame R (updateTicket id data).
Proof. unfold updateTicket. repeat frame_step. Qed.

Lemma frame_closeTicket (id userId : Z) : frame R (closeTicket id userId).
Proof. unfold closeTicket. repeat frame_step. Qed.

Lemma frame_createTicket (ticket : InsertTicket) :
  frame R (createTicket ticket).
Proof. unfold createTicket. repeat frame_step. Qed.

Lemma frame_createTicketReply (reply : InsertTicketReply) :
  frame R (createTicketReply reply).
Proof.
  unfold createTicketReply.
  repeat first [ apply frame_getUser | apply frame_getTicket
               | apply frame_updateTicket | frame_step ].
Qed.

Lemma frame_addToRoster (application : StaffApplication) :
  frame R (addToRoster application).
Proof.
  unfold addToRoster, forUser, getStaffMemberByUserId.
  repeat first [ apply frame_getUser | apply frame_updateUser
               | apply frame_createStaffMember | frame_step ].
Qed.

Ltac frame_tickets :=
  repeat first [ apply frame_getUser | apply frame_getTicket
               | apply frame_updateTicket | apply frame_closeTicket
               | apply frame_createTicket | apply frame_createTicketReply
               | frame_step ].

Lemma frame_postUserTickets (schema : InsertTicket -> bool)
  (body : TicketBody) (actor : option Principal) :
  frame R (postUserTickets schema body actor).
Proof. unfold postUserTickets, isAuthenticated. frame_tickets. Qed.

Lemma frame_postUserTicketReply (schema : InsertTicketReply -> bool)
  (id : Z) (message : string) (actor : option Principal) :
  frame R (postUserTicketReply schema id message actor).
Proof. unfold postUserTicketReply, isAuthenticated. frame_tickets. Qed.

Lemma frame_postUserTicketClose (id : Z) (actor : option Principal) :
  frame R (postUserTicketClose id actor).
Proof. unfold postUserTicketClose, isAuthenticated. frame_tickets. Qed.

Lemma frame_patchAdminTicketAssign (id : Z) (actor : option Principal) :
  frame R (patchAdminTicketAssign id actor).
Proof. unfold patchAdminTicketAssign, isAdmin. frame_tickets. Qed.

Lemma frame_postAdminTicketReply (id : Z) (message : string)
  (actor : option Principal) :
  frame R (postAdminTicketReply id message actor).
Proof. unfold postAdminTicketReply, isAdmin. frame_tickets. Qed.
End FrameOthers.

(** ** The status of an application *)

Lemma keepsStatus_refl (id : Z) (db : Db) : keepsStatus id db db.
Proof. intros s H. exact H. Qed.

Lemma keepsStatus_trans (id : Z) (a b c : Db) :
  keepsStatus id a b -> keepsStatus id b c -> keepsStatus id a c.
Proof. intros H1 H2 s H. apply H2, H1, H. Qed.

Lemma keepsStatus_append (id : Z) (row : StaffApplication) (db : Db) :
  keepsStatus id db
    (with_staffApplications (fun rows => (rows ++ [row])%list) db).
Proof.
  intros s. unfold applicationStatus. store_simpl.
  destruct (byId a_id id (staffApplications db)) as [a|] eqn:E; [|discriminate].
  now rewrite (byId_app a_id id _ a row E).
Qed.

Lemma keepsStatus_update (id i at_ : Z) (data : PartialStaffApplication)
  (db : Db) :
  pa_status data = None ->
  keepsStatus id db
    (with_staffApplications
       (updateWhere a_id i (setStaffApplication data at_)) db).
Proof.
  intros Hd s. unfold applicationStatus. store_simpl.
  rewrite byId_updateWhere by apply setStaffApplication_id.
  destruct (id =? i) eqn:E; auto.
  apply Z.eqb_eq in E. subst i.
  destruct (byId a_id id (staffApplications db)) as [a|]; [|discriminate].
  simpl. now rewrite Hd.
Qed.

Lemma frame_createStaffApplication (id : Z) (a : InsertStaffApplication) :
  frame (keepsStatus id) (createStaffApplication a).
Proof.
  unfold createStaffApplication.
  apply frame_bind; [apply keepsStatus_trans | | intros ?].
  - apply frame_insertRow; [apply keepsStatus_refl|].
    intros i at_ db. apply keepsStatus_append.
  - apply frame_selectById, keepsStatus_refl.
Qed.

Lemma frame_updateStaffApplication (id i : Z) (data : PartialStaffApplication) :
  pa_status data = None ->
  frame (keepsStatus id) (updateStaffApplication i data).
Proof.
  intros Hd. unfold updateStaffApplication.
  apply frame_bind; [apply keepsStatus_trans | | intros ?].
  - apply frame_execute; [apply keepsStatus_refl|].
    intros db. now apply keepsStatus_update.
  - apply frame_select, keepsStatus_refl.
Qed.

Lemma frame_isAdmin_refused (R : Db -> Db -> Prop)
  (next : Principal -> M Response) (actor : option Principal) :
  (forall db, R db db) ->
  isAdminActor actor = false -> frame R (isAdmin next actor).
Proof.
  intros Hr H. unfold isAdmin. destruct actor as [user|]; simpl in H.
  - rewrite H. simpl. now apply frame_json.
  - now apply frame_json.
Qed.

Lemma frame_handle (id : Z)
  (s1 : InsertStaffApplication -> bool) (s2 : InsertTicket -> bool)
  (s3 : InsertTicketReply -> bool)
  (request : Request) (actor : option Principal) :
  setsApplicationStatus request = false \/ isAdminActor actor = false ->
  frame (keepsStatus id) (handle s1 s2 s3 request actor).
Proof.
  pose proof (keepsStatus_refl id) as Hr.
  pose proof (keepsStatus_trans id) as Ht.
  intros Hc.
  destruct request; cbn [handle]; cbn [setsApplicationStatus] in Hc;
    try (destruct Hc as [Hc|Hc]; [discriminate|];
         unfold patchApplicationApprove, patchApplicationReject,
           putApplication, patchApplication;
         now apply frame_isAdmin_refused);
    try (first [ apply frame_postUserTickets
               | apply frame_postUserTicketReply
               | apply frame_postUserTicketClose
               | apply frame_patchAdminTicketAssign
               | apply frame_postAdminTicketReply ];
         auto; intros ? ? ? H; exact H).
  - (* POST /api/applications *)
    unfold postApplicationsFirst.
    repeat first [ apply frame_createStaffApplication | frame_step ].
  - (* PATCH .../notes *)
    unfold patchApplicationNotes, isAdmin, answerApplication.
    repeat first [ apply frame_updateStaffApplication; reflexivity
                 | frame_step ].
Qed.

Lemma sameApplications_addToRoster (application : StaffApplication) (db : Db) :
  staffApplications (snd (addToRoster application db)) = staffApplications db.
Proof.
  apply (frame_addToRoster sameApplications); unfold sameApplications;
    try reflexivity.
  intros a b c H1 H2. now rewrite H2.
Qed.

(** C7, as the code has it: the status of an approved or rejected
    application is left as it is by every request that is not a status
    update of an admin (approve, reject, the legacy PUT, PATCH), and by
    every request of an actor who is not an admin; the PATCH of an admin
    sets it to the status asked for, [pending] included, whatever it
    was. *)
Theorem reviewed_application_status
  (s1 : InsertStaffApplication -> bool) (s2 : InsertTicket -> bool)
  (s3 : InsertTicketReply -> bool)
  (db : Db) (id : Z) (s : string) :
  applicationStatus db id = Some s ->
  s = "approved" \/ s = "rejected" ->
  (forall request actor,
     setsApplicationStatus request = false \/ isAdminActor actor = false ->
     applicationStatus (snd (handle s1 s2 s3 request actor db)) id = Some s)
  /\ (forall admin notes s',
        online db = true ->
        p_role admin = "admin" ->
        isApplicationStatus (Some s') = true ->
        applicationStatus
          (snd (patchApplication id (Some s') notes (Some admin) db)) id
        = Some s').
Proof.
  intros Hs _. split.
  - intros request actor Hc.
    now apply (frame_handle id s1 s2 s3 request actor Hc db).
  - intros admin notes s' Hon Hadm Hvalid.
    unfold applicationStatus in Hs.
    destruct (byId a_id id (staffApplications db)) as [a|] eqn:Hf;
      [|discriminate].
    unfold patchApplication. rewrite (isAdmin_admin _ admin Hadm), Hvalid.
    cbn [negb]. unfold getStaffApplication, updateStaffApplication.
    run Hon. rewrite Hf. run Hon.
    match goal with
    | |- context [(if ?c then addToRoster a else _) ?d] =>
        assert (Hsame : staffApplications
                          (snd ((if c then addToRoster a
                                 else fun db0 => (Ok tt, db0)) d))
                        = staffApplications d)
          by (destruct c; [apply sameApplications_addToRoster | reflexivity]);
        destruct ((if c then addToRoster a else fun db0 => (Ok tt, db0)) d)
          as [[[]|] db2]
    end;
      cbn [snd] in *; unfold applicationStatus; rewrite Hsame; store_simpl;
      rewrite byId_updateWhere by apply setStaffApplication_id;
      now rewrite Z.eqb_refl, Hf.
Qed.

(** ** The status of a ticket *)

(** The writes to the tickets that a request reaches: a new ticket, the
    status [processing] with an assignee, and the close.  The write of
    [in_progress] in [createTicketReply] stands after the read that
    throws. *)
Section TicketWrites.
Variable R : Db -> Db -> Prop.
Hypothesis R_refl : forall db, R db db.
Hypothesis R_trans : forall a b c, R a b -> R b c -> R a c.
Hypothesis R_users : forall f db, R db (with_users f db).
Hypothesis R_members : forall f db, R db (with_staffMembers f db).
Hypothesis R_applications : forall f db, R db (with_staffApplications f db).
Hypothesis R_replies : forall f db, R db (with_ticketReplies f db).
Hypothesis R_opened :
  forall id at_ ticket db,
    R db (with_tickets
            (fun rows => (rows ++ [newTicket id at_ ticket])%list) db).
Hypothesis R_processing :
  forall id assignee at_ db,
    R db (with_tickets
            (updateWhere t_id id
               (setTicket {| pt_status := Some "processing";
                             pt_assignedTo := assignee |} at_)) db).
Hypothesis R_closed :
  forall id userId at_ db,
    R db (with_tickets (updateWhere t_id id (setClosed userId at_)) db).

Lemma reached_createTicketReply (reply : InsertTicketReply) :
  frame R (createTicketReply reply).
Proof.
  intros db. rewrite createTicketReply_throws. cbn [snd].
  destruct (online db); [apply R_replies | apply R_refl].
Qed.

Lemma reached_createStaffMember (member : InsertStaffMember) :
  frame R (createStaffMember member).
Proof. unfold createStaffMember. repeat frame_step. Qed.

Lemma reached_addToRoster (application : StaffApplication) :
  frame R (addToRoster application).
Proof.
  unfold addToRoster, forUser, getStaffMemberByUserId, getUser, updateUser.
  repeat first [ apply reached_createStaffMember | frame_step ].
Qed.

Lemma reached_by_handle
  (s1 : InsertStaffApplication -> bool) (s2 : InsertTicket -> bool)
  (s3 : InsertTicketReply -> bool)
  (request : Request) (actor : option Principal) :
  frame R (handle s1 s2 s3 request actor).
Proof.
  destruct request; cbn [handle];
    unfold postApplicationsFirst, patchApplicationNotes,
      patchApplicationApprove, patchApplicationReject, putApplication,
      patchApplication, postUserTickets, postUserTicketReply,
      postUserTicketClose, patchAdminTicketAssign, postAdminTicketReply,
      isAuthenticated, isAdmin, answerApplication, getStaffApplication,
      createStaffApplication, updateStaffApplication, createTicket,
      getTicket, getUser, updateTicket, closeTicket;
    repeat first [ apply reached_createTicketReply
                 | apply reached_addToRoster
                 | frame_step ].
Qed.
End TicketWrites.

Lemma statuses_after_update (id : Z) (f : Ticket -> Ticket)
  (rows : list Ticket) :
  (forall t, isTicketStatus (t_status (f t)) = true) ->
  forallb (fun t => isTicketStatus (t_status t)) rows = true ->
  forallb (fun t => isTicketStatus (t_status t)) (updateWhere t_id id f rows)
  = true.
Proof.
  intros Hf. unfold updateWhere.
  induction rows as [|t rows IH]; [reflexivity|]. cbn [map forallb].
  intros H. apply andb_prop in H. destruct H as [H1 H2].
  apply andb_true_intro. split; [|now apply IH].
  destruct (t_id t =? id); [apply Hf | exact H1].
Qed.

(** One request keeps the three statuses. *)
Lemma statuses_after_handle
  (s1 : InsertStaffApplication -> bool) (s2 : InsertTicket -> bool)
  (s3 : InsertTicketReply -> bool)
  (request : Request) (actor : option Principal) (db : Db) :
  forallb (fun t => isTicketStatus (t_status t)) (tickets db) = true ->
  forallb (fun t => isTicketStatus (t_status t))
    (tickets (snd (handle s1 s2 s3 request actor db))) = true.
Proof.
  apply (reached_by_handle
           (fun db db' =>
              forallb (fun t => isTicketStatus (t_status t)) (tickets db)
              = true ->
              forallb (fun t => isTicketStatus (t_status t)) (tickets db')
              = true)); auto.
  - intros id at_ ticket d H. store_simpl.
    rewrite forallb_app, H. reflexivity.
  - intros id assignee at_ d H. store_simpl.
    now apply statuses_after_update.
  - intros id userId at_ d H. store_simpl.
    now apply statuses_after_update.
Qed.

(** C6: on a store in which every ticket has one of the three statuses,
    every ticket has one of them after any sequence of requests, whoever
    sends them; and [createTicketReply] by itself writes to no ticket:
    its write of [in_progress] stands after the read that throws.  A new
    ticket gets the default of the status column. *)
Theorem ticket_status_is_one_of_three
  (s1 : InsertStaffApplication -> bool) (s2 : InsertTicket -> bool)
  (s3 : InsertTicketReply -> bool)
  (requests : list (Request * option Principal)) (db : Db) :
  forallb (fun t => isTicketStatus (t_status t)) (tickets db) = true ->
  forallb (fun t => isTicketStatus (t_status t))
    (tickets
       (runAll (map (fun r => handle s1 s2 s3 (fst r) (snd r)) requests) db))
  = true
  /\ forall reply, tickets (snd (createTicketReply reply db)) = tickets db.
Proof.
  intros Hall. split.
  - revert db Hall.
    induction requests as [|[request actor] rest IH]; intros db Hall;
      [exact Hall|].
    cbn [map runAll fst snd]. apply IH.
    now apply statuses_after_handle.
  - intros reply. rewrite createTicketReply_throws. cbn [snd].
    now destruct (online db).
Qed.

(** ** The claims on the portal of [Examples] *)



(** Whoever is let through, a reply through the user route leaves every
    ticket as it was: the update to [processing] of the handler and the
    update of [createTicketReply] both stand after the read that
    throws. *)
Lemma user_reply_leaves_the_tickets
  (schema : InsertTicketReply -> bool)
  (id : Z) (message : string) (actor : option Principal) (db : Db) :
  tickets (snd (postUserTicketReply schema id message actor db)) = tickets db.
Proof.
  unfold postUserTicketReply, isAuthenticated, getTicket.
  destruct actor as [user|]; [|reflexivity].
  destruct (online db) eqn:Hon; run Hon; [|reflexivity].
  destruct (byId t_id id (tickets db)) as [ticket|]; [|reflexivity].
  destruct (accessDenied ticket user); [reflexivity|].
  destruct (schema (userReplyData id user message)); run Hon;
    [|reflexivity].
  rewrite createTicketReply_throws, Hon. reflexivity.
Qed.

(** C2 fails on the code: sam has the role [support] and owns the open
    ticket 10, ana is an admin and ticket 12 is open.  The reply of each
    through the user route is stored and answered 500, and the ticket is
    left [open]: no update of the status is reached. *)
Theorem staff_reply_leaves_the_ticket_open :
  ticketStatus portal 10 = Some "open"
  /\ isStaffRole (p_role sam) = true
  /\ postUserTicketReply accept 10 "Alguma novidade" (Some sam) portal
     = (Ok {| status := 500; body := JMessage "Erro ao responder ticket" |},
        addReply portal (userReplyData 10 sam "Alguma novidade"))
  /\ repliesOf (addReply portal (userReplyData 10 sam "Alguma novidade")) 10
     = [{| r_id := 1; r_ticketId := 10; r_userId := 7;
           r_message := "Alguma novidade" |}]
  /\ ticketStatus (addReply portal (userReplyData 10 sam "Alguma novidade"))
       10
     = Some "open"
  /\ ticketStatus portal 12 = Some "open"
  /\ statusOf
       (fst (postUserTicketReply accept 12 "Estamos vendo" (Some ana) portal))
     = Some 500
  /\ ticketStatus
       (snd (postUserTicketReply accept 12 "Estamos vendo" (Some ana) portal))
       12
     = Some "open".
Proof. repeat split. Qed.

(** C3 fails on the code: application 9, of lee, is pending, lee has the
    role [user] and no roster row.  The approval by ana is answered 500;
    it leaves the application approved and one roster row for lee, and
    lee's role is still [user]. *)
Theorem approval_leaves_the_role :
  applicationStatus portal 9 = Some "pending"
  /\ rosterRowsOf portal 44 = []
  /\ roleOf portal 44 = Some "user"
  /\ fst (patchApplication 9 (Some "approved") None (Some ana) portal)
     = Ok {| status := 500;
             body := JMessage "Erro ao atualizar candidatura" |}
  /\ applicationStatus
       (snd (patchApplication 9 (Some "approved") None (Some ana) portal)) 9
     = Some "approved"
  /\ List.length
       (rosterRowsOf
          (snd (patchApplication 9 (Some "approved") None (Some ana) portal))
          44)
     = 1%nat
  /\ roleOf
       (snd (patchApplication 9 (Some "approved") None (Some ana) portal)) 44
     = Some "user".
Proof. repeat split. Qed.

(** An applicant who is on the roster already: the approval is answered
    200 and stands, no roster row is created and the role stays. *)
Lemma approval_of_a_member :
  applicationStatus portal 8 = Some "pending"
  /\ roleOf portal 43 = Some "user"
  /\ statusOf
       (fst (patchApplication 8 (Some "approved") None (Some ana) portal))
     = Some 200
  /\ applicationStatus
       (snd (patchApplication 8 (Some "approved") None (Some ana) portal)) 8
     = Some "approved"
  /\ staffMembers
       (snd (patchApplication 8 (Some "approved") None (Some ana) portal))
     = staffMembers portal
  /\ roleOf
       (snd (patchApplication 8 (Some "approved") None (Some ana) portal)) 43
     = Some "user".
Proof. repeat split. Qed.

(** C4 fails on the code: application 8, of eve, is pending.
    [POST /api/applications] goes to the registration of line 599, which
    makes no check; eve's second application is stored, and the answer
    is 500 and not 400. *)
Theorem second_application_is_stored :
  pendingOf portal 43 = [application8]
  /\ Router.dispatch Router.POST ["api"; "applications"]
     = Some (Router.route Router.POST "/api/applications" 599)
  /\ fst (handle accept accept accept (POST_applications candidacy)
            (Some eve) portal)
     = Ok {| status := 500; body := JMessage "Erro ao criar aplicação" |}
  /\ List.length
       (filter (fun a => isUser 43 (a_userId a))
          (staffApplications
             (snd (handle accept accept accept (POST_applications candidacy)
                     (Some eve) portal))))
     = 2%nat
  /\ List.length
       (pendingOf
          (snd (handle accept accept accept (POST_applications candidacy)
                  (Some eve) portal))
          43)
     = 2%nat.
Proof. repeat split. Qed.



(** The theorem of C6 at three requests: kai opens a ticket, ana, an
    admin, replies to the open ticket 12, and bob closes his ticket 12. *)
Lemma ticket_status_witness :
  forallb (fun t => isTicketStatus (t_status t))
    (tickets
       (runAll
          (map (fun r => handle accept accept accept (fst r) (snd r))
             [(POST_user_tickets
                 {| b_title := "Login"; b_message := "...";
                    b_category := "geral" |}, Some kai);
              (POST_admin_tickets_reply 12 "Estamos vendo", Some ana);
              (POST_user_tickets_close 12, Some bob)])
          portal))
  = true
  /\ ticketStatus
       (snd (handle accept accept accept
               (POST_admin_tickets_reply 12 "Estamos vendo") (Some ana)
               portal)) 12
     = Some "processing".
Proof.
  split.
  - exact (proj1 (ticket_status_is_one_of_three accept accept accept
                    [(POST_user_tickets
                        {| b_title := "Login"; b_message := "...";
                           b_category := "geral" |}, Some kai);
                     (POST_admin_tickets_reply 12 "Estamos vendo", Some ana);
                     (POST_user_tickets_close 12, Some bob)]
                    portal eq_refl)).
  - reflexivity.
Defined.

(** Against C7 as stated: application 7 is approved; the PATCH of an admin
    sets it back to [pending], and the reject route sets it to
    [rejected]. *)
Lemma approved_application_changes_status :
  applicationStatus portal 7 = Some "approved"
  /\ applicationStatus
       (snd (patchApplication 7 (Some "pending") None (Some ana) portal)) 7
     = Some "pending"
  /\ applicationStatus
       (snd (patchApplicationReject 7 None (Some ana) portal)) 7
     = Some "rejected".
Proof. repeat split. Qed.

(** The theorem of C7 at application 7: a note of the admin leaves it
    approved. *)
Lemma reviewed_application_witness :
  applicationStatus
    (snd (handle accept accept accept
            (PATCH_admin_applications_notes 7 (Some "ok")) (Some ana) portal))
    7
  = Some "approved".
Proof.
  exact (proj1 (reviewed_application_status accept accept accept portal 7
                  "approved" eq_refl (or_introl eq_refl))
           (PATCH_admin_applications_notes 7 (Some "ok")) (Some ana)
           (or_introl eq_refl)).
Defined.



End PortalFacts.

(* ===================================================================== *)
(** * More properties of [slugify], and [truncateText] *)
(* ===================================================================== *)

Import Slug Text.

Section SlugMore.

Local Open Scope N_scope.

Ltac to_arith :=
  unfold is_alnum, kept, is_sep, is_word, is_slug_char, is_space, is_hyphen,
    is_upper, is_lower, is_digit, hyphen, underscore in *;
  repeat rewrite ?orb_true_iff, ?andb_true_iff, ?orb_false_iff,
    ?andb_false_iff, ?N.leb_le, ?N.eqb_eq, ?N.leb_gt, ?N.eqb_neq in *.

(** ** What a slug keeps of the text *)

Lemma filter_dropWhile (q p : N -> bool) (s : jsstring) :
  (forall c, p c = true -> q c = false) ->
  filter q (dropWhile p s) = filter q s.
Proof.
  intros H. induction s as [|c r IH]; simpl; auto.
  destruct (p c) eqn:E; [|reflexivity].
  now rewrite (H c E).
Qed.

Lemma filter_rev_N (q : N -> bool) (s : jsstring) :
  filter q (rev s) = rev (filter q s).
Proof.
  induction s as [|c r IH]; simpl; auto.
  rewrite filter_app, IH. simpl. destruct (q c); simpl; auto using app_nil_r.
Qed.

Lemma filter_dropWhileEnd (q p : N -> bool) (s : jsstring) :
  (forall c, p c = true -> q c = false) ->
  filter q (dropWhileEnd p s) = filter q s.
Proof.
  intros H. unfold dropWhileEnd.
  rewrite filter_rev_N, filter_dropWhile, filter_rev_N by assumption.
  apply rev_involutive.
Qed.

Lemma space_not_alnum (c : N) : is_space c = true -> is_alnum c = false.
Proof.
  intros H. destruct (is_alnum c) eqn:E; [|reflexivity].
  now rewrite (alnum_not_space c E) in H.
Qed.

Lemma hyphen_not_alnum (c : N) : is_hyphen c = true -> is_alnum c = false.
Proof.
  intros H. destruct (is_alnum c) eqn:E; [|reflexivity].
  now rewrite (alnum_not_hyphen c E) in H.
Qed.

Lemma filter_alnum_kept (s : jsstring) :
  filter is_alnum (filter kept s) = filter is_alnum s.
Proof.
  induction s as [|c r IH]; simpl; auto.
  destruct (kept c) eqn:Ek; simpl.
  - now rewrite IH.
  - destruct (is_alnum c) eqn:Ea; [|exact IH].
    now rewrite (alnum_kept c Ea) in Ek.
Qed.

Lemma filter_alnum_collapse (s : jsstring) : forall b,
  filter is_alnum (collapseFrom b s) = filter is_alnum s.
Proof.
  induction s as [|c r IH]; intros b; simpl; auto.
  destruct (is_sep c) eqn:Es.
  - rewrite (sep_not_alnum c Es). destruct b; simpl; apply IH.
  - simpl. now rewrite IH.
Qed.

Lemma slugifyLowered_alnum (s : jsstring) :
  filter is_alnum (slugifyLowered s) = filter is_alnum s.
Proof.
  unfold slugifyLowered, stripHyphens, collapse, removeSpecial, trim.
  rewrite filter_dropWhileEnd, filter_dropWhile by apply hyphen_not_alnum.
  rewrite filter_alnum_collapse, filter_alnum_kept.
  now rewrite filter_dropWhileEnd, filter_dropWhile by apply space_not_alnum.
Qed.

Lemma slug_char_cases (c : N) :
  is_slug_char c = true -> is_alnum c = true \/ is_hyphen c = true.
Proof.
  unfold is_slug_char, is_alnum.
  destruct (is_lower c), (is_digit c), (is_hyphen c); simpl; auto.
Qed.

(** A slug with no letter and no digit is empty. *)
Lemma no_alnum_no_slug (s : jsstring) :
  forallb is_slug_char s = true ->
  is_hyphen (hd 0 s) = false ->
  filter is_alnum s = [] -> s = [].
Proof.
  destruct s as [|c r]; simpl; auto.
  intros Hc Hh Hf. apply andb_prop in Hc. destruct Hc as [Hc _].
  destruct (slug_char_cases c Hc) as [Ha | Ha].
  - rewrite Ha in Hf. discriminate.
  - congruence.
Qed.

(** X1: The letters and digits of the slug are those of the lowered text, in
    their order; the slug is empty exactly when the lowered text has
    none. *)
Theorem slugify_keeps_letters_and_digits
  (toLowerCase : jsstring -> jsstring) (text : jsstring) :
  lowered (toLowerCase text) = true ->
  filter is_alnum (slugify toLowerCase text)
  = filter is_alnum (toLowerCase text)
  /\ (slugify toLowerCase text = []
      <-> filter is_alnum (toLowerCase text) = []).
Proof.
  intros Hl. unfold slugify.
  pose proof (slugifyLowered_alnum (toLowerCase text)) as Hk.
  split; [exact Hk|]. split.
  - intros E. now rewrite E in Hk.
  - intros E. rewrite E in Hk.
    destruct (slugifyLowered_shape (toLowerCase text) Hl) as (H1 & _ & H3 & _).
    now apply no_alnum_no_slug.
Qed.

Lemma slugify_keeps_witness :
  slugify asciiLowerCase (of_string "?!") = [].
Proof.
  exact (proj2 (proj2 (slugify_keeps_letters_and_digits asciiLowerCase
                         (of_string "?!") eq_refl)) eq_refl).
Defined.

(** ** Slugs are fixed *)

Lemma slug_char_kept (c : N) : is_slug_char c = true -> kept c = true.
Proof. to_arith. lia. Qed.

Lemma slug_char_not_space (c : N) : is_slug_char c = true -> is_space c = false.
Proof. to_arith. lia. Qed.

Lemma slug_sep_is_hyphen (c : N) :
  is_slug_char c = true -> is_sep c = true -> c = hyphen.
Proof. to_arith. lia. Qed.

Lemma hyphen_is_sep : is_sep hyphen = true.
Proof. reflexivity. Qed.

Lemma collapseFrom_slug (s : jsstring) : forall b,
  forallb is_slug_char s = true ->
  single_hyphens s = true ->
  (b = true -> is_hyphen (hd 0 s) = false) ->
  collapseFrom b s = s.
Proof.
  induction s as [|c r IH]; intros b Hc Hs Hb; [reflexivity|].
  rewrite single_hyphens_cons in Hs.
  apply andb_prop in Hs. destruct Hs as [Hcr Hs].
  simpl in Hc. apply andb_prop in Hc. destruct Hc as [Hc Hr].
  simpl. destruct (is_sep c) eqn:Es.
  - pose proof (slug_sep_is_hyphen c Hc Es) as ->.
    destruct b.
    + specialize (Hb eq_refl). simpl in Hb. discriminate.
    + f_equal. apply IH; auto. intros _.
      change (is_hyphen hyphen) with true in Hcr. simpl in Hcr.
      now apply negb_true_iff in Hcr.
  - f_equal. apply IH; auto. discriminate.
Qed.

Lemma slugifyLowered_fixes_slugs (s : jsstring) :
  forallb is_slug_char s = true ->
  single_hyphens s = true ->
  is_hyphen (hd 0 s) = false ->
  is_hyphen (last s 0) = false ->
  slugifyLowered s = s.
Proof.
  intros Hc Hs Hh Hl. unfold slugifyLowered.
  rewrite trim_no_space.
  - unfold removeSpecial. rewrite filter_all.
    + unfold collapse. rewrite collapseFrom_slug by (auto; discriminate).
      now apply stripHyphens_id.
    + revert Hc. apply forallb_impl, slug_char_kept.
  - revert Hc. apply forallb_impl. intros c H.
    apply negb_true_iff. now apply slug_char_not_space.
Qed.

(** X2: A text that is a slug already, and that [toLowerCase] leaves as it
    is, is its own slug; so the slug of a slug is that slug. *)
Theorem slugify_idempotent
  (toLowerCase : jsstring -> jsstring) (text : jsstring) :
  lowered (toLowerCase text) = true ->
  toLowerCase (slugify toLowerCase text) = slugify toLowerCase text ->
  slugify toLowerCase (slugify toLowerCase text) = slugify toLowerCase text.
Proof.
  intros Hl Hfix.
  destruct (slugifyLowered_shape (toLowerCase text) Hl) as (H1 & H2 & H3 & H4).
  unfold slugify at 1. rewrite Hfix.
  now apply slugifyLowered_fixes_slugs.
Qed.

Lemma slugify_idempotent_witness :
  slugify asciiLowerCase
    (slugify asciiLowerCase (of_string "  Regras -- do _ Servidor!  "))
  = of_string "regras-do-servidor".
Proof.
  rewrite (slugify_idempotent asciiLowerCase
             (of_string "  Regras -- do _ Servidor!  ") eq_refl eq_refl).
  reflexivity.
Defined.

(** ** [truncateText] *)

Local Open Scope Z_scope.

(** X3: A text no longer than [maxLength] is returned as it is.  A longer one
    becomes its first [maxLength] characters (none when [maxLength] is
    negative) and three dots: the result is three characters longer than
    [maxLength], and longer than the text itself when the text is one or
    two characters over the limit. *)
Theorem truncateText_length (text : jsstring) (maxLength : Z) :
  (Z.of_nat (List.length text) <= maxLength ->
   truncateText text maxLength = text)
  /\ (maxLength < Z.of_nat (List.length text) ->
      Z.of_nat (List.length (truncateText text maxLength))
      = Z.max 0 maxLength + 3
      /\ firstn (Z.to_nat maxLength) (truncateText text maxLength)
         = firstn (Z.to_nat maxLength) text)
  /\ Z.of_nat (List.length (truncateText text maxLength))
     <= Z.max (Z.of_nat (List.length text)) (Z.max 0 maxLength + 3).
Proof.
  unfold truncateText.
  destruct (Z.leb_spec (Z.of_nat (List.length text)) maxLength) as [Hle|Hgt].
  - split; [reflexivity|]. split; [lia|]. lia.
  - assert (Hlen : List.length (firstn (Z.to_nat maxLength) text)
                   = Z.to_nat maxLength)
      by (apply firstn_length_le; lia).
    split; [lia|]. split.
    + intros _. split.
      * rewrite length_app, Hlen. simpl. lia.
      * rewrite firstn_app, Hlen, Nat.sub_diag. simpl.
        rewrite app_nil_r, firstn_firstn. now rewrite Nat.min_id.
    + rewrite length_app, Hlen. simpl. lia.
Qed.

Lemma truncateText_witness :
  Z.of_nat (List.length (truncateText (of_string "abcd") 3)) = 6.
Proof.
  exact (proj1 (proj1 (proj2 (truncateText_length (of_string "abcd") 3))
                  eq_refl)).
Defined.

End SlugMore.

(* ===================================================================== *)
(** * Accounts, and what every request keeps *)
(* ===================================================================== *)

Import Store Http Auth Routes Examples Reply Account Roster Desk Cases.

Section AccountFacts.

Local Open Scope string_scope.
Local Open Scope Z_scope.
Local Open Scope portal_scope.

Ltac store_simpl :=
  cbn [online now users staffApplications staffMembers tickets ticketReplies
         with_users with_tickets with_ticketReplies with_staffApplications
         with_staffMembers fst snd] in *.

Ltac run H :=
  repeat (unfold bind, ret, try_catch, json, throw, select, execute,
            insertRow, sent, failed;
          cbn [selectById Number result_insertId];
          store_simpl; rewrite ?H).

(** ** Logging in with a password *)

(** X4: Apart from the special login, the verify callback authenticates only
    the user row of that name, when it has a password hash that [compare]
    accepts, and then writes nothing but the last login of that row; a
    refusal leaves the database as it was. *)
Theorem local_login_sound
  (compare : string -> string -> bool) (db : Db) (username password : string) :
  isSpecialLogin username password = false ->
  (forall p db',
     localVerify compare username password db = (Ok (Authenticated p), db') ->
     exists u h,
       online db = true
       /\ find (fun u => String.eqb (u_username u) username) (users db)
          = Some u
       /\ truthy (u_password u) = Some h
       /\ compare password h = true
       /\ p = principalOf u
       /\ db' = with_users
                  (updateWhere u_id (u_id u) (setLastLogin (now db))) db)
  /\ (forall message db',
        localVerify compare username password db = (Ok (Refused message), db')
        -> db' = db).
Proof.
  intros Hs. unfold localVerify. rewrite Hs.
  unfold try_catch, bind, select, execute, ret.
  destruct (online db) eqn:Hon.
  - destruct (find _ (users db)) as [u|] eqn:Hf.
    + destruct (truthy (u_password u)) as [h|] eqn:Hp.
      * destruct (compare password h) eqn:Hc; store_simpl; rewrite ?Hon.
        -- split.
           ++ intros p db' H. inversion H. subst. exists u, h. auto 10.
           ++ intros message db' H. discriminate.
        -- split; intros ? db' H; inversion H; reflexivity.
      * split; intros ? db' H; inversion H; reflexivity.
    + split; intros ? db' H; inversion H; reflexivity.
  - split; intros ? db' H; inversion H; reflexivity.
Qed.

Lemma local_login_witness :
  exists u h,
    find (fun u => String.eqb (u_username u) "zoe") (users guild) = Some u
    /\ truthy (u_password u) = Some h
    /\ sameText "secret" h = true
    /\ byId u_id (u_id u)
         (users (snd (localVerify sameText "zoe" "secret" guild)))
       = Some (setLastLogin (now guild) u).
Proof.
  destruct (proj1 (local_login_sound sameText guild "zoe" "secret" eq_refl)
              (principalOf zoe)
              (snd (localVerify sameText "zoe" "secret" guild)) eq_refl)
    as (u & h & _ & Hu & Hh & Hc & _ & Hdb).
  exists u, h. repeat (split; [assumption|]).
  rewrite Hdb. inversion Hu. reflexivity.
Defined.

(** X5: When the database cannot be reached, every login but the special one
    is answered 401 and no session is opened: with the message
    [Missing credentials] when the user name or the password is missing
    or empty, and with the message of a connection error otherwise. *)
Theorem login_needs_the_database
  (compare : string -> string -> bool) (db : Db) (credentials : Credentials) :
  online db = false ->
  isSpecialLogin (c_username credentials) (c_password credentials) = false ->
  login compare credentials db
  = (Ok ({| status := 401;
            body := JMessage
                      (if missingCredentials credentials
                       then "Missing credentials"
                       else "Erro de conexão com banco de dados") |}, None),
     db).
Proof.
  intros Hoff Hs. unfold login, localVerify. rewrite Hs.
  destruct (missingCredentials credentials); [reflexivity|].
  unfold try_catch, bind, select. now rewrite Hoff.
Qed.

Lemma login_needs_the_database_witness :
  login sameText {| c_username := "zoe"; c_password := "secret" |} offline
  = (Ok ({| status := 401;
            body := JMessage "Erro de conexão com banco de dados" |}, None),
     offline)
  /\ login sameText {| c_username := "zoe"; c_password := "" |} offline
     = (Ok ({| status := 401; body := JMessage "Missing credentials" |},
            None), offline).
Proof.
  split.
  - exact (login_needs_the_database sameText offline
             {| c_username := "zoe"; c_password := "secret" |}
             eq_refl eq_refl).
  - exact (login_needs_the_database sameText offline
             {| c_username := "zoe"; c_password := "" |}
             eq_refl eq_refl).
Defined.

(** ** Registering *)



(** X7: On a users table without rows, the row a registration leaves has
    the id 1, although the registration is answered 500.  A login with
    the same name and password, when [compare] accepts the password for
    its hash, is answered 200 with that row's principal, of the role
    [user], and keeps the id 1 in the session; and for the session of
    id 1 [deserializeUser] gives the special admin on every later
    request. *)
Theorem first_row_logs_in_as_admin
  (compare : string -> string -> bool) (hash : string -> string)
  (credentials : Credentials) (db : Db) :
  online db = true ->
  users db = [] ->
  isSpecialLogin (c_username credentials) (c_password credentials) = false ->
  missingCredentials credentials = false ->
  hash (c_password credentials) <> "" ->
  compare (c_password credentials) (hash (c_password credentials)) = true ->
  exists db1 db2,
    register hash credentials db
    = (Ok (Failed 500 "Erro ao registrar usuário", None), db1)
    /\ login compare credentials db1
       = (Ok ({| status := 200;
                 body := JPrincipal {| p_id := 1;
                                       p_username := c_username credentials;
                                       p_role := "user" |} |}, Some 1), db2)
    /\ principalOfSession (Some 1) db2 = (Ok (Some adminUser), db2)
    /\ p_role adminUser = "admin".
Proof.
  intros Hon Hnone Hs Hm Hh Hc.
  unfold register. run Hon. rewrite Hnone. cbn [find app]. run Hon.
  do 2 eexists. split; [reflexivity|].
  unfold login, localVerify. rewrite Hs, Hm. run Hon.
  rewrite Hnone. cbn [app find u_username newUser].
  rewrite String.eqb_refl. cbn [u_password newUser truthy].
  apply String.eqb_neq in Hh. rewrite Hh, Hc. run Hon.
  split; [reflexivity|]. split; reflexivity.
Qed.

Lemma first_row_witness :
  exists db1 db2,
    register tagged {| c_username := "zoe"; c_password := "secret" |} fresh
    = (Ok (Failed 500 "Erro ao registrar usuário", None), db1)
    /\ login sameText {| c_username := "zoe"; c_password := "secret" |} db1
       = (Ok ({| status := 200;
                 body := JPrincipal {| p_id := 1; p_username := "zoe";
                                       p_role := "user" |} |}, Some 1), db2)
    /\ principalOfSession (Some 1) db2 = (Ok (Some adminUser), db2).
Proof.
  destruct (first_row_logs_in_as_admin sameText tagged
              {| c_username := "zoe"; c_password := "secret" |} fresh
              eq_refl eq_refl eq_refl eq_refl)
    as (db1 & db2 & Hr & Hl & Hp & _).
  - discriminate.
  - reflexivity.
  - exists db1, db2. auto.
Defined.

(** ** The profile *)

(** X8: [PATCH /api/auth/profile] writes the name and the password of the
    actor's own row at most: it changes no role and no other row, and an
    actor without a row who sends a name is answered 404. *)
Theorem profile_changes_own_name_and_password
  (hash : string -> string) (username password : option string)
  (actor : option Principal) (db : Db) :
  (forall id,
     roleOf (snd (patchProfile hash username password actor db)) id
     = roleOf db id)
  /\ (forall user id,
        actor = Some user -> id <> p_id user ->
        byId u_id id
          (users (snd (patchProfile hash username password actor db)))
        = byId u_id id (users db))
  /\ (forall user name,
        actor = Some user -> username = Some name -> online db = true ->
        byId u_id (p_id user) (users db) = None ->
        fst (patchProfile hash username password actor db)
        = Ok {| status := 404; body := JMessage "Usuário não encontrado" |}).
Proof.
  unfold patchProfile, isAuthenticated, updateUser.
  destruct actor as [user|].
  - destruct (noValues _) eqn:Hnv.
    { split; [|split]; try reflexivity.
      intros user' name _ Hname _ _. subst username.
      cbn in Hnv. discriminate Hnv. }
    destruct (online db) eqn:Hon.
    + run Hon. rewrite byId_updateWhere by apply setUser_id.
      rewrite Z.eqb_refl. split; [|split].
      * intros id.
        destruct (byId u_id (p_id user) (users db)) as [u|] eqn:Hu;
          cbn [option_map]; unfold roleOf; store_simpl;
          rewrite byId_updateWhere by apply setUser_id;
          destruct (id =? p_id user) eqn:E; try reflexivity;
          apply Z.eqb_eq in E; subst id; now rewrite Hu.
      * intros user' id Hu' Hid. inversion Hu'. subst user'.
        destruct (byId u_id (p_id user) (users db)) as [u|];
          cbn [option_map]; store_simpl;
          rewrite byId_updateWhere by apply setUser_id;
          apply Z.eqb_neq in Hid; now rewrite Hid.
      * intros user' name Hu' _ _ Hnone. inversion Hu'. subst user'.
        now rewrite Hnone.
    + run Hon. split; [|split]; try reflexivity.
      intros user' name Hu' _ Hon'. discriminate.
  - split; [|split]; try reflexivity; intros; discriminate.
Qed.

Lemma profile_witness :
  roleOf (snd (patchProfile tagged (Some "bobby") (Some "pw") (Some bob)
                 portal)) 42
  = Some "user"
  /\ fst (patchProfile tagged (Some "root") None (Some adminUser) portal)
     = Ok {| status := 404; body := JMessage "Usuário não encontrado" |}.
Proof.
  split.
  - exact (proj1 (profile_changes_own_name_and_password tagged
                    (Some "bobby") (Some "pw") (Some bob) portal) 42).
  - exact (proj2 (proj2 (profile_changes_own_name_and_password tagged
                           (Some "root") None (Some adminUser) portal))
             adminUser "root" eq_refl eq_refl eq_refl eq_refl).
Defined.

(** ** What the workflow requests keep

    A relation that holds across each write the storage methods make
    holds across every request of [handle]. *)

Section Invariant.

Variable R : Db -> Db -> Prop.
Hypothesis R_refl : forall db, R db db.
Hypothesis R_trans : forall a b c, R a b -> R b c -> R a c.
Hypothesis W_role :
  forall id db,
    R db (with_users
            (updateWhere u_id id
               (setUser {| pu_username := None; pu_password := None;
                           pu_role := Some "moderator" |})) db).
Hypothesis W_member_added :
  forall row db,
    R db (with_staffMembers (fun rows => (rows ++ [row])%list) db).
Hypothesis W_application_added :
  forall row db,
    R db (with_staffApplications (fun rows => (rows ++ [row])%list) db).
Hypothesis W_application_set :
  forall id data at_ db,
    R db (with_staffApplications
            (updateWhere a_id id (setStaffApplication data at_)) db).
Hypothesis W_ticket_added :
  forall row db, R db (with_tickets (fun rows => (rows ++ [row])%list) db).
Hypothesis W_ticket_set :
  forall id data at_ db,
    R db (with_tickets (updateWhere t_id id (setTicket data at_)) db).
Hypothesis W_ticket_closed :
  forall id userId at_ db,
    R db (with_tickets (updateWhere t_id id (setClosed userId at_)) db).
Hypothesis W_reply_added :
  forall row db,
    R db (with_ticketReplies (fun rows => (rows ++ [row])%list) db).

Ltac step :=
  first
    [ apply frame_ret; assumption
    | apply frame_throw; assumption
    | apply frame_json; assumption
    | apply frame_select; assumption
    | apply frame_selectById; assumption
    | apply frame_try; [assumption | | ]
    | apply frame_bind; [assumption | | intros ?]
    | apply frame_execute; [assumption | intros ?; cbv beta; auto]
    | apply frame_insertRow; [assumption | intros ? ? ?; cbv beta; auto]
    | match goal with
      | |- frame _ (match ?x with _ => _ end) => destruct x
      | |- frame _ (fun db => _) => apply frame_reading; intros ?
      end ].

Lemma keeps_getUser (id : Z) : frame R (getUser id).
Proof. unfold getUser. repeat step. Qed.

Lemma keeps_updateUser_role (id : Z) :
  frame R (updateUser id {| pu_username := None; pu_password := None;
                            pu_role := Some "moderator" |}).
Proof.
  unfold updateUser. cbn [noValues pu_username pu_password pu_role].
  repeat step.
Qed.

Lemma keeps_createStaffMember (member : InsertStaffMember) :
  frame R (createStaffMember member).
Proof. unfold createStaffMember. repeat step. Qed.

Lemma keeps_createStaffApplication (a : InsertStaffApplication) :
  frame R (createStaffApplication a).
Proof. unfold createStaffApplication. repeat step. Qed.

Lemma keeps_updateStaffApplication (id : Z) (data : PartialStaffApplication) :
  frame R (updateStaffApplication id data).
Proof. unfold updateStaffApplication. repeat step. Qed.

Lemma keeps_getTicket (id : Z) : frame R (getTicket id).
Proof. unfold getTicket. repeat step. Qed.

Lemma keeps_updateTicket (id : Z) (data : PartialTicket) :
  frame R (updateTicket id data).
Proof. unfold updateTicket. repeat step. Qed.

Lemma keeps_closeTicket (id userId : Z) : frame R (closeTicket id userId).
Proof. unfold closeTicket. repeat step. Qed.

Lemma keeps_createTicket (ticket : InsertTicket) :
  frame R (createTicket ticket).
Proof. unfold createTicket. repeat step. Qed.

Lemma keeps_createTicketReply (reply : InsertTicketReply) :
  frame R (createTicketReply reply).
Proof.
  unfold createTicketReply.
  repeat first [ apply keeps_getUser | apply keeps_getTicket
               | apply keeps_updateTicket | step ].
Qed.

Lemma keeps_addToRoster (application : StaffApplication) :
  frame R (addToRoster application).
Proof.
  unfold addToRoster, forUser, getStaffMemberByUserId.
  repeat first [ apply keeps_getUser | apply keeps_updateUser_role
               | apply keeps_createStaffMember | step ].
Qed.

Ltac steps :=
  repeat first
    [ apply keeps_getUser | apply keeps_getTicket | apply keeps_updateTicket
    | apply keeps_closeTicket | apply keeps_createTicket
    | apply keeps_createTicketReply | apply keeps_addToRoster
    | apply keeps_createStaffApplication
    | apply keeps_updateStaffApplication | step ].

(** The rule: the relation holds across every request. *)
Lemma handle_keeps
  (s1 : InsertStaffApplication -> bool) (s2 : InsertTicket -> bool)
  (s3 : InsertTicketReply -> bool)
  (request : Request) (actor : option Principal) :
  frame R (handle s1 s2 s3 request actor).
Proof.
  destruct request; cbn [handle];
    unfold postApplicationsFirst, patchApplicationNotes,
      patchApplicationApprove, patchApplicationReject, putApplication,
      patchApplication, postUserTickets, postUserTicketReply,
      postUserTicketClose, patchAdminTicketAssign, postAdminTicketReply,
      isAuthenticated, isAdmin, answerApplication, getStaffApplication;
    steps.
Qed.

End Invariant.

(** X9: The thread of replies is only ever appended to: whatever the request
    of the workflow and whoever sends it, the replies stored before are
    still there after it, unchanged and in their order. *)
Theorem replies_are_append_only
  (s1 : InsertStaffApplication -> bool) (s2 : InsertTicket -> bool)
  (s3 : InsertTicketReply -> bool)
  (request : Request) (actor : option Principal) (db : Db) :
  exists added,
    ticketReplies (snd (handle s1 s2 s3 request actor db))
    = (ticketReplies db ++ added)%list.
Proof.
  apply (handle_keeps
           (fun db db' =>
              exists added,
                ticketReplies db' = (ticketReplies db ++ added)%list)).
  - intros d. exists []. now rewrite app_nil_r.
  - intros a b c [x Hx] [y Hy]. exists (x ++ y)%list.
    now rewrite Hy, Hx, app_assoc.
  - intros. exists []. store_simpl. now rewrite app_nil_r.
  - intros. exists []. store_simpl. now rewrite app_nil_r.
  - intros. exists []. store_simpl. now rewrite app_nil_r.
  - intros. exists []. store_simpl. now rewrite app_nil_r.
  - intros. exists []. store_simpl. now rewrite app_nil_r.
  - intros. exists []. store_simpl. now rewrite app_nil_r.
  - intros. exists []. store_simpl. now rewrite app_nil_r.
  - intros row d. exists [row]. reflexivity.
Qed.

(** X10: No request of the workflow deletes a ticket or hands it to another
    owner: a ticket found before is found after, with the same owner,
    subject and message. *)
Theorem tickets_stay_with_their_owner
  (s1 : InsertStaffApplication -> bool) (s2 : InsertTicket -> bool)
  (s3 : InsertTicketReply -> bool)
  (request : Request) (actor : option Principal) (db : Db)
  (id : Z) (t : Ticket) :
  byId t_id id (tickets db) = Some t ->
  exists t',
    byId t_id id (tickets (snd (handle s1 s2 s3 request actor db))) = Some t'
    /\ t_userId t' = t_userId t
    /\ t_subject t' = t_subject t
    /\ t_message t' = t_message t.
Proof.
  revert t.
  apply (handle_keeps
           (fun db db' =>
              forall t, byId t_id id (tickets db) = Some t ->
              exists t', byId t_id id (tickets db') = Some t'
                         /\ t_userId t' = t_userId t
                         /\ t_subject t' = t_subject t
                         /\ t_message t' = t_message t)).
  - intros d t H. exists t. auto.
  - intros a b c Hab Hbc t H.
    destruct (Hab t H) as (t1 & H1 & E1 & E2 & E3).
    destruct (Hbc t1 H1) as (t2 & H2 & F1 & F2 & F3).
    exists t2. repeat split; congruence.
  - intros i d t H. exists t. auto.
  - intros row d t H. exists t. auto.
  - intros row d t H. exists t. auto.
  - intros i data a d t H. exists t. auto.
  - intros row d t H. exists t. store_simpl.
    rewrite (byId_app t_id id _ t row H). auto.
  - intros i data a d t H. store_simpl.
    rewrite byId_updateWhere by apply setTicket_id.
    destruct (id =? i) eqn:E.
    + apply Z.eqb_eq in E. subst i. rewrite H. eexists. split; [reflexivity|].
      auto.
    + exists t. auto.
  - intros i u a d t H. store_simpl.
    rewrite byId_updateWhere by apply setClosed_id.
    destruct (id =? i) eqn:E.
    + apply Z.eqb_eq in E. subst i. rewrite H. eexists. split; [reflexivity|].
      auto.
    + exists t. auto.
  - intros row d t H. exists t. auto.
Qed.

Lemma tickets_stay_witness :
  exists t',
    byId t_id 11
      (tickets (snd (handle accept accept accept
                       (PATCH_admin_tickets_assign 11) (Some ana) portal)))
    = Some t'
    /\ t_userId t' = 42.
Proof.
  destruct (tickets_stay_with_their_owner accept accept accept
              (PATCH_admin_tickets_assign 11) (Some ana) portal 11 ticket11
              eq_refl) as (t' & H & E & _).
  exists t'. split; [exact H | exact E].
Defined.

(** X11: No request of the workflow makes an admin: a user whose role is
    [admin] after a request had it before. *)
Theorem no_request_grants_admin
  (s1 : InsertStaffApplication -> bool) (s2 : InsertTicket -> bool)
  (s3 : InsertTicketReply -> bool)
  (request : Request) (actor : option Principal) (db : Db) (id : Z) :
  roleOf (snd (handle s1 s2 s3 request actor db)) id = Some "admin" ->
  roleOf db id = Some "admin".
Proof.
  apply (handle_keeps
           (fun db db' =>
              roleOf db' id = Some "admin" -> roleOf db id = Some "admin"));
    auto.
  intros i d. unfold roleOf. store_simpl.
  rewrite byId_updateWhere by apply setUser_id.
  destruct (id =? i) eqn:E; auto.
  apply Z.eqb_eq in E. subst i.
  destruct (byId u_id id (users d)) as [u|]; simpl; discriminate.
Qed.

Lemma no_request_grants_admin_witness :
  roleOf portal 2 = Some "admin".
Proof.
  exact (no_request_grants_admin accept accept accept
           (POST_user_tickets_close 12) (Some bob) portal 2 eq_refl).
Defined.

End AccountFacts.

(* ===================================================================== *)
(** * Opening, answering and reading tickets *)
(* ===================================================================== *)

Import Store Http Auth Routes Examples Reply Account Roster Desk Cases.

Section DeskFacts.

Local Open Scope string_scope.
Local Open Scope Z_scope.
Local Open Scope portal_scope.

Ltac store_simpl :=
  cbn [online now users staffApplications staffMembers tickets ticketReplies
         with_users with_tickets with_ticketReplies with_staffApplications
         with_staffMembers fst snd] in *.

Ltac run H :=
  repeat (unfold bind, ret, try_catch, json, throw, select, execute,
            insertRow, sent, failed;
          cbn [selectById Number result_insertId];
          store_simpl; rewrite ?H).

(** ** Opening a ticket and reading it *)

Lemma accessDenied_owner (ticket ticket' : Ticket) (actor : Principal) :
  t_userId ticket' = t_userId ticket ->
  accessDenied ticket' actor = accessDenied ticket actor.
Proof. unfold accessDenied. now intros ->. Qed.

(** X12: A ticket the schema accepts is appended to the tickets with the
    next id, the actor as owner, the priority [medium] and no assignee,
    whatever the body asked for, and the request is answered 500 all the
    same: the read of the new row throws.  The owner then reads the
    ticket through [GET /api/user/tickets/:id].  A ticket the schema
    refuses is answered 500 as well, and nothing is stored. *)
Theorem opened_ticket_is_read_back
  (schema : InsertTicket -> bool) (body : TicketBody) (user : Principal)
  (db : Db) :
  online db = true ->
  let data := {| it_userId := p_id user;
                 it_subject := b_title body;
                 it_message := b_message body;
                 it_department := b_category body;
                 it_priority := "medium" |} in
  (schema data = true ->
   exists ticket db',
     postUserTickets schema body (Some user) db
     = (Ok {| status := 500; body := JMessage "Erro ao criar ticket" |}, db')
     /\ tickets db' = (tickets db ++ [ticket])%list
     /\ t_id ticket = insertId t_id (tickets db)
     /\ t_userId ticket = p_id user
     /\ t_subject ticket = b_title body
     /\ t_message ticket = b_message body
     /\ t_department ticket = b_category body
     /\ t_priority ticket = "medium"
     /\ t_assignedTo ticket = None
     /\ getUserTicket (t_id ticket) (Some user) db'
        = (Ok (Sent 200 (ticket, repliesOf db (t_id ticket))), db'))
  /\ (schema data = false ->
      postUserTickets schema body (Some user) db
      = (Ok {| status := 500; body := JMessage "Erro ao criar ticket" |}, db)).
Proof.
  intros Hon data. unfold postUserTickets, isAuthenticated. fold data. split.
  - intros Hs. rewrite Hs. unfold try_catch, bind.
    rewrite createTicket_throws, Hon. run Hon.
    do 2 eexists. split; [reflexivity|]. store_simpl.
    repeat (split; [reflexivity|]).
    unfold getUserTicket, loggedIn, getTicket, getTicketReplies. run Hon.
    cbn [t_id newTicket].
    rewrite byId_insertId by reflexivity.
    unfold accessDenied. cbn [t_userId newTicket data it_userId].
    rewrite Z.eqb_refl. cbn [negb andb]. run Hon. reflexivity.
  - intros Hs. rewrite Hs. run Hon. reflexivity.
Qed.

Lemma opened_ticket_witness :
  exists ticket db',
    postUserTickets accept
      {| b_title := "Login"; b_message := "..."; b_category := "geral" |}
      (Some kai) portal
    = (Ok {| status := 500; body := JMessage "Erro ao criar ticket" |}, db')
    /\ t_id ticket = 13
    /\ t_userId ticket = 45
    /\ getUserTicket 13 (Some kai) db' = (Ok (Sent 200 (ticket, [])), db').
Proof.
  destruct (proj1 (opened_ticket_is_read_back accept
                     {| b_title := "Login"; b_message := "...";
                        b_category := "geral" |} kai portal eq_refl) eq_refl)
    as (ticket & db' & Hp & _ & Hid & Ho & _ & _ & _ & _ & _ & Hg).
  exists ticket, db'. rewrite Hid in Hg.
  split; [exact Hp|]. split; [exact Hid|]. split; [exact Ho|]. exact Hg.
Defined.

(** ** Replying to a ticket and reading the thread *)

(** X13: A reply through the user route that is let through and that the
    schema accepts is answered 500, and is stored all the same: whoever
    sent it then reads, through [GET /api/user/tickets/:id], the ticket
    as it was and the thread as it was with that reply at its end. *)
Theorem reply_is_read_back
  (schema : InsertTicketReply -> bool) (db : Db) (ticketId : Z)
  (message : string) (actor : Principal) (ticket : Ticket) :
  online db = true ->
  byId t_id ticketId (tickets db) = Some ticket ->
  accessDenied ticket actor = false ->
  schema (userReplyData ticketId actor message) = true ->
  exists reply db',
    postUserTicketReply schema ticketId message (Some actor) db
    = (Ok {| status := 500; body := JMessage "Erro ao responder ticket" |},
       db')
    /\ r_ticketId reply = ticketId
    /\ r_userId reply = p_id actor
    /\ r_message reply = message
    /\ getUserTicket ticketId (Some actor) db'
       = (Ok (Sent 200 (ticket, (repliesOf db ticketId ++ [reply])%list)),
          db').
Proof.
  intros Hon Hf Hacc Hs.
  exists (replyRow db (userReplyData ticketId actor message)).
  eexists. split.
  { apply (user_reply_is_stored schema db ticketId message actor ticket);
      assumption. }
  repeat (split; [reflexivity|]).
  pose proof (repliesOf_addReply db (userReplyData ticketId actor message))
    as Hr.
  cbn [ir_ticketId userReplyData] in Hr. unfold repliesOf in Hr.
  unfold getUserTicket, loggedIn, getTicket, getTicketReplies, addReply in *.
  run Hon. rewrite Hf, Hacc. run Hon. rewrite Hr. reflexivity.
Qed.

Lemma reply_is_read_back_witness :
  exists reply db',
    postUserTicketReply accept 12 "Obrigado" (Some bob) portal
    = (Ok {| status := 500; body := JMessage "Erro ao responder ticket" |},
       db')
    /\ getUserTicket 12 (Some bob) db'
       = (Ok (Sent 200 (ticket12, [reply])), db')
    /\ r_message reply = "Obrigado".
Proof.
  destruct (reply_is_read_back accept portal 12 "Obrigado" bob ticket12
              eq_refl eq_refl eq_refl eq_refl)
    as (reply & db' & Hp & _ & _ & Hm & Hg).
  exists reply, db'. auto.
Defined.

End DeskFacts.

(* ===================================================================== *)
(** * Applications *)
(* ===================================================================== *)

Import Store Http Auth Routes Examples Reply Account Roster Desk Cases.

Section ApplicationFacts.

Local Open Scope string_scope.
Local Open Scope Z_scope.
Local Open Scope portal_scope.

Ltac store_simpl :=
  cbn [online now users staffApplications staffMembers tickets ticketReplies
         with_users with_tickets with_ticketReplies with_staffApplications
         with_staffMembers fst snd] in *.

Ltac run H :=
  repeat (unfold bind, ret, try_catch, json, throw, select, execute,
            insertRow, sent, failed;
          cbn [selectById Number result_insertId];
          store_simpl; rewrite ?H).

(** ** Applying without a login *)

(** X14: The handler that answers [POST /api/applications] asks for no login
    and looks at no earlier application: what the schema accepts is
    appended with the next id, for the actor's id or for no user at all
    when nobody is logged in, not reviewed and without notes, and is
    answered 500 all the same, since the read of the new row throws;
    what the schema refuses is answered 400 and nothing is stored. *)
Theorem application_needs_no_login
  (schema : InsertStaffApplication -> bool) (body : ApplicationBody)
  (actor : option Principal) (db : Db) :
  online db = true ->
  let data := {| ia_userId := option_map p_id actor;
                 ia_position := b_position body;
                 ia_experience := b_experience body;
                 ia_reason := b_reason body;
                 ia_status := None;
                 ia_adminNotes := None;
                 ia_reviewedBy := None |} in
  (schema data = true ->
   exists row db',
     postApplicationsFirst schema body actor db
     = (Ok {| status := 500; body := JMessage "Erro ao criar aplicação" |},
        db')
     /\ staffApplications db' = (staffApplications db ++ [row])%list
     /\ a_id row = insertId a_id (staffApplications db)
     /\ a_userId row = option_map p_id actor
     /\ a_position row = b_position body
     /\ a_reviewedBy row = None
     /\ a_adminNotes row = None
     /\ users db' = users db
     /\ staffMembers db' = staffMembers db)
  /\ (schema data = false ->
      postApplicationsFirst schema body actor db
      = (Ok {| status := 400;
               body := JMessage "Dados de aplicação inválidos" |}, db)).
Proof.
  intros Hon data. split.
  - intros Hs. do 2 eexists. split.
    { apply (application_is_stored schema body actor db Hon Hs). }
    store_simpl. repeat (split; [reflexivity|]). reflexivity.
  - intros Hs. unfold postApplicationsFirst. fold data. rewrite Hs.
    run Hon. reflexivity.
Qed.

Lemma application_without_login_witness :
  exists row db',
    postApplicationsFirst accept candidacy None portal
    = (Ok {| status := 500; body := JMessage "Erro ao criar aplicação" |},
       db')
    /\ staffApplications db' = (staffApplications portal ++ [row])%list
    /\ a_id row = 10
    /\ a_userId row = None.
Proof.
  destruct (proj1 (application_needs_no_login accept candidacy None portal
                     eq_refl) eq_refl)
    as (row & db' & Hp & Hrows & Hid & Hu & _).
  exists row, db'. split; [exact Hp|]. split; [exact Hrows|].
  split; [exact Hid | exact Hu].
Defined.

(** ** The two ways to set a status *)

(** X15: [PUT /api/admin/applications/:id] stores whatever text it is given
    as the status of an existing application, with the admin as the
    reviewer, and touches neither the roster nor the users even when the
    text is [approved]; [PATCH /api/admin/applications/:id] answers 400
    to every status but the three, and to a missing one, and stores
    nothing. *)
Theorem put_stores_any_status_patch_validates
  (db : Db) (id : Z) (notes : option string) (admin : Principal)
  (application : StaffApplication) :
  online db = true ->
  p_role admin = "admin" ->
  byId a_id id (staffApplications db) = Some application ->
  (forall status db',
     snd (putApplication id (Some status) notes (Some admin) db) = db' ->
     statusOf (fst (putApplication id (Some status) notes (Some admin) db))
     = Some 200
     /\ applicationStatus db' id = Some status
     /\ option_map a_reviewedBy (byId a_id id (staffApplications db'))
        = Some (Some (p_id admin))
     /\ staffMembers db' = staffMembers db
     /\ users db' = users db)
  /\ (forall status,
        isApplicationStatus status = false ->
        patchApplication id status notes (Some admin) db
        = (Ok {| status := 400; body := JMessage "Status inválido" |}, db)).
Proof.
  intros Hon Hadmin Hf. split.
  - intros status db' <-.
    unfold putApplication, isAdmin, updateStaffApplication.
    rewrite Hadmin. cbn [String.eqb Ascii.eqb Bool.eqb negb].
    run Hon. unfold applicationStatus. store_simpl.
    rewrite byId_updateWhere by apply setStaffApplication_id.
    rewrite Z.eqb_refl, Hf. cbn [option_map]. unfold answerApplication.
    run Hon. repeat split;
      rewrite byId_updateWhere by apply setStaffApplication_id;
      now rewrite Z.eqb_refl, Hf.
  - intros status Hs. unfold patchApplication, isAdmin.
    rewrite Hadmin. cbn [String.eqb Ascii.eqb Bool.eqb negb].
    rewrite Hs. cbn [negb]. run Hon. reflexivity.
Qed.

Lemma put_stores_any_status_witness :
  applicationStatus
    (snd (putApplication 8 (Some "talvez") None (Some ana) portal)) 8
  = Some "talvez"
  /\ patchApplication 8 (Some "talvez") None (Some ana) portal
     = (Ok {| status := 400; body := JMessage "Status inválido" |}, portal).
Proof.
  destruct (put_stores_any_status_patch_validates portal 8 None ana
              application8 eq_refl eq_refl eq_refl) as [Hput Hpatch].
  split.
  - exact (proj1 (proj2 (Hput "talvez" _ eq_refl))).
  - exact (Hpatch (Some "talvez") eq_refl).
Defined.

End ApplicationFacts.

(* ===================================================================== *)
(** * The staff roster *)
(* ===================================================================== *)

Import Store Http Auth Routes Examples Reply Account Roster Desk Cases.
Import Permutation.

Section RosterFacts.

Local Open Scope string_scope.
Local Open Scope Z_scope.
Local Open Scope portal_scope.

Ltac store_simpl :=
  cbn [online now users staffApplications staffMembers tickets ticketReplies
         with_users with_tickets with_ticketReplies with_staffApplications
         with_staffMembers fst snd] in *.

Ltac run H :=
  repeat (unfold bind, ret, try_catch, json, throw, select, execute,
            insertRow, sent, failed;
          cbn [selectById Number result_insertId];
          store_simpl; rewrite ?H).

(** ** [ORDER BY] *)

Section Ordering.

Context {A : Type} (le : A -> A -> bool).

Lemma insertBy_perm (x : A) (l : list A) :
  Permutation (insertBy le x l) (x :: l).
Proof.
  induction l as [|y r IH]; cbn [insertBy]; [reflexivity|].
  destruct (le x y); [reflexivity|].
  rewrite IH. apply perm_swap.
Qed.

Lemma orderBy_perm (l : list A) : Permutation (orderBy le l) l.
Proof.
  induction l as [|x r IH]; cbn [orderBy fold_right]; [reflexivity|].
  fold (orderBy le r). rewrite insertBy_perm. now apply perm_skip.
Qed.

Lemma orderBy_In (x : A) (l : list A) : In x (orderBy le l) <-> In x l.
Proof.
  split; apply Permutation_in;
    [apply orderBy_perm | apply Permutation_sym, orderBy_perm].
Qed.

Variable f : A -> Z.
Hypothesis le_true : forall x y, le x y = true -> f x <= f y.
Hypothesis le_false : forall x y, le x y = false -> f y <= f x.

Lemma ascending_cons (a : Z) (l : list Z) :
  ascending (a :: l) = true
  <-> (forall b, hd_error l = Some b -> a <= b) /\ ascending l = true.
Proof.
  destruct l as [|b r]; cbn [ascending hd_error].
  - split; [intros _; split; [intros b Hb; discriminate Hb | reflexivity]
           | intros _; reflexivity].
  - rewrite andb_true_iff, Z.leb_le. split.
    + intros [H1 H2]. split; [|exact H2]. intros c Hc.
      inversion Hc. subst c. exact H1.
    + intros [H1 H2]. split; [now apply H1 | exact H2].
Qed.

Lemma insertBy_hd (x : A) (l : list A) :
  hd_error (insertBy le x l) = Some x
  \/ (exists y, hd_error l = Some y
                /\ hd_error (insertBy le x l) = Some y
                /\ f y <= f x).
Proof.
  destruct l as [|y r]; cbn [insertBy]; [now left|].
  destruct (le x y) eqn:E; [now left|].
  right. exists y. repeat split. now apply le_false.
Qed.

Lemma insertBy_ascending (x : A) (l : list A) :
  ascending (map f l) = true ->
  ascending (map f (insertBy le x l)) = true.
Proof.
  induction l as [|y r IH]; cbn [insertBy map]; [reflexivity|].
  intros H. destruct (le x y) eqn:E.
  - cbn [map]. apply ascending_cons. split; [|exact H].
    intros b Hb. inversion Hb. subst b. now apply le_true.
  - cbn [map]. apply ascending_cons in H. destruct H as [H1 H2].
    apply ascending_cons. split; [|now apply IH].
    intros b Hb.
    destruct (insertBy_hd x r) as [Hx|(z & Hz1 & Hz2 & _)].
    + destruct (insertBy le x r); [discriminate|].
      cbn in Hb, Hx. inversion Hb. inversion Hx. subst. now apply le_false.
    + apply H1. destruct r as [|z' r']; [discriminate|].
      destruct (insertBy le x (z' :: r')); [discriminate|].
      cbn in *. congruence.
Qed.

Lemma orderBy_ascending (l : list A) :
  ascending (map f (orderBy le l)) = true.
Proof.
  induction l as [|x r IH]; cbn [orderBy fold_right]; [reflexivity|].
  now apply insertBy_ascending.
Qed.

End Ordering.

Lemma memberLe_true (nameLe : string -> string -> bool) (a b : StaffMember) :
  memberLe nameLe a b = true -> m_displayOrder a <= m_displayOrder b.
Proof.
  unfold memberLe. rewrite orb_true_iff, andb_true_iff, Z.ltb_lt, Z.eqb_eq.
  lia.
Qed.

Lemma memberLe_false (nameLe : string -> string -> bool) (a b : StaffMember) :
  memberLe nameLe a b = false -> m_displayOrder b <= m_displayOrder a.
Proof.
  unfold memberLe. rewrite orb_false_iff, Z.ltb_ge. lia.
Qed.

Lemma filter_active (l : list StaffMember) :
  filter (fun m => Bool.eqb (m_isActive m) true) l = filter m_isActive l.
Proof.
  apply filter_ext. intros m. now destruct (m_isActive m).
Qed.

(** ** The two lists of the staff *)

(** X16: [GET /api/staff] asks for no login; on a reachable database it is
    answered 200 with the active members of the roster, each once, in
    ascending display order, and leaves the database as it was.
    [GET /api/admin/staff] answers an admin with all the members, the
    inactive ones too, in ascending display order. *)
Theorem staff_lists
  (nameLe : string -> string -> bool) (db : Db) :
  online db = true ->
  (forall actor,
     exists members,
       getStaff nameLe actor db = (Ok (Sent 200 members), db)
       /\ Permutation members (filter m_isActive (staffMembers db))
       /\ ascending (map m_displayOrder members) = true)
  /\ (forall admin,
        p_role admin = "admin" ->
        exists members,
          getAdminStaff nameLe (Some admin) db = (Ok (Sent 200 members), db)
          /\ Permutation members (staffMembers db)
          /\ ascending (map m_displayOrder members) = true).
Proof.
  intros Hon. split.
  - intros actor. unfold getStaff, getStaffMembers. run Hon.
    eexists. split; [reflexivity|]. split.
    + rewrite <- filter_active. apply orderBy_perm.
    + apply orderBy_ascending;
        [apply memberLe_true | apply memberLe_false].
  - intros admin Hadmin. unfold getAdminStaff, adminOnly, getStaffMembers.
    rewrite Hadmin. cbn [String.eqb Ascii.eqb Bool.eqb negb]. run Hon.
    eexists. split; [reflexivity|]. split.
    + apply orderBy_perm.
    + apply orderBy_ascending;
        [apply memberLe_true | apply memberLe_false].
Qed.

Lemma staff_lists_witness :
  exists members,
    getStaff String.leb None portal = (Ok (Sent 200 members), portal)
    /\ List.length members = 1%nat.
Proof.
  destruct (proj1 (staff_lists String.leb portal eq_refl) None)
    as (members & Hg & Hp & _).
  exists members. split; [exact Hg|].
  exact (Permutation_length Hp).
Defined.

(** ** Removing a member *)





(** ** Adding a member *)

(** X18: [POST /api/admin/staff] of an admin appends the member with the
    next id and is answered 500 all the same, since the read of the new
    row throws.  A display order that is absent or 0 is stored as 999, a
    member is active unless the body says [false], and the member is on
    the public list from then on exactly when it is active. *)
Theorem new_member_is_listed_when_active
  (body : StaffBody) (admin : Principal) (db : Db) :
  online db = true ->
  p_role admin = "admin" ->
  exists row db',
    postAdminStaff body (Some admin) db
    = (Ok (Failed 500 "Erro ao criar membro da equipe"), db')
    /\ staffMembers db' = (staffMembers db ++ [row])%list
    /\ m_id row = insertId m_id (staffMembers db)
    /\ m_displayOrder row
       = match sb_displayOrder body with
         | Some 0 | None => 999
         | Some n => n
         end
    /\ (m_isActive row = false <-> sb_isActive body = Some false)
    /\ forall nameLe actor,
         exists members,
           getStaff nameLe actor db' = (Ok (Sent 200 members), db')
           /\ (In row members <-> m_isActive row = true).
Proof.
  intros Hon Hadmin. unfold postAdminStaff, adminOnly.
  rewrite Hadmin. cbn [String.eqb Ascii.eqb Bool.eqb negb].
  unfold try_catch, bind. rewrite createStaffMember_throws, Hon. run Hon.
  do 2 eexists. split; [reflexivity|]. store_simpl.
  split; [reflexivity|]. split; [reflexivity|]. split.
  { cbn [m_displayOrder newStaffMember im_displayOrder].
    destruct (sb_displayOrder body) as [[|n|n]|]; reflexivity. }
  split.
  { cbn [m_isActive newStaffMember im_isActive].
    destruct (sb_isActive body) as [[|]|]; cbn [orElse];
      split; congruence. }
  intros nameLe actor. unfold getStaff, getStaffMembers. run Hon.
  eexists. split; [reflexivity|].
  rewrite orderBy_In, filter_In, in_app_iff. cbn [In].
  split; [intros [_ H] | intros H; split; [right; left; reflexivity|]].
  - destruct (m_isActive _); [reflexivity | discriminate].
  - now rewrite H.
Qed.

Lemma new_member_witness :
  exists row db',
    postAdminStaff
      {| sb_name := "kai"; sb_role := "helper"; sb_position := "Eventos";
         sb_userId := Some 45; sb_avatar := None; sb_bio := None;
         sb_displayOrder := Some 0; sb_isActive := Some false |}
      (Some ana) portal
    = (Ok (Failed 500 "Erro ao criar membro da equipe"), db')
    /\ staffMembers db' = (staffMembers portal ++ [row])%list
    /\ m_id row = 2
    /\ m_displayOrder row = 999
    /\ m_isActive row = false.
Proof.
  destruct (new_member_is_listed_when_active
              {| sb_name := "kai"; sb_role := "helper";
                 sb_position := "Eventos"; sb_userId := Some 45;
                 sb_avatar := None; sb_bio := None;
                 sb_displayOrder := Some 0; sb_isActive := Some false |}
              ana portal eq_refl eq_refl)
    as (row & db' & Hp & Hrows & Hid & Ho & Ha & _).
  exists row, db'. split; [exact Hp|]. split; [exact Hrows|].
  split; [exact Hid|]. split; [exact Ho|]. exact (proj2 Ha eq_refl).
Defined.

(** ** From an approval to the public list *)

(** X25: After [PATCH /api/admin/applications/:id] with status [approved],
    whatever the status of the application was, an applicant who has a
    user row and was not on the roster is on the list of
    [GET /api/staff]: as a member with the applicant's user name, the
    position applied for, the role [moderator] and the display
    order 99. *)
Theorem approved_applicant_is_listed
  (nameLe : string -> string -> bool) (db : Db) (id : Z)
  (notes : option string) (admin : Principal)
  (application : StaffApplication) (uid : Z) (u : User) :
  online db = true ->
  p_role admin = "admin" ->
  byId a_id id (staffApplications db) = Some application ->
  a_userId application = Some uid ->
  rosterRowsOf db uid = [] ->
  byId u_id uid (users db) = Some u ->
  forall actor db',
    snd (patchApplication id (Some "approved") notes (Some admin) db) = db' ->
    exists members member,
      getStaff nameLe actor db' = (Ok (Sent 200 members), db')
      /\ In member members
      /\ m_userId member = Some uid
      /\ m_name member = u_username u
      /\ m_position member = a_position application
      /\ m_role member = "moderator"
      /\ m_displayOrder member = 99.
Proof.
  intros Hon Hadm Hf Huid Hnone Hu actor db' <-.
  apply find_none_filter in Hnone.
  pose proof (byId_key u_id _ _ _ Hu) as Hk.
  unfold patchApplication. rewrite (isAdmin_admin _ admin Hadm).
  change (negb (isApplicationStatus (Some "approved"))) with false.
  change (String.eqb (orElse (Some "approved") "") "approved") with true.
  cbv iota.
  unfold getStaffApplication, updateStaffApplication, addToRoster, forUser,
    getStaffMemberByUserId, getUser, createStaffMember, updateUser.
  run Hon. rewrite Hf. run Hon.
  rewrite byId_updateWhere by apply setStaffApplication_id.
  rewrite Z.eqb_refl, Hf, Huid. cbn [option_map]. run Hon.
  rewrite Hnone. run Hon. rewrite Hu. run Hon.
  unfold getStaff, getStaffMembers. run Hon.
  do 2 eexists. split; [reflexivity|]. split.
  - apply orderBy_In. apply filter_In. split.
    + apply in_app_iff. right. left. reflexivity.
    + reflexivity.
  - cbn [m_userId m_name m_position m_role m_displayOrder newStaffMember
           im_userId im_name im_position im_role im_displayOrder].
    rewrite Hk. auto.
Qed.

Lemma approved_applicant_witness :
  exists members member,
    getStaff String.leb None
      (snd (patchApplication 9 (Some "approved") None (Some ana) portal))
    = (Ok (Sent 200 members),
       snd (patchApplication 9 (Some "approved") None (Some ana) portal))
    /\ In member members
    /\ m_name member = "lee"
    /\ m_role member = "moderator".
Proof.
  destruct (approved_applicant_is_listed String.leb portal 9 None ana
              application9 44 (userRow 44 "lee" "user")
              eq_refl eq_refl eq_refl eq_refl eq_refl eq_refl None _ eq_refl)
    as (members & member & Hg & Hin & _ & Hn & _ & Hr & _).
  exists members, member. auto.
Defined.

End RosterFacts.

(* ===================================================================== *)
(** * Settings *)
(* ===================================================================== *)

Import Store Http Auth Routes Examples Reply Account Roster Desk Cases.
Import Settings.
Import Permutation.

Section SettingsFacts.

Local Open Scope string_scope.
Local Open Scope Z_scope.
Local Open Scope vault_scope.

Ltac vrun H :=
  repeat (unfold vbind, vret, vtry, vthrow, vselect, vexecute;
          cbn [reachable settings with_settings fst snd
               Number result_insertId] in *;
          rewrite ?H).

Lemma hasKey_setValue (key : string) (data : InsertSetting) (s : Setting) :
  hasKey key (setValue data s) = hasKey key s.
Proof. reflexivity. Qed.

Lemma hasKey_newSetting (key : string) (id : Z) (data : InsertSetting) :
  hasKey key (newSetting id data) = String.eqb (is_key data) key.
Proof. reflexivity. Qed.

Lemma find_updated (data : InsertSetting) (rows : list Setting) :
  find (hasKey (is_key data))
    (map (fun s => if hasKey (is_key data) s then setValue data s else s)
       rows)
  = option_map (setValue data) (find (hasKey (is_key data)) rows).
Proof.
  induction rows as [|s r IH]; [reflexivity|]. cbn [map find].
  destruct (hasKey (is_key data) s) eqn:E.
  - now rewrite hasKey_setValue, E.
  - now rewrite E.
Qed.

Lemma find_others_updated (key : string) (data : InsertSetting)
  (rows : list Setting) :
  key <> is_key data ->
  find (hasKey key)
    (map (fun s => if hasKey (is_key data) s then setValue data s else s)
       rows)
  = find (hasKey key) rows.
Proof.
  intros Hk. induction rows as [|s r IH]; [reflexivity|]. cbn [map find].
  destruct (hasKey (is_key data) s) eqn:E.
  - rewrite hasKey_setValue.
    assert (hasKey key s = false) as ->; [|exact IH].
    unfold hasKey in *. apply String.eqb_eq in E. apply String.eqb_neq.
    congruence.
  - now rewrite IH.
Qed.

Lemma filter_updated (data : InsertSetting) (rows : list Setting) :
  List.length
    (filter (hasKey (is_key data))
       (map (fun s => if hasKey (is_key data) s then setValue data s else s)
          rows))
  = List.length (filter (hasKey (is_key data)) rows).
Proof.
  induction rows as [|s r IH]; [reflexivity|]. cbn [map filter].
  destruct (hasKey (is_key data) s) eqn:E.
  - rewrite hasKey_setValue, E. cbn [List.length]. now rewrite IH.
  - now rewrite E.
Qed.

Lemma find_filter_nil {A} (p : A -> bool) (rows : list A) :
  filter p rows = [] -> find p rows = None.
Proof.
  induction rows as [|s r IH]; [reflexivity|]. cbn [filter find].
  destruct (p s); [discriminate | exact IH].
Qed.

Lemma find_filter_cons {A} (p : A -> bool) (rows : list A) :
  (0 <? List.length (filter p rows))%nat = true ->
  exists s, find p rows = Some s.
Proof.
  induction rows as [|s r IH]; [discriminate|]. cbn [filter find].
  destruct (p s); [eauto | exact IH].
Qed.

Lemma find_app_none {A} (p : A -> bool) (rows : list A) (x : A) :
  find p rows = None -> find p (rows ++ [x]) = find p [x].
Proof.
  induction rows as [|s r IH]; [reflexivity|]. cbn [find app].
  destruct (p s); [discriminate | exact IH].
Qed.

Lemma find_app_other {A} (p : A -> bool) (rows : list A) (x : A) :
  p x = false -> find p (rows ++ [x]) = find p rows.
Proof.
  intros Hx. induction rows as [|s r IH]; cbn [find app].
  - now rewrite Hx.
  - now rewrite IH.
Qed.

(** ** Writing a setting and reading it *)

(** The rows [upsertSetting] leaves, and what it returns: the setting
    when the key had a row, and nothing when it had none, since the row
    is inserted and the read of it throws. *)
Lemma upsertSetting_rows (data : InsertSetting) (v : Vault) :
  reachable v = true ->
  exists s v',
    upsertSetting data v
    = (match find (hasKey (is_key data)) (settings v) with
       | Some _ => Ok (Some s)
       | None => Thrown
       end, v')
    /\ reachable v' = true
    /\ find (hasKey (is_key data)) (settings v') = Some s
    /\ s_key s = is_key data
    /\ s_value s = is_value data
    /\ s_category s = is_category data
    /\ (forall key, key <> is_key data ->
          find (hasKey key) (settings v') = find (hasKey key) (settings v))
    /\ List.length (filter (hasKey (is_key data)) (settings v'))
       = Nat.max 1 (List.length (filter (hasKey (is_key data)) (settings v))).
Proof.
  intros Hon. unfold upsertSetting. vrun Hon.
  destruct (0 <? List.length (filter (hasKey (is_key data)) (settings v)))%nat
    eqn:E.
  - destruct (find_filter_cons _ _ E) as [s0 Hs0]. vrun Hon.
    rewrite find_updated, Hs0. cbn [option_map].
    do 2 eexists. split; [reflexivity|]. vrun Hon.
    split; [reflexivity|].
    rewrite find_updated, Hs0. cbn [option_map].
    split; [reflexivity|].
    split.
    { cbn [s_key setValue]. apply find_some in Hs0. destruct Hs0 as [_ Hk].
      now apply String.eqb_eq in Hk. }
    split; [reflexivity|]. split; [reflexivity|]. split.
    + intros key Hk. now rewrite find_others_updated.
    + rewrite filter_updated. apply Nat.ltb_lt in E. lia.
  - assert (Hnil : filter (hasKey (is_key data)) (settings v) = []).
    { apply Nat.ltb_ge in E.
      destruct (filter (hasKey (is_key data)) (settings v));
        [reflexivity | cbn in E; lia]. }
    vrun Hon. rewrite (find_filter_nil _ _ Hnil).
    exists (newSetting (insertId s_id (settings v)) data).
    eexists. split; [reflexivity|]. vrun Hon.
    split; [reflexivity|].
    rewrite find_app_none by now apply find_filter_nil.
    cbn [find]. rewrite hasKey_newSetting, String.eqb_refl.
    split; [reflexivity|]. split; [reflexivity|].
    split; [reflexivity|]. split; [reflexivity|]. split.
    + intros key Hk. rewrite find_app_other; [reflexivity|].
      rewrite hasKey_newSetting. apply String.eqb_neq. congruence.
    + rewrite filter_app, Hnil. cbn [filter].
      now rewrite hasKey_newSetting, String.eqb_refl.
Qed.

(** X19: On a reachable server [upsertSetting] leaves a setting with the key,
    the value and the category it was given, which [getSetting] on that
    key then returns.  It returns that setting itself when the key had a
    row; when the key had none it inserts the row and throws.  The
    setting of every other key is as it was, and the key gets a row only
    when it had none: the number of its rows stays what it was, or
    becomes one. *)
Theorem upsert_then_get (data : InsertSetting) (v : Vault) :
  reachable v = true ->
  exists s v',
    upsertSetting data v
    = (match find (hasKey (is_key data)) (settings v) with
       | Some _ => Ok (Some s)
       | None => Thrown
       end, v')
    /\ getSetting (is_key data) v' = (Ok (Some s), v')
    /\ s_key s = is_key data
    /\ s_value s = is_value data
    /\ s_category s = is_category data
    /\ (forall key, key <> is_key data ->
          fst (getSetting key v') = fst (getSetting key v))
    /\ List.length (filter (hasKey (is_key data)) (settings v'))
       = Nat.max 1 (List.length (filter (hasKey (is_key data)) (settings v))).
Proof.
  intros Hon.
  destruct (upsertSetting_rows data v Hon)
    as (s & v' & Hu & Hon' & Hf & Hk & Hv & Hc & Hothers & Hn).
  exists s, v'. split; [exact Hu|]. split.
  - unfold getSetting, vselect. now rewrite Hon', Hf.
  - repeat (split; [assumption|]). split; [|exact Hn].
    intros key Hkey. unfold getSetting, vselect. rewrite Hon, Hon'.
    cbn [fst]. now rewrite (Hothers key Hkey).
Qed.

Lemma upsert_then_get_witness :
  (exists s v',
     upsertSetting
       {| is_key := "site_name"; is_value := "AA"; is_category := "general" |}
       vault
     = (Ok (Some s), v')
     /\ getSetting "site_name" v' = (Ok (Some s), v')
     /\ s_value s = "AA"
     /\ List.length (filter (hasKey "site_name") (settings v')) = 1%nat)
  /\ (exists s v',
        upsertSetting
          {| is_key := "motd"; is_value := "Oi"; is_category := "general" |}
          vault
        = (Thrown, v')
        /\ getSetting "motd" v' = (Ok (Some s), v')
        /\ s_value s = "Oi"
        /\ List.length (filter (hasKey "motd") (settings v')) = 1%nat).
Proof.
  split.
  - destruct (upsert_then_get
                {| is_key := "site_name"; is_value := "AA";
                   is_category := "general" |} vault eq_refl)
      as (s & v' & Hu & Hg & _ & Hv & _ & _ & Hn).
    exists s, v'. auto.
  - destruct (upsert_then_get
                {| is_key := "motd"; is_value := "Oi";
                   is_category := "general" |} vault eq_refl)
      as (s & v' & Hu & Hg & _ & Hv & _ & _ & Hn).
    exists s, v'. auto.
Defined.

(** ** The settings of a user *)

Lemma append_cancel (a x y : string) : a ++ x = a ++ y -> x = y.
Proof.
  induction a as [|c a IH]; cbn; [auto|].
  intros H. inversion H. auto.
Qed.

Lemma to_int_not_nil (z : Z) :
  Z.to_int z <> Decimal.Pos Decimal.Nil
  /\ Z.to_int z <> Decimal.Neg Decimal.Nil.
Proof.
  destruct z as [|p|p]; cbn; split; try discriminate;
    intros H; inversion H;
    now apply (DecimalPos.Unsigned.to_uint_nonnil p).
Qed.

Lemma userSettingKey_inj (kind : string) (a b : Z) :
  userSettingKey kind a = userSettingKey kind b -> a = b.
Proof.
  unfold userSettingKey. intros H.
  apply append_cancel in H. cbn in H. inversion H as [H'].
  apply DecimalZ.to_int_inj.
  destruct (to_int_not_nil a) as [Ha1 Ha2].
  destruct (to_int_not_nil b) as [Hb1 Hb2].
  pose proof (DecimalString.NilZero.isi _ Ha1 Ha2) as Ea.
  pose proof (DecimalString.NilZero.isi _ Hb1 Hb2) as Eb.
  rewrite H' in Ea. rewrite Ea in Eb. now inversion Eb.
Qed.

(** X20: What a user saves through one of the three settings routes is stored
    and is then in the answer of [GET /api/settings/public], which asks
    for no login: the list holds the setting of the user's key with the
    text that was saved.  The save itself is answered 200 with the text
    when the user's key had a row, and 500 when it had none. *)
Theorem saved_user_settings_are_public
  (textLe : string -> string -> bool) (kind failure text : string)
  (user : Principal) (v : Vault) :
  reachable v = true ->
  exists v' listed s,
    saveUserSettings kind failure text (Some user) v
    = (Ok (match find (hasKey (userSettingKey kind (p_id user))) (settings v)
           with
           | Some _ => Sent 200 text
           | None => Failed 500 failure
           end), v')
    /\ getPublicSettings textLe None v' = (Ok (Sent 200 listed), v')
    /\ Permutation listed (settings v')
    /\ In s listed
    /\ s_key s = userSettingKey kind (p_id user)
    /\ s_value s = text
    /\ s_category s = "user_settings".
Proof.
  intros Hon.
  destruct (upsertSetting_rows
              {| is_key := userSettingKey kind (p_id user);
                 is_value := text; is_category := "user_settings" |} v Hon)
    as (s & v' & Hu & Hon' & Hf & Hk & Hv & Hc & _ & _).
  unfold saveUserSettings. unfold vtry, vbind at 1. rewrite Hu.
  cbn [is_key].
  exists v'. eexists. exists s. split.
  { destruct (find _ (settings v)); reflexivity. }
  unfold getPublicSettings, getAllSettings. vrun Hon'.
  split; [reflexivity|]. split.
  { apply orderBy_perm. }
  split; [|auto].
  apply (Permutation_in s (Permutation_sym (orderBy_perm _ (settings v')))).
  now apply find_some in Hf.
Qed.

Lemma saved_user_settings_witness :
  (exists v' listed s,
     patchAppearance "{dark}" (Some bob) vault = (Ok (Sent 200 "{dark}"), v')
     /\ getPublicSettings String.leb None v' = (Ok (Sent 200 listed), v')
     /\ In s listed
     /\ s_key s = "appearance_42"
     /\ s_value s = "{dark}")
  /\ (exists v' listed s,
        patchAppearance "{dark}" (Some eve) vault
        = (Ok (Failed 500 "Erro ao atualizar configurações de aparência"),
           v')
        /\ getPublicSettings String.leb None v' = (Ok (Sent 200 listed), v')
        /\ In s listed
        /\ s_key s = "appearance_43"
        /\ s_value s = "{dark}").
Proof.
  split.
  - destruct (saved_user_settings_are_public String.leb "appearance"
                "Erro ao atualizar configurações de aparência" "{dark}"
                bob vault eq_refl)
      as (v' & listed & s & Hs & Hg & _ & Hin & Hk & Hv & _).
    exists v', listed, s. auto.
  - destruct (saved_user_settings_are_public String.leb "appearance"
                "Erro ao atualizar configurações de aparência" "{dark}"
                eve vault eq_refl)
      as (v' & listed & s & Hs & Hg & _ & Hin & Hk & Hv & _).
    exists v', listed, s. auto.
Defined.

(** X21: Saving the settings of one user leaves the settings of the same kind
    of every other user as they were. *)
Theorem user_settings_do_not_collide
  (kind failure text : string) (user : Principal) (other : Z) (v : Vault) :
  other <> p_id user ->
  fst (getSetting (userSettingKey kind other)
         (snd (saveUserSettings kind failure text (Some user) v)))
  = fst (getSetting (userSettingKey kind other) v).
Proof.
  intros Hother.
  assert (Hk : userSettingKey kind other <> userSettingKey kind (p_id user)).
  { intros H. apply Hother. now apply userSettingKey_inj in H. }
  unfold saveUserSettings.
  destruct (reachable v) eqn:Hon.
  - destruct (upsertSetting_rows
                {| is_key := userSettingKey kind (p_id user);
                   is_value := text; is_category := "user_settings" |} v Hon)
      as (s & v' & Hu & Hon' & _ & _ & _ & _ & Hothers & _).
    unfold vtry, vbind at 1. rewrite Hu.
    destruct (find _ (settings v)); cbn [vret snd];
      unfold getSetting, vselect; rewrite Hon, Hon'; cbn [fst];
      now rewrite (Hothers _ Hk).
  - unfold upsertSetting, getSetting. vrun Hon. reflexivity.
Qed.

Lemma user_settings_do_not_collide_witness :
  fst (getSetting "appearance_42"
         (snd (patchAppearance "{dark}" (Some eve) vault)))
  = fst (getSetting "appearance_42" vault).
Proof.
  refine (user_settings_do_not_collide "appearance"
            "Erro ao atualizar configurações de aparência" "{dark}"
            eve 42 vault _).
  discriminate.
Defined.

(** ** Settings of the admin *)

(** X22: [PUT /api/admin/settings/:key] answers 400 and stores nothing when
    the value or the category is missing or empty; otherwise the setting
    is stored as [getSetting] then returns it, and an admin is answered
    200 with it when the key had a row, and 500 when it had none. *)
Theorem admin_setting_needs_value_and_category
  (key : string) (value category : option string) (admin : Principal)
  (v : Vault) :
  p_role admin = "admin" ->
  reachable v = true ->
  (truthy value = None \/ truthy category = None ->
   putAdminSetting key value category (Some admin) v
   = (Ok (Failed 400 "Valor e categoria são obrigatórios"), v))
  /\ (forall x c,
        truthy value = Some x -> truthy category = Some c ->
        exists s v',
          putAdminSetting key value category (Some admin) v
          = (Ok (match find (hasKey key) (settings v) with
                 | Some _ => Sent 200 (Some s)
                 | None => Failed 500 "Erro ao atualizar configuração"
                 end), v')
          /\ getSetting key v' = (Ok (Some s), v')
          /\ s_value s = x
          /\ s_category s = c).
Proof.
  intros Hadmin Hon. unfold putAdminSetting. rewrite Hadmin.
  cbn [String.eqb Ascii.eqb Bool.eqb negb]. split.
  - intros [H|H]; rewrite H; [|destruct (truthy value)]; vrun Hon;
      reflexivity.
  - intros x c Hx Hc. rewrite Hx, Hc.
    destruct (upsertSetting_rows
                {| is_key := key; is_value := x; is_category := c |} v Hon)
      as (s & v' & Hu & Hon' & Hf & _ & Hv & Hcat & _).
    unfold vtry, vbind. rewrite Hu. cbn [is_key] in *.
    exists s, v'. split.
    { destruct (find _ (settings v)); reflexivity. }
    split; [|auto].
    unfold getSetting, vselect. rewrite Hon'. now rewrite Hf.
Qed.

Lemma admin_setting_witness :
  putAdminSetting "site_name" (Some "") (Some "general") (Some ana) vault
  = (Ok (Failed 400 "Valor e categoria são obrigatórios"), vault)
  /\ (exists s v',
        putAdminSetting "motd" (Some "Oi") (Some "general") (Some ana) vault
        = (Ok (Failed 500 "Erro ao atualizar configuração"), v')
        /\ getSetting "motd" v' = (Ok (Some s), v')
        /\ s_value s = "Oi")
  /\ (exists s v',
        putAdminSetting "site_name" (Some "AA") (Some "general") (Some ana)
          vault
        = (Ok (Sent 200 (Some s)), v')
        /\ s_value s = "AA").
Proof.
  split; [|split].
  - exact (proj1 (admin_setting_needs_value_and_category "site_name"
                    (Some "") (Some "general") ana vault eq_refl eq_refl)
             (or_introl eq_refl)).
  - destruct (proj2 (admin_setting_needs_value_and_category "motd"
                       (Some "Oi") (Some "general") ana vault
                       eq_refl eq_refl) "Oi" "general" eq_refl eq_refl)
      as (s & v' & Hp & Hg & Hv & _).
    exists s, v'. auto.
  - destruct (proj2 (admin_setting_needs_value_and_category "site_name"
                       (Some "AA") (Some "general") ana vault
                       eq_refl eq_refl) "AA" "general" eq_refl eq_refl)
      as (s & v' & Hp & _ & Hv & _).
    exists s, v'. auto.
Defined.

End SettingsFacts.

(* ===================================================================== *)
(** * Which registration answers a request *)
(* ===================================================================== *)

Import Router.

Section RouterFacts.

Local Open Scope string_scope.

Lemma sameLiteral_trans (a b s : string) :
  sameLiteral a b = true -> sameLiteral b s = true -> sameLiteral a s = true.
Proof.
  unfold sameLiteral. rewrite !String.eqb_eq. congruence.
Qed.

Lemma lowerCase_empty (s : string) : lowerCase s = "" -> s = "".
Proof. destruct s; [reflexivity | discriminate]. Qed.

Lemma sameLiteral_nonempty (b s : string) :
  String.eqb b "" = false -> sameLiteral b s = true ->
  String.eqb s "" = false.
Proof.
  unfold sameLiteral. rewrite String.eqb_eq. intros Hb H.
  apply String.eqb_neq. intros ->. apply String.eqb_neq in Hb. apply Hb.
  now apply lowerCase_empty.
Qed.

(** A pattern that subsumes another matches every path the other
    matches. *)
Lemma subsumes_sound (p : list Segment) :
  forall q path,
    subsumes p q = true -> matches q path = true -> matches p path = true.
Proof.
  induction p as [|[a|x] p IH]; intros [|[b|y] q] path Hs Hm;
    try discriminate; cbn [subsumes] in Hs.
  - destruct path; [reflexivity | discriminate].
  - destruct path as [|s path]; [discriminate|]. cbn [matches] in *.
    apply andb_true_iff in Hs, Hm. destruct Hs as [H1 H2], Hm as [H3 H4].
    apply andb_true_iff. split; [now apply (sameLiteral_trans a b s)|].
    now apply (IH q).
  - destruct path as [|s path]; [discriminate|]. cbn [matches] in *.
    apply andb_true_iff in Hs, Hm. destruct Hs as [H1 H2], Hm as [H3 H4].
    apply negb_true_iff in H1.
    apply andb_true_iff. split; [|now apply (IH q)].
    apply negb_true_iff. now apply (sameLiteral_nonempty b s).
  - destruct path as [|s path]; [discriminate|]. cbn [matches] in *.
    apply andb_true_iff in Hm. destruct Hm as [H3 H4].
    apply andb_true_iff. split; [exact H3 | now apply (IH q)].
Qed.

Lemma method_eqb_eq (a b : Method) : method_eqb a b = true -> a = b.
Proof. destruct a, b; (reflexivity || discriminate). Qed.

Lemma covers_sound (r e : Route) (m : Method) (path : list string) :
  covers r e = true -> hits m path r = true -> hits m path e = true.
Proof.
  unfold covers, hits. rewrite !andb_true_iff.
  intros [H1 H2] [H3 H4].
  apply method_eqb_eq in H1. apply method_eqb_eq in H3.
  split.
  - rewrite H1, H3. now destruct m.
  - now apply (subsumes_sound _ (pattern r)).
Qed.

(** The registration that answers is one that no earlier registration
    covers. *)
Lemma dispatchIn_uncovered (m : Method) (path : list string) (r : Route) :
  forall rest earlier,
    (forall e, In e earlier -> hits m path e = false) ->
    dispatchIn rest m path = Some r ->
    In r (uncovered earlier rest).
Proof.
  unfold dispatchIn.
  induction rest as [|r0 rest IH]; intros earlier Hearlier Hfind;
    [discriminate|].
  cbn [find] in Hfind. cbn [uncovered].
  destruct (hits m path r0) eqn:Hhit.
  - inversion Hfind. subst r0.
    destruct (existsb (covers r) earlier) eqn:Hc; [|now left].
    apply existsb_exists in Hc. destruct Hc as (e & He & Hcov).
    pose proof (Hearlier e He) as Hmiss.
    rewrite (covers_sound r e m path Hcov Hhit) in Hmiss.
    discriminate.
  - assert (Hnext : forall e, In e (earlier ++ [r0]) -> hits m path e = false).
    { intros e He. apply in_app_iff in He. destruct He as [He|[<-|[]]];
        [now apply Hearlier | exact Hhit]. }
    destruct (existsb (covers r0) earlier);
      [|right]; now apply IH.
Qed.

(** ** Registrations that never answer *)

(** X23: Six registrations of [registerRoutes] can answer no request, because
    an earlier registration matches every path they match:
    [GET /api/news/categories] (the request goes to
    [GET /api/news/:slug]), the second [GET /api/admin/staff] and
    [GET /api/admin/settings], the second [POST /api/applications], with
    its check for a pending application, and the second
    [GET /api/admin/applications] and [GET /api/admin/applications/:id].
    Every other registration answers some request. *)
Theorem shadowed_registrations (r : Route) :
  In r registerRoutes ->
  ((exists m path, dispatch m path = Some r)
   <-> ~ In (r_line r) [308; 1595; 1606; 1671; 1717; 1747]%nat).
Proof.
  intros Hin. split.
  - intros (m & path & Hd).
    assert (Hu : In r (uncovered [] registerRoutes)).
    { apply (dispatchIn_uncovered m path r registerRoutes []);
        [intros e [] | exact Hd]. }
    assert (Hall : forallb
                     (fun r => negb (existsb (Nat.eqb (r_line r))
                                       [308; 1595; 1606; 1671; 1717; 1747]%nat))
                     (uncovered [] registerRoutes) = true)
      by (vm_compute; reflexivity).
    rewrite forallb_forall in Hall. specialize (Hall r Hu).
    apply negb_true_iff in Hall. intros Hdead.
    assert (existsb (Nat.eqb (r_line r))
              [308; 1595; 1606; 1671; 1717; 1747]%nat = true); [|congruence].
    apply existsb_exists. exists (r_line r). split; [exact Hdead|].
    apply Nat.eqb_refl.
  - intros Hlive. exists (r_method r), (samplePath r).
    assert (Hall : Forall
                     (fun r =>
                        In (r_line r) [308; 1595; 1606; 1671; 1717; 1747]%nat
                        \/ dispatch (r_method r) (samplePath r) = Some r)
                     registerRoutes).
    { unfold registerRoutes.
      repeat (apply Forall_cons;
              [first [right; vm_compute; reflexivity
                     | left; cbn; tauto]|]).
      apply Forall_nil. }
    rewrite Forall_forall in Hall.
    destruct (Hall r Hin) as [H|H]; [contradiction | exact H].
Qed.

Lemma shadowed_registrations_witness :
  (exists m path,
     dispatch m path = Some (route GET "/api/news/:slug" 275))
  /\ dispatch GET ["api"; "news"; "categories"]
     = Some (route GET "/api/news/:slug" 275).
Proof.
  split.
  - refine (proj2 (shadowed_registrations (route GET "/api/news/:slug" 275) _)
              _).
    + cbn. tauto.
    + cbn. intros H. repeat (destruct H as [H|H]; [discriminate H|]).
      exact H.
  - reflexivity.
Defined.

(** ** The admin's page of a ticket *)

(** X24: Of the three requests the admin's page of a ticket sends, the reply
    and the assignment reach their handlers for every id that is not
    empty; the request that closes the ticket,
    [PATCH /api/admin/tickets/:id/close], matches no registration of
    [registerRoutes], whatever the id. *)
Theorem admin_page_close_reaches_no_route (id : string) :
  dispatch (fst (adminTicketRequest CloseTicket id))
    (snd (adminTicketRequest CloseTicket id)) = None
  /\ (id <> "" ->
      dispatch (fst (adminTicketRequest SendReply id))
        (snd (adminTicketRequest SendReply id))
      = Some (route POST "/api/admin/tickets/:id/reply" 2084)
      /\ dispatch (fst (adminTicketRequest AssignToMe id))
           (snd (adminTicketRequest AssignToMe id))
         = Some (route PATCH "/api/admin/tickets/:id/assign" 2049)).
Proof.
  split.
  - destruct id as [|c id']; vm_compute; reflexivity.
  - intros Hid. destruct id as [|c id']; [contradiction|].
    split; vm_compute; reflexivity.
Qed.

Lemma admin_page_witness :
  dispatch POST ["api"; "admin"; "tickets"; "12"; "reply"]
  = Some (route POST "/api/admin/tickets/:id/reply" 2084).
Proof.
  refine (proj1 (proj2 (admin_page_close_reaches_no_route "12") _)).
  discriminate.
Defined.

End RouterFacts.
